(** * rag-as-a-service: ingestion, vector index, session registry and sweeper

    A shallow embedding of [backend/app/ingest.py], [backend/app/vector_store.py],
    [backend/app/cleanup.py] and the upload handler of [backend/app/main.py],
    followed by the properties of the retrieval pipeline.

    Conventions.
    - Python [int] is [Z]; [str] is [string]; [len] is [slen].
    - [text[a:b]] is [py_slice], with Python's treatment of negative and
      out-of-range indices.
    - A [while] loop is a function with a fuel argument that returns [None]
      when the fuel runs out; termination is proved separately.
    - [float] payloads (bounding boxes, page sizes, embedding components) are
      only copied around by the code under study and are carried as [Q].
    - ChromaDB, SQLite and the file system are external collaborators: the
      model keeps their observable state (collections by name, rows by
      primary key, the set of temporary files) and takes the points where
      they may raise from an explicit fault description.
    - The index client also raises on the input it refuses: a collection
      name outside its naming rule, an empty batch, an empty vector, and a
      vector of another dimension than the collection's.  These checks are
      part of the model of the client. *)

From Stdlib Require Import ZArith List String Ascii QArith Lia Bool Sorted.
From stdpp Require Import gmap strings list fin_maps pretty.
Import ListNotations.

Open Scope Z_scope.

(** ** ingest.py *)

Module Ingest.

Definition BBox : Type := (Q * Q * Q * Q)%type.

(** [DataBlock]: a text block with its page and bounding box. *)
Record DataBlock : Type := mkDataBlock {
  text : string;
  page : Z;
  bbox : BBox
}.

(** [len(s)] *)
Definition slen (s : string) : Z := Z.of_nat (String.length s).

(** Normalisation of one slice bound against a sequence of length [n]:
    a negative bound counts from the end, and the result is clamped to
    [0, n]. *)
Definition py_bound (n i : Z) : Z :=
  if i <? 0 then Z.max 0 (i + n) else Z.min i n.

(** [s[start:stop]] *)
Definition py_slice (s : string) (start stop : Z) : string :=
  let lo := py_bound (slen s) start in
  let hi := py_bound (slen s) stop in
  substring (Z.to_nat lo) (Z.to_nat (hi - lo)) s.

(** [end = min(start + max_chars, len(text))] *)
Definition window_end (n max_chars start : Z) : Z :=
  Z.min (start + max_chars) n.

(** [start = end - overlap_chars if end < len(text) else end] *)
Definition next_start (n overlap_chars end_ : Z) : Z :=
  if end_ <? n then end_ - overlap_chars else end_.

(** The [while start < len(text)] loop of [chunk_text_blocks], for one
    oversized block. *)
Fixpoint chunk_loop (fuel : nat) (block : DataBlock)
    (max_chars overlap_chars start : Z) : option (list DataBlock) :=
  match fuel with
  | O => None
  | S fuel' =>
      let text_ := text block in
      if start <? slen text_ then
        let end_ := window_end (slen text_) max_chars start in
        let chunk_text := py_slice text_ start end_ in
        let chunk := mkDataBlock chunk_text (page block) (bbox block) in
        match chunk_loop fuel' block max_chars overlap_chars
                (next_start (slen text_) overlap_chars end_) with
        | Some rest => Some (chunk :: rest)
        | None => None
        end
      else Some []
  end.

(** The body of [for block in blocks]: the chunks one block contributes. *)
Definition chunk_block (fuel : nat) (block : DataBlock)
    (max_chars overlap_chars : Z) : option (list DataBlock) :=
  if slen (text block) <=? max_chars then Some [block]
  else chunk_loop fuel block max_chars overlap_chars 0.

(** [chunk_text_blocks(blocks, max_chars, overlap_chars)] *)
Fixpoint chunk_text_blocks (fuel : nat) (blocks : list DataBlock)
    (max_chars overlap_chars : Z) : option (list DataBlock) :=
  match blocks with
  | [] => Some []
  | block :: rest =>
      match chunk_block fuel block max_chars overlap_chars with
      | Some cs =>
          match chunk_text_blocks fuel rest max_chars overlap_chars with
          | Some out => Some (cs ++ out)
          | None => None
          end
      | None => None
      end
  end.

(** Default parameters of the signature. *)
Definition default_max_chars : Z := 500.
Definition default_overlap_chars : Z := 50.

(** Specification-side view of the loop: the windows [(start, end)] it
    visits, without the text. *)
Fixpoint windows (fuel : nat) (n max_chars overlap_chars start : Z)
    : list (Z * Z) :=
  match fuel with
  | O => []
  | S fuel' =>
      if start <? n then
        let end_ := window_end n max_chars start in
        (start, end_) ::
          windows fuel' n max_chars overlap_chars (next_start n overlap_chars end_)
      else []
  end.

(** The chunk cut from [block] by the window [(s, e)]. *)
Definition chunk_of (block : DataBlock) (w : Z * Z) : DataBlock :=
  mkDataBlock (py_slice (text block) (fst w) (snd w)) (page block) (bbox block).

(** The windows of one block: a block within the limit is one window over
    its whole text. *)
Definition block_windows (fuel : nat) (block : DataBlock)
    (max_chars overlap_chars : Z) : list (Z * Z) :=
  let n := slen (text block) in
  if n <=? max_chars then [(0, n)]
  else windows fuel n max_chars overlap_chars 0.

(** Fuel that suffices for every block of the list once the window start
    advances at each iteration. *)
Definition fuel_for (blocks : list DataBlock) : nat :=
  S (fold_right (fun b acc => Nat.max (String.length (text b)) acc) O blocks).

End Ingest.


(** ** Exceptions and results shared by the modules below *)

(** The exceptions raised by the libraries the code calls: [ValueError], and
    any other exception of a collaborator (index client, file system,
    database, parser, model). *)
Variant exn : Type :=
  | ValueError (msg : string)
  | ExternalError (msg : string).

(** [str(e)] *)
Definition exn_message (e : exn) : string :=
  match e with
  | ValueError msg => msg
  | ExternalError msg => msg
  end.

(** What a call does once it stops: it returns a value or raises. *)
Variant outcome (A : Type) : Type :=
  | Returned (a : A)
  | Raised (e : exn).
Arguments Returned {A} a.
Arguments Raised {A} e.

(** ** vector_store.py *)

Module VectorStore.
Import Ingest.

Definition Embedding : Type := list Q.

(** The metadata dictionary built by [add_documents] for one block. *)
Record Metadata : Type := mkMetadata {
  md_page : Z;
  md_bbox_x0 : Q;
  md_bbox_y0 : Q;
  md_bbox_x1 : Q;
  md_bbox_y1 : Q;
  md_text : string
}.

(** One record of a collection: id, embedding, document, metadata. *)
Record VectorRecord : Type := mkVectorRecord {
  rec_id : string;
  rec_embedding : Embedding;
  rec_document : string;
  rec_metadata : Metadata
}.

(** A collection keeps its records in insertion order; the client keeps
    its collections by name. *)
Abbreviation Collection := (list VectorRecord).
Abbreviation Store := (gmap string Collection).

(** What [collection.add] does with a record whose id is already in the
    collection: ChromaDB releases differ, some skip the record and others
    raise.  Both are covered. *)
Variant DupPolicy : Type := IgnoreExisting | RejectExisting.

(** [f"session_{session_id}"] *)
Definition collection_name (session_id : string) : string :=
  ("session_" ++ session_id)%string.

(** [client.delete_collection(name)]: raises [ValueError] when absent. *)
Definition client_delete_collection (name : string) (st : Store)
    : Store * outcome unit :=
  match st !! name with
  | Some _ => (delete name st, Returned tt)
  | None => (st, Raised (ValueError "collection does not exist"))
  end.

(** The client's check of a collection name: 3 to 63 characters, the first
    and the last a letter or a digit, the others letters, digits, [_], [-]
    or [.], no two periods in a row, and not an IPv4 address. *)
Definition is_digit (c : ascii) : bool :=
  let n := nat_of_ascii c in ((48 <=? n) && (n <=? 57))%nat.

Definition is_alnum (c : ascii) : bool :=
  let n := nat_of_ascii c in
  (is_digit c || ((65 <=? n) && (n <=? 90)) || ((97 <=? n) && (n <=? 122)))%nat.

Definition is_name_char (c : ascii) : bool :=
  is_alnum c || Ascii.eqb c "_" || Ascii.eqb c "-" || Ascii.eqb c ".".

Fixpoint all_chars (p : ascii -> bool) (s : string) : bool :=
  match s with
  | EmptyString => true
  | String c s' => p c && all_chars p s'
  end.

Fixpoint last_char (s : string) : option ascii :=
  match s with
  | EmptyString => None
  | String c EmptyString => Some c
  | String _ s' => last_char s'
  end.

Fixpoint has_two_periods (s : string) : bool :=
  match s with
  | String "." (String "." _ as s') => true
  | String _ s' => has_two_periods s'
  | EmptyString => false
  end.

(** Whether the rest of a name completes an IPv4 address, [parts] groups
    being closed and [digits] digits of the current group read. *)
Fixpoint ipv4_from (parts digits : nat) (s : string) : bool :=
  match s with
  | EmptyString => ((parts =? 3) && (1 <=? digits) && (digits <=? 3))%nat
  | String c s' =>
      if is_digit c then ipv4_from parts (S digits) s'
      else if Ascii.eqb c "." then
        ((1 <=? digits) && (digits <=? 3))%nat && ipv4_from (S parts) 0 s'
      else false
  end.

Definition valid_collection_name (name : string) : bool :=
  let n := String.length name in
  ((3 <=? n) && (n <=? 63))%nat
  && match name with
     | String c _ => is_alnum c
     | EmptyString => false
     end
  && match last_char name with
     | Some c => is_alnum c
     | None => false
     end
  && all_chars is_name_char name
  && negb (has_two_periods name)
  && negb (ipv4_from 0 0 name).

(** [client.create_collection(name, ...)]: raises [ValueError] when the
    name is refused and when it is taken. *)
Definition client_create_collection (name : string) (st : Store)
    : Store * outcome unit :=
  if negb (valid_collection_name name) then
    (st, Raised (ValueError "invalid collection name"))
  else
    match st !! name with
    | Some _ => (st, Raised (ValueError "collection already exists"))
    | None => (<[name := []]> st, Returned tt)
    end.

(** [create_collection(session_id)] *)
Definition create_collection (session_id : string) (st : Store)
    : Store * outcome unit :=
  let name := collection_name session_id in
  (* try: client.delete_collection(name) / except ValueError: pass *)
  let st1 := fst (client_delete_collection name st) in
  client_create_collection name st1.

(** [get_collection(session_id)]: the collection, or [None] when the client
    raises [ValueError]. *)
Definition get_collection (session_id : string) (st : Store)
    : option Collection :=
  st !! collection_name session_id.

(** [f"block_{i}"] *)
Definition block_id (i : nat) : string := ("block_" ++ pretty i)%string.

(** [block.text[:500]] and the rest of the metadata dictionary. *)
Definition metadata_of (block : DataBlock) : Metadata :=
  let '(x0, y0, x1, y1) := bbox block in
  mkMetadata (page block) x0 y0 x1 y1 (py_slice (text block) 0 500).

(** The record assembled from position [i] of [ids], [embeddings],
    [documents] and [metadatas]. *)
Definition record_of (i : nat) (block : DataBlock) (e : Embedding)
    : VectorRecord :=
  mkVectorRecord (block_id i) e (text block) (metadata_of block).

(** The batch handed to [collection.add]: one record per position, ids
    counted from [i]. *)
Fixpoint records_from (i : nat) (blocks : list DataBlock)
    (embeddings : list Embedding) : list VectorRecord :=
  match blocks, embeddings with
  | b :: bs, e :: es => record_of i b e :: records_from (S i) bs es
  | _, _ => []
  end.

(** Whether a record with this id is stored in the collection. *)
Definition has_id (c : Collection) (id : string) : bool :=
  existsb (fun r => String.eqb (rec_id r) id) c.

(** The dimension of a collection: that of the first record stored in it;
    a collection without records has none yet. *)
Definition dimension (c : Collection) : option nat :=
  match c with
  | [] => None
  | r :: _ => Some (List.length (rec_embedding r))
  end.

(** The client's checks of the vectors handed to it: there is at least one,
    none is empty, and all have the dimension of the collection, or that of
    the first of them when the collection has none yet. *)
Definition check_embeddings (c : Collection) (vectors : list Embedding)
    : option exn :=
  match vectors with
  | [] => Some (ValueError "expected a non-empty list")
  | v :: _ =>
      if existsb (fun x => Nat.eqb (List.length x) 0) vectors then
        Some (ValueError "expected each embedding to be a non-empty list")
      else
        let dim := default (List.length v) (dimension c) in
        if forallb (fun x => Nat.eqb (List.length x) dim) vectors then None
        else Some (ExternalError "embedding dimension does not match collection dimensionality")
  end.

(** [collection.add(ids=..., embeddings=..., documents=..., metadatas=...)]:
    an empty batch and vectors of a wrong dimension are refused.  The batch
    ids are pairwise distinct by construction ([block_0], [block_1], ...),
    so only clashes with stored records matter. *)
Definition collection_add (policy : DupPolicy) (c : Collection)
    (new : list VectorRecord) : outcome Collection :=
  match check_embeddings c (map rec_embedding new) with
  | Some e => Raised e
  | None =>
      match policy with
      | IgnoreExisting =>
          Returned (c ++ List.filter (fun r => negb (has_id c (rec_id r))) new)
      | RejectExisting =>
          if existsb (fun r => has_id c (rec_id r)) new
          then Raised (ValueError "id already exists")
          else Returned (c ++ new)
      end
  end.

(** Specification side: the vectors have one dimension [dim], not zero. *)
Definition of_dimension (dim : nat) (vectors : list Embedding) : Prop :=
  (0 < dim)%nat /\ List.Forall (fun v => List.length v = dim) vectors.

(** Specification side: the records of a batch whose id the collection does
    not hold yet, in batch order. *)
Definition not_stored (c : Collection) (new : list VectorRecord)
    : list VectorRecord :=
  List.filter (fun r => negb (has_id c (rec_id r))) new.

(** [add_documents(session_id, blocks, embeddings)].  ChromaDB validates
    that the four lists of a batch have one length and raises otherwise. *)
Definition add_documents (policy : DupPolicy) (session_id : string)
    (blocks : list DataBlock) (embeddings : list Embedding) (st : Store)
    : Store * outcome unit :=
  let name := collection_name session_id in
  (* collection = get_collection(session_id)
     if collection is None: collection = create_collection(session_id) *)
  let '(st1, created) :=
    match get_collection session_id st with
    | Some _ => (st, Returned tt)
    | None => create_collection session_id st
    end in
  match created with
  | Raised e => (st1, Raised e)
  | Returned _ =>
      let collection := default [] (st1 !! name) in
      if negb (Nat.eqb (List.length blocks) (List.length embeddings)) then
        (st1, Raised (ValueError "batch lists differ in length"))
      else
        match collection_add policy collection (records_from 0 blocks embeddings) with
        | Returned c' => (<[name := c']> st1, Returned tt)
        | Raised e => (st1, Raised e)
        end
  end.

(** One formatted result of [query]. *)
Record QueryResult : Type := mkQueryResult {
  res_id : Z;
  res_text : string;
  res_page : Z;
  res_bbox : list Q;
  res_distance : Q
}.

Section Ranking.
(** The distance of the collection's space (cosine); floating point, so
    taken as given. *)
Variable distance : Embedding -> Embedding -> Q.

Fixpoint insert_by_distance (q : Embedding) (r : VectorRecord)
    (sorted : list VectorRecord) : list VectorRecord :=
  match sorted with
  | [] => [r]
  | r' :: rest =>
      if Qle_bool (distance q (rec_embedding r)) (distance q (rec_embedding r'))
      then r :: sorted
      else r' :: insert_by_distance q r rest
  end.

(** Records by ascending distance to the query vector. *)
Definition rank (q : Embedding) (c : Collection) : list VectorRecord :=
  fold_right (insert_by_distance q) [] c.

(** [collection.query(query_embeddings=[q], n_results=top_k, ...)]:
    the [top_k] nearest records; a non-positive [top_k], an empty query
    vector and one of another dimension than the collection's are
    refused. *)
Definition collection_query (c : Collection) (q : Embedding) (top_k : Z)
    : outcome (list VectorRecord) :=
  if top_k <=? 0 then Raised (ValueError "n_results must be positive")
  else
    match check_embeddings c [q] with
    | Some e => Raised e
    | None => Returned (firstn (Z.to_nat top_k) (rank q c))
    end.

(** The dictionary appended to [formatted_results] at rank [i]. *)
Definition format_result (q : Embedding) (i : nat) (r : VectorRecord)
    : QueryResult :=
  let metadata := rec_metadata r in
  mkQueryResult (Z.of_nat i + 1)
    (rec_document r)
    (md_page metadata)
    [md_bbox_x0 metadata; md_bbox_y0 metadata;
     md_bbox_x1 metadata; md_bbox_y1 metadata]
    (distance q (rec_embedding r)).

(** [query(session_id, query_embedding, top_k)] *)
Definition query (session_id : string) (query_embedding : Embedding)
    (top_k : Z) (st : Store) : outcome (list QueryResult) :=
  match get_collection session_id st with
  | None => Returned []
  | Some collection =>
      match collection_query collection query_embedding top_k with
      | Returned results => Returned (imap (format_result query_embedding) results)
      | Raised e => Raised e
      end
  end.
End Ranking.

(** The bounding box as the four-element list a result carries. *)
Definition bbox_list (b : BBox) : list Q :=
  let '(x0, y0, x1, y1) := b in [x0; y0; x1; y1].

(** The records of a session's collection, none when it has no collection. *)
Definition records_of_session (session_id : string) (st : Store) : Collection :=
  default [] (get_collection session_id st).

(** [delete_collection(session_id)]: [True] when a collection was deleted,
    [False] when the client raised [ValueError]. *)
Definition delete_collection (session_id : string) (st : Store)
    : Store * bool :=
  match client_delete_collection (collection_name session_id) st with
  | (st', Returned _) => (st', true)
  | (st', Raised _) => (st', false)
  end.

(** [list_collections()] *)
Definition list_collections (st : Store) : list string :=
  map fst (map_to_list st).

End VectorStore.

(** ** cleanup.py *)

Module Cleanup.
Import VectorStore.

(** *** Clock and timestamp texts

    An instant is a number of microseconds since 1970-01-01T00:00:00 UTC.
    SQLite's [CURRENT_TIMESTAMP] and Python's [datetime.utcnow().isoformat()]
    both print the UTC civil date and time of an instant, in two different
    layouts. *)

Definition SESSION_EXPIRY_MINUTES : Z := 30.
Definition TEMP_PDF_PATH : string := "temp_pdfs".

(** [timedelta(minutes=m)] in microseconds. *)
Definition timedelta_minutes (m : Z) : Z := m * 60 * 1000000.

(** Civil date [(year, month, day)] of a day number counted from
    1970-01-01 (proleptic Gregorian calendar). *)
Definition civil_from_days (days : Z) : Z * Z * Z :=
  let z := days + 719468 in
  let era := z / 146097 in
  let doe := z - era * 146097 in
  let yoe := (doe - doe / 1460 + doe / 36524 - doe / 146096) / 365 in
  let doy := doe - (365 * yoe + yoe / 4 - yoe / 100) in
  let mp := (5 * doy + 2) / 153 in
  let d := doy - (153 * mp + 2) / 5 + 1 in
  let m := if mp <? 10 then mp + 3 else mp - 9 in
  let y := yoe + era * 400 + (if m <=? 2 then 1 else 0) in
  (y, m, d).

Definition digit_char (d : Z) : ascii := ascii_of_nat (48 + Z.to_nat d).

(** The last [width] decimal digits of [n], most significant first. *)
Fixpoint zero_padded (width : nat) (n : Z) : string :=
  match width with
  | O => ""
  | S w => (zero_padded w (n / 10) ++ String (digit_char (n mod 10)) "")%string
  end.

(** [YYYY-MM-DD] *)
Definition date_text (seconds : Z) : string :=
  let '(y, m, d) := civil_from_days (seconds / 86400) in
  (zero_padded 4 y ++ "-" ++ zero_padded 2 m ++ "-" ++ zero_padded 2 d)%string.

(** [HH:MM:SS] *)
Definition time_text (seconds : Z) : string :=
  let sod := seconds mod 86400 in
  (zero_padded 2 (sod / 3600) ++ ":" ++ zero_padded 2 (sod mod 3600 / 60)
    ++ ":" ++ zero_padded 2 (sod mod 60))%string.

(** SQLite's [CURRENT_TIMESTAMP] at instant [now]: [YYYY-MM-DD HH:MM:SS]. *)
Definition current_timestamp (now : Z) : string :=
  let seconds := now / 1000000 in
  (date_text seconds ++ " " ++ time_text seconds)%string.

(** [datetime.isoformat()] of the instant [t]: [YYYY-MM-DDTHH:MM:SS], then
    [.ffffff] when the microsecond field is not zero. *)
Definition isoformat (t : Z) : string :=
  let seconds := t / 1000000 in
  let micro := t mod 1000000 in
  let fraction := if micro =? 0 then ""%string
                  else ("." ++ zero_padded 6 micro)%string in
  (date_text seconds ++ "T" ++ time_text seconds ++ fraction)%string.

(** *** The [sessions] table *)

Record Session : Type := mkSession {
  created_at : string;
  last_accessed : string;
  pdf_filename : option string
}.

(** Rows by primary key [session_id]. *)
Abbreviation Registry := (gmap string Session).

(** [register_session(session_id, pdf_filename)]: [INSERT OR REPLACE]. *)
Definition register_session (now : Z) (session_id : string)
    (filename : option string) (reg : Registry) : Registry :=
  <[session_id := mkSession (current_timestamp now) (current_timestamp now) filename]> reg.

(** [update_session_access(session_id)]: [UPDATE ... WHERE session_id = ?]. *)
Definition update_session_access (now : Z) (session_id : string)
    (reg : Registry) : Registry :=
  alter (fun row => mkSession (created_at row) (current_timestamp now) (pdf_filename row))
    session_id reg.

(** The [WHERE last_accessed < ?] test of [get_expired_sessions]: both
    sides are TEXT values, compared byte by byte. *)
Definition row_expired (now : Z) (row : Session) : bool :=
  let expiry_time := now - timedelta_minutes SESSION_EXPIRY_MINUTES in
  String.ltb (last_accessed row) (isoformat expiry_time).

(** [get_expired_sessions()], run at instant [now]: the
    [(session_id, pdf_filename)] pairs of the selected rows. *)
Definition get_expired_sessions (now : Z) (reg : Registry)
    : list (string * option string) :=
  map (fun kv => (fst kv, pdf_filename (snd kv)))
    (List.filter (fun kv => row_expired now (snd kv)) (map_to_list reg)).

(** [get_session_count()] *)
Definition get_session_count (reg : Registry) : Z := Z.of_nat (size reg).

(** *** Teardown and the sweep *)

(** The three stores a session lives in: the vector index, the directory
    of temporary PDF files (the set of paths that exist) and the table. *)
Record World : Type := mkWorld {
  store : Store;
  temp_files : gset string;
  sessions : Registry
}.

(** [Path(TEMP_PDF_PATH) / f"{session_id}.pdf"] *)
Definition pdf_path (session_id : string) : string :=
  (TEMP_PDF_PATH ++ "/" ++ session_id ++ ".pdf")%string.

(** The step of a teardown at which an external collaborator raises, if
    one does: the index client, the file system or the database. *)
Variant TeardownStep : Type := IndexStep | FileStep | RegistryStep.

(** Specification side: nothing of the session is left in any of the three
    stores. *)
Definition fully_reclaimed (session_id : string) (w : World) : Prop :=
  sessions w !! session_id = None /\
  get_collection session_id (store w) = None /\
  pdf_path session_id ∉ temp_files w.

Section Sweep.
(** For each session, the step of its teardown that raises, if any. *)
Variable fault : string -> option TeardownStep.

(** The exception a collaborator raises at a step. *)
Definition step_error (step : TeardownStep) : exn :=
  match step with
  | IndexStep => ExternalError "vector store"
  | FileStep => ExternalError "file system"
  | RegistryStep => ExternalError "database"
  end.

(** [delete_session(session_id)] *)
Definition delete_session (session_id : string) (w : World)
    : World * outcome unit :=
  (* vector_store.delete_collection(session_id) *)
  let w1 := mkWorld (fst (delete_collection session_id (store w)))
              (temp_files w) (sessions w) in
  (* if pdf_path.exists(): pdf_path.unlink() *)
  let w2 := mkWorld (store w1) (temp_files w1 ∖ {[ pdf_path session_id ]})
              (sessions w1) in
  (* DELETE FROM sessions WHERE session_id = ? ; commit *)
  let w3 := mkWorld (store w2) (temp_files w2)
              (delete session_id (sessions w2)) in
  match fault session_id with
  | Some IndexStep => (w, Raised (step_error IndexStep))
  | Some FileStep => (w1, Raised (step_error FileStep))
  | Some RegistryStep => (w2, Raised (step_error RegistryStep))
  | None => (w3, Returned tt)
  end.

(** Lines printed by the sweep. *)
Variant LogLine : Type :=
  | LogDeleted (session_id : string)
  | LogError (session_id : string) (e : exn)
  | LogSummary (count : Z).

(** The [for session in expired] loop of [cleanup_expired_sessions]. *)
Fixpoint sweep (expired : list (string * option string)) (w : World)
    (count : Z) (log : list LogLine) : World * Z * list LogLine :=
  match expired with
  | [] => (w, count, log)
  | session :: rest =>
      match delete_session (fst session) w with
      | (w', Returned _) =>
          sweep rest w' (count + 1) (log ++ [LogDeleted (fst session)])
      | (w', Raised e) =>
          sweep rest w' count (log ++ [LogError (fst session) e])
      end
  end.

(** [cleanup_expired_sessions()], run at instant [now]: the world after
    the sweep, the returned count, and the lines printed. *)
Definition cleanup_expired_sessions (now : Z) (w : World)
    : World * Z * list LogLine :=
  let expired := get_expired_sessions now (sessions w) in
  let '(w', count, log) := sweep expired w 0 [] in
  (w', count, if 0 <? count then log ++ [LogSummary count] else log).

(** Specification side: whether the teardown of a session goes through, and
    the line the sweep prints for it. *)
Definition reclaimed (session_id : string) : bool :=
  match fault session_id with
  | None => true
  | Some _ => false
  end.

Definition sweep_line (session_id : string) : LogLine :=
  match fault session_id with
  | None => LogDeleted session_id
  | Some step => LogError session_id (step_error step)
  end.
End Sweep.

End Cleanup.

(** ** main.py: the upload handler *)

Module Main.
Import Ingest VectorStore Cleanup.

Record PageDimensions : Type := mkPageDimensions { width : Q; height : Q }.

Record PageDimensionResponse : Type := mkPageDimensionResponse {
  pd_page : Z; pd_width : Q; pd_height : Q
}.

Record UploadResponse : Type := mkUploadResponse {
  session_id : string;
  message : string;
  page_count : Z;
  block_count : Z;
  page_dimensions : list PageDimensionResponse
}.

(** The uploaded file as the handler sees it. *)
Record UploadFile : Type := mkUploadFile {
  filename : option string;
  content_type : option string;
  contents : string
}.

Record HTTPException : Type := mkHTTPException {
  status_code : Z;
  detail : string
}.

(** What the handler hands back: a response, or an [HTTPException]. *)
Variant handled (A : Type) : Type :=
  | Respond (a : A)
  | Abort (e : HTTPException).
Arguments Respond {A} a.
Arguments Abort {A} e.

(** How the body of the handler's [try] block ends. *)
Variant body_end : Type :=
  | Done (r : UploadResponse)
  | RaisedHTTP (e : HTTPException)
  | RaisedOther (e : exn).

(** Everything the handler takes from outside: the fresh identifier, the
    results of the parser and of the model, and whether a step on the file
    system, the index or the database raises. *)
Record UploadEnv : Type := mkUploadEnv {
  uuid4 : string;
  write_raises : bool;
  extract_text_blocks : outcome (list DataBlock * gmap Z PageDimensions);
  get_embeddings : list string -> outcome (list Embedding);
  create_raises : bool;
  add_raises : bool;
  register_raises : bool;
  dup_policy : DupPolicy
}.

Definition MAX_FILE_SIZE : Z := 1 * 1024 * 1024.

Definition lower_char (c : ascii) : ascii :=
  let n := nat_of_ascii c in
  if ((65 <=? n) && (n <=? 90))%nat then ascii_of_nat (n + 32) else c.

(** [s.lower()] on ASCII text. *)
Fixpoint lower (s : string) : string :=
  match s with
  | EmptyString => EmptyString
  | String c s' => String (lower_char c) (lower s')
  end.

(** [s.endswith(suffix)] *)
Definition endswith (s suffix : string) : bool :=
  let n := String.length s in
  let m := String.length suffix in
  ((m <=? n)%nat && String.eqb (substring (n - m) m s) suffix)%bool.

(** The checks made before anything is written; [None] when all pass.
    The size figure of the "too large" text is left out. *)
Definition validate (file : UploadFile) : option HTTPException :=
  match filename file with
  | None | Some EmptyString => Some (mkHTTPException 400 "No file provided")
  | Some name =>
      if negb (endswith (lower name) ".pdf") then
        Some (mkHTTPException 400 "Only PDF files are accepted")
      else if match content_type file with
              | None | Some EmptyString => false
              | Some ct => negb (String.eqb ct "application/pdf")
              end then
        Some (mkHTTPException 400 "Only PDF files are accepted")
      else if MAX_FILE_SIZE <? slen (contents file) then
        Some (mkHTTPException 400 "File too large. Maximum size is 1MB.")
      else if slen (contents file) =? 0 then
        Some (mkHTTPException 400 "File is empty")
      else None
  end.

Fixpoint insert_page (p : Z * PageDimensions) (l : list (Z * PageDimensions))
    : list (Z * PageDimensions) :=
  match l with
  | [] => [p]
  | p' :: rest => if fst p <=? fst p' then p :: l else p' :: insert_page p rest
  end.

(** [sorted(page_dims.items())]: the keys of a dictionary are distinct, so
    the order is by page number. *)
Definition sorted_items (page_dims : gmap Z PageDimensions)
    : list (Z * PageDimensions) :=
  fold_right insert_page [] (map_to_list page_dims).

Definition set_store (w : World) (st : Store) : World :=
  mkWorld st (temp_files w) (sessions w).

(** The body of the [try] block of [upload_pdf], entered once the
    temporary file exists.  [None] only if the chunker runs out of fuel. *)
Definition upload_body (env : UploadEnv) (now : Z) (file : UploadFile)
    (w : World) : option (World * body_end) :=
  let sid := uuid4 env in
  (* blocks, page_dims = extract_text_blocks(str(pdf_path)) *)
  match extract_text_blocks env with
  | Raised e => Some (w, RaisedOther e)
  | Returned (blocks, page_dims) =>
      (* if not blocks: raise HTTPException(400, ...) *)
      match blocks with
      | [] => Some (w, RaisedHTTP (mkHTTPException 400 "No text content found in PDF"))
      | _ :: _ =>
          (* blocks = chunk_text_blocks(blocks) *)
          match chunk_text_blocks (fuel_for blocks) blocks
                  default_max_chars default_overlap_chars with
          | None => None
          | Some chunks =>
              (* embeddings = get_embeddings([block.text for block in blocks]) *)
              match get_embeddings env (map text chunks) with
              | Raised e => Some (w, RaisedOther e)
              | Returned embeddings =>
                  (* create_collection(session_id) *)
                  if create_raises env then
                    Some (w, RaisedOther (ExternalError "vector store"))
                  else
                  match create_collection sid (store w) with
                  | (st1, Raised e) => Some (set_store w st1, RaisedOther e)
                  | (st1, Returned _) =>
                      (* add_documents(session_id, blocks, embeddings) *)
                      if add_raises env then
                        Some (set_store w st1, RaisedOther (ExternalError "vector store"))
                      else
                      match add_documents (dup_policy env) sid chunks embeddings st1 with
                      | (st2, Raised e) => Some (set_store w st2, RaisedOther e)
                      | (st2, Returned _) =>
                          (* register_session(session_id, file.filename) *)
                          if register_raises env then
                            Some (set_store w st2, RaisedOther (ExternalError "database"))
                          else
                            let w3 := mkWorld st2 (temp_files w)
                                        (register_session now sid (filename file) (sessions w)) in
                            Some (w3, Done (mkUploadResponse sid
                                    "PDF processed successfully"
                                    (Z.of_nat (size page_dims))
                                    (Z.of_nat (List.length chunks))
                                    (map (fun kv => mkPageDimensionResponse (fst kv)
                                                   (width (snd kv)) (height (snd kv)))
                                       (sorted_items page_dims))))
                      end
                  end
              end
          end
      end
  end.

(** [upload_pdf(file)], run at instant [now] in world [w]. *)
Definition upload_pdf (env : UploadEnv) (now : Z) (file : UploadFile)
    (w : World) : option (World * handled UploadResponse) :=
  match validate file with
  | Some e => Some (w, Abort e)
  | None =>
      let path := pdf_path (uuid4 env) in
      (* with open(pdf_path, "wb") as buffer: buffer.write(contents) *)
      if write_raises env then
        Some (w, Abort (mkHTTPException 500 "Failed to save PDF"))
      else
        let w0 := mkWorld (store w) (temp_files w ∪ {[ path ]}) (sessions w) in
        match upload_body env now file w0 with
        | None => None
        | Some (w', Done r) => Some (w', Respond r)
        (* except HTTPException: raise *)
        | Some (w', RaisedHTTP e) => Some (w', Abort e)
        (* except Exception as e: unlink the file, raise HTTPException(500, ...) *)
        | Some (w', RaisedOther e) =>
            Some (mkWorld (store w') (temp_files w' ∖ {[ path ]}) (sessions w'),
                  Abort (mkHTTPException 500
                           ("Failed to process PDF: " ++ exn_message e)))
        end
  end.

(** Specification side: the steps of the ingestion, after the temporary
    file has been written, at which a collaborator can raise. *)
Variant IngestStep : Type :=
  ExtractStep | EmbedStep | CreateStep | AddStep | RegisterStep.

(** Specification side: the chunks the handler holds when it calls the
    model, for a document with at least one block. *)
Definition chunks_of_upload (env : UploadEnv) (chunks : list DataBlock) : Prop :=
  exists blocks pages,
    extract_text_blocks env = Returned (blocks, pages) /\ blocks <> [] /\
    chunk_text_blocks (fuel_for blocks) blocks default_max_chars default_overlap_chars
      = Some chunks.

(** Specification side: on the index [st], step [s] is the one that raises,
    every step before it having returned.  The index steps raise when the
    client fails ([create_raises], [add_raises]) and when
    [create_collection] or [add_documents] raises on its input. *)
Inductive step_fails (env : UploadEnv) (st : Store) : IngestStep -> Prop :=
  | extract_fails (e : exn) :
      extract_text_blocks env = Raised e ->
      step_fails env st ExtractStep
  | embed_fails (chunks : list DataBlock) (e : exn) :
      chunks_of_upload env chunks ->
      get_embeddings env (map text chunks) = Raised e ->
      step_fails env st EmbedStep
  | create_fails (chunks : list DataBlock) (embeddings : list Embedding) :
      chunks_of_upload env chunks ->
      get_embeddings env (map text chunks) = Returned embeddings ->
      create_raises env = true \/
      (exists st1 e, create_collection (uuid4 env) st = (st1, Raised e)) ->
      step_fails env st CreateStep
  | add_fails (chunks : list DataBlock) (embeddings : list Embedding) (st1 : Store) :
      chunks_of_upload env chunks ->
      get_embeddings env (map text chunks) = Returned embeddings ->
      create_raises env = false ->
      create_collection (uuid4 env) st = (st1, Returned tt) ->
      add_raises env = true \/
      (exists st2 e,
         add_documents (dup_policy env) (uuid4 env) chunks embeddings st1
           = (st2, Raised e)) ->
      step_fails env st AddStep
  | register_fails (chunks : list DataBlock) (embeddings : list Embedding)
      (st1 st2 : Store) :
      chunks_of_upload env chunks ->
      get_embeddings env (map text chunks) = Returned embeddings ->
      create_raises env = false ->
      create_collection (uuid4 env) st = (st1, Returned tt) ->
      add_raises env = false ->
      add_documents (dup_policy env) (uuid4 env) chunks embeddings st1
        = (st2, Returned tt) ->
      register_raises env = true ->
      step_fails env st RegisterStep.

End Main.

(** ** ingest.py: the extractor *)

Module Extraction.
Import Ingest Main.

(** [str.isspace] on the characters of the model (code points below 256):
    tab to carriage return, the four separators 28 to 31, space, next line
    (133) and no-break space (160). *)
Definition is_space (c : ascii) : bool :=
  let n := nat_of_ascii c in
  (((9 <=? n) && (n <=? 13)) || ((28 <=? n) && (n <=? 31)) || (n =? 32)
   || (n =? 133) || (n =? 160))%nat.

(** [s.lstrip()] *)
Fixpoint lstrip (s : string) : string :=
  match s with
  | EmptyString => EmptyString
  | String c s' => if is_space c then lstrip s' else s
  end.

(** [s.rstrip()] *)
Fixpoint rstrip (s : string) : string :=
  match s with
  | EmptyString => EmptyString
  | String c s' =>
      match rstrip s' with
      | EmptyString => if is_space c then EmptyString else String c EmptyString
      | String c' r => String c (String c' r)
      end
  end.

(** [s.strip()] *)
Definition strip (s : string) : string := rstrip (lstrip s).

(** What [page.get_text("dict")] hands over, with every key the code reads
    through [dict.get] optional. *)
Record RawSpan : Type := mkRawSpan { raw_text : option string }.
Record RawLine : Type := mkRawLine { raw_spans : option (list RawSpan) }.
Record RawBlock : Type := mkRawBlock {
  raw_type : option Z;
  raw_lines : option (list RawLine);
  raw_bbox : option BBox
}.

(** A page of the opened document: [page.rect] and the text dictionary. *)
Record RawPage : Type := mkRawPage {
  rect_width : Q;
  rect_height : Q;
  raw_blocks : option (list RawBlock)
}.

(** [for span in line.get("spans", []): text_content += span.get("text", "")]
    followed by [text_content += " "]. *)
Definition line_text (line : RawLine) : string :=
  (fold_left (fun acc span => acc ++ default ""%string (raw_text span))
     (default [] (raw_spans line)) "" ++ " ")%string.

(** The text gathered over the lines of a block, before [strip]. *)
Definition block_text (block : RawBlock) : string :=
  fold_left (fun acc line => acc ++ line_text line)%string
    (default [] (raw_lines block)) ""%string.

(** The body of [for block in page_dict.get("blocks", [])]: the block this
    raw block contributes on page index [page_num], if any. *)
Definition extract_block (page_num : nat) (block : RawBlock) : option DataBlock :=
  match raw_type block with
  | Some 0 =>
      let text_content := strip (block_text block) in
      match text_content with
      | EmptyString => None
      | _ =>
          Some (mkDataBlock text_content (Z.of_nat page_num + 1)
                  (default (0%Q, 0%Q, 0%Q, 0%Q) (raw_bbox block)))
      end
  | _ => None
  end.

(** The blocks appended while page index [page_num] is processed. *)
Definition extract_page (page_num : nat) (page : RawPage) : list DataBlock :=
  omap (extract_block page_num) (default [] (raw_blocks page)).

(** The [for page_num in range(len(doc))] loop, from page index [page_num]
    on, with the two accumulators. *)
Fixpoint extract_pages (page_num : nat) (doc : list RawPage)
    (blocks : list DataBlock) (page_dimensions : gmap Z PageDimensions)
    : list DataBlock * gmap Z PageDimensions :=
  match doc with
  | [] => (blocks, page_dimensions)
  | page :: rest =>
      extract_pages (S page_num) rest
        (blocks ++ extract_page page_num page)
        (<[Z.of_nat page_num + 1 :=
             mkPageDimensions (rect_width page) (rect_height page)]> page_dimensions)
  end.

(** [extract_text_blocks(pdf_path)]; [opened] is what [fitz.open] does with
    the file: the pages, or an exception. *)
Definition extract_text_blocks (opened : outcome (list RawPage))
    : outcome (list DataBlock * gmap Z PageDimensions) :=
  match opened with
  | Raised e => Raised e
  | Returned doc => Returned (extract_pages 0 doc [] ∅)
  end.

(** Specification side: a raw block that yields a [DataBlock]. *)
Definition is_text_block (block : RawBlock) : bool :=
  match raw_type block with
  | Some 0 => negb (String.eqb (strip (block_text block)) "")
  | _ => false
  end.


(** Specification side: the block a raw text block on page index
    [page_num] gives. *)
Definition block_of (page_num : nat) (raw : RawBlock) : DataBlock :=
  mkDataBlock (strip (block_text raw)) (Z.of_nat page_num + 1)
    (default (0%Q, 0%Q, 0%Q, 0%Q) (raw_bbox raw)).

(** Specification side: the blocks of a document, page after page, one per
    raw text block of the page, in the order of the raw blocks. *)
Definition expected_blocks (doc : list RawPage) : list DataBlock :=
  concat (imap (fun page_num rawpage =>
                  map (block_of page_num)
                    (List.filter is_text_block (default [] (raw_blocks rawpage))))
            doc).

End Extraction.

(** ** main.py: the chat and session status handlers *)

Module Chat.
Import Ingest VectorStore Cleanup Main Extraction.

Record Citation : Type := mkCitation {
  cit_id : Z;
  cit_text : string;
  cit_page : Z;
  cit_bbox : list Q
}.

Record ChatRequest : Type := mkChatRequest {
  req_session_id : string;
  req_query : string
}.

Record ChatResponse : Type := mkChatResponse {
  answer : string;
  citations : list Citation
}.

(** How a handler without a [try] block ends: with its return value, with
    an [HTTPException] it raised itself, or with an exception of a
    collaborator that nothing catches. *)
Variant ended (A : Type) : Type :=
  | Finished (a : A)
  | Rejected (e : HTTPException)
  | Uncaught (e : exn).
Arguments Finished {A} a.
Arguments Rejected {A} e.
Arguments Uncaught {A} e.

(** What [chat] takes from outside: the model behind [get_embedding] and the
    distance of the index. *)
Record ChatEnv : Type := mkChatEnv {
  get_embedding : string -> outcome Embedding;
  chat_distance : Embedding -> Embedding -> Q
}.

Definition newline : string := String (ascii_of_nat 10) EmptyString.

(** [sep.join(parts)] *)
Fixpoint join (sep : string) (parts : list string) : string :=
  match parts with
  | [] => EmptyString
  | [p] => p
  | p :: rest => (p ++ sep ++ join sep rest)%string
  end.

(** [result["text"][:200] + "..." if len(result["text"]) > 200 else result["text"]] *)
Definition text_snippet (t : string) : string :=
  if 200 <? slen t then (py_slice t 0 200 ++ "...")%string else t.

(** [f"[{citation_id}] {text_snippet}"] with [citation_id = i + 1]. *)
Definition answer_part (i : nat) (result : QueryResult) : string :=
  ("[" ++ pretty (Z.of_nat i + 1) ++ "] " ++ text_snippet (res_text result))%string.

(** [Citation(id=citation_id, text=result["text"], page=..., bbox=...)] *)
Definition citation_of (i : nat) (result : QueryResult) : Citation :=
  mkCitation (Z.of_nat i + 1) (res_text result) (res_page result) (res_bbox result).

Definition answer_header : string :=
  ("Based on the resume, I found the following relevant information:"
   ++ newline ++ newline)%string.

Definition no_results_answer : string :=
  "I couldn't find any relevant information in the resume for your query.".

(** The world after [update_session_access(session_id)] at instant [now]. *)
Definition touch (now : Z) (session_id : string) (w : World) : World :=
  mkWorld (store w) (temp_files w)
    (update_session_access now session_id (sessions w)).

(** [chat(request)], run at instant [now] in world [w]. *)
Definition chat (env : ChatEnv) (now : Z) (request : ChatRequest) (w : World)
    : World * ended ChatResponse :=
  let session_id := req_session_id request in
  let query_text := strip (req_query request) in
  match query_text with
  | EmptyString => (w, Rejected (mkHTTPException 400 "Query cannot be empty"))
  | _ =>
      match get_collection session_id (store w) with
      | None =>
          (w, Rejected (mkHTTPException 404
                          "Session not found. Please upload a PDF first."))
      | Some _ =>
          let w1 := touch now session_id w in
          match get_embedding env query_text with
          | Raised e => (w1, Uncaught e)
          | Returned query_embedding =>
              match query (chat_distance env) session_id query_embedding 3 (store w1) with
              | Raised e => (w1, Uncaught e)
              | Returned [] => (w1, Finished (mkChatResponse no_results_answer []))
              | Returned results =>
                  (w1, Finished (mkChatResponse
                         (answer_header ++ join (newline ++ newline)
                                             (imap answer_part results))
                         (imap citation_of results)))
              end
          end
      end
  end.

(** Specification side: world [v] is world [w] except, at most, for the
    access time of the row of [session_id], which is the old one or the
    time stamp of [now]. *)
Definition same_but_access_time (now : Z) (session_id : string) (w v : World)
    : Prop :=
  store v = store w /\ temp_files v = temp_files w /\
  get_session_count (sessions v) = get_session_count (sessions w) /\
  (forall sid', sid' <> session_id -> sessions v !! sid' = sessions w !! sid') /\
  match sessions w !! session_id with
  | None => sessions v !! session_id = None
  | Some row =>
      exists stamp,
        (stamp = last_accessed row \/ stamp = current_timestamp now) /\
        sessions v !! session_id
          = Some (mkSession (created_at row) stamp (pdf_filename row))
  end.


(** [get_session_status(session_id)]: the [session_id] and the status text
    of the returned dictionary. *)
Definition get_session_status (now : Z) (session_id : string) (w : World)
    : World * ended (string * string) :=
  match get_collection session_id (store w) with
  | None => (w, Rejected (mkHTTPException 404 "Session not found or expired"))
  | Some _ => (touch now session_id w, Finished (session_id, "active"%string))
  end.

End Chat.

(** ** Specification-side notions for the chunker *)

Module ChunkSpec.
Import Ingest.

(** A chunk without the characters it shares with the chunk before it. *)
Definition drop_overlap (overlap_chars : Z) (chunk : DataBlock) : string :=
  py_slice (text chunk) overlap_chars (slen (text chunk)).

(** The text put together again from the chunks of one block: the first
    chunk whole, every later one without its leading overlap. *)
Definition reassemble (overlap_chars : Z) (chunks : list DataBlock) : string :=
  match chunks with
  | [] => EmptyString
  | first :: rest =>
      (text first ++
       fold_right (fun c acc => drop_overlap overlap_chars c ++ acc) EmptyString rest)%string
  end.

(** [ceil((L - overlap_chars) / (max_chars - overlap_chars))] *)
Definition chunk_count (L max_chars overlap_chars : Z) : Z :=
  (L - overlap_chars + (max_chars - overlap_chars) - 1) / (max_chars - overlap_chars).

End ChunkSpec.

(** ** Sample inputs used in the examples below *)

Module Samples.
Import Ingest.

Definition origin_box : BBox := (0%Q, 0%Q, 0%Q, 0%Q).

(** A block on page 1 with the given text. *)
Definition block_on_page_1 (s : string) : DataBlock := mkDataBlock s 1 origin_box.

Definition ten_letters : DataBlock := block_on_page_1 "abcdefghij".
Definition three_letters : DataBlock := block_on_page_1 "abc".
Definition two_letters : DataBlock := block_on_page_1 "xy".

(** A text of 600 characters, longer than the metadata copy keeps. *)
Definition long_text : string := string_of_list_ascii (repeat "a"%char 600).
Definition long_block : DataBlock :=
  mkDataBlock long_text 2 (1 # 2, 3 # 2, 5 # 2, 7 # 2)%Q.

Definition unit_embedding : VectorStore.Embedding := [1%Q; 0%Q].
Definition zero_distance (a b : VectorStore.Embedding) : Q := 0%Q.

(** 2024-01-01 12:00:00 UTC, in microseconds since the epoch. *)
Definition noon : Z := 1704110400 * 1000000.

(** The table after [register_session("s1", "cv.pdf")] at [noon]. *)
Definition one_session : Cleanup.Registry :=
  Cleanup.register_session noon "s1" (Some "cv.pdf"%string) ∅.

Definition no_fault (session_id : string) : option Cleanup.TeardownStep := None.

Definition empty_world : Cleanup.World := Cleanup.mkWorld ∅ ∅ ∅.

Definition cv_file : Main.UploadFile :=
  Main.mkUploadFile (Some "cv.pdf"%string) (Some "application/pdf"%string) "%PDF-1.4".

(** A parser result with one block on one page, a model that returns one
    vector per text, and no failing collaborator. *)
Definition healthy_env : Main.UploadEnv :=
  Main.mkUploadEnv "u1" false
    (Returned ([ten_letters], {[ 1 := Main.mkPageDimensions 612 792 ]}))
    (fun texts => Returned (map (fun _ => unit_embedding) texts))
    false false false VectorStore.IgnoreExisting.

(** The same, with the index failing inside [add_documents]. *)
Definition add_fails_env : Main.UploadEnv :=
  Main.mkUploadEnv "u1" false
    (Returned ([ten_letters], {[ 1 := Main.mkPageDimensions 612 792 ]}))
    (fun texts => Returned (map (fun _ => unit_embedding) texts))
    false true false VectorStore.IgnoreExisting.

(** A PDF that parses to no text block at all. *)
Definition no_text_env : Main.UploadEnv :=
  Main.mkUploadEnv "u1" false
    (Returned ([], {[ 1 := Main.mkPageDimensions 612 792 ]}))
    (fun texts => Returned (map (fun _ => unit_embedding) texts))
    false false false VectorStore.IgnoreExisting.

(** A model that returns the same vector for every query, over an index
    that holds every record at distance zero. *)
Definition chat_env : Chat.ChatEnv :=
  Chat.mkChatEnv (fun _ => Returned unit_embedding) zero_distance.

(** The world a successful upload of [cv_file] under [healthy_env] leaves. *)
Definition uploaded_world : Cleanup.World :=
  Cleanup.mkWorld
    {[ "session_u1"%string := [VectorStore.record_of 0 ten_letters unit_embedding] ]}
    {[ "temp_pdfs/u1.pdf"%string ]}
    (Cleanup.register_session noon "u1" (Some "cv.pdf"%string) ∅).
End Samples.

(** ** Proof automation *)

(** Case analysis on every [match] and [if] of the goal, outermost first. *)
Ltac split_body :=
  repeat match goal with
    | |- context [match ?x with _ => _ end] => destruct x eqn:?
    | |- context [if ?x then _ else _] => destruct x eqn:?
    end.

(** * Properties *)

(** ** Strings and slices *)

Section SliceFacts.
Import Ingest.

Lemma substring_length (s : string) (n m : nat) :
  String.length (substring n m s) = Nat.min m (String.length s - n).
Proof.
  revert n m. induction s as [|c s IH]; intros n m.
  - destruct n, m; reflexivity.
  - destruct n as [|n].
    + destruct m as [|m]; [reflexivity|]. simpl. rewrite IH. lia.
    + simpl. apply IH.
Qed.

Lemma substring_all (s : string) : substring 0 (String.length s) s = s.
Proof. induction s as [|c s IH]; [reflexivity|]. simpl. now rewrite IH. Qed.

Lemma substring_substring (s : string) (a m c k : nat) :
  (c + k <= m)%nat ->
  substring c k (substring a m s) = substring (a + c) k s.
Proof.
  intros Hle. apply get_correct. intros p.
  destruct (Nat.lt_ge_cases p k) as [Hp|Hp].
  - rewrite !substring_correct1 by lia. f_equal. lia.
  - now rewrite !substring_correct2 by lia.
Qed.

Lemma slen_nonneg (s : string) : 0 <= slen s.
Proof. unfold slen. lia. Qed.

Lemma py_bound_inside (n i : Z) : 0 <= i <= n -> py_bound n i = i.
Proof. unfold py_bound. intros H. destruct (Z.ltb_spec i 0); lia. Qed.

Lemma py_slice_inside (s : string) (a b : Z) :
  0 <= a <= slen s -> 0 <= b <= slen s ->
  py_slice s a b = substring (Z.to_nat a) (Z.to_nat (b - a)) s.
Proof. intros Ha Hb. unfold py_slice. now rewrite !py_bound_inside. Qed.

Lemma slen_py_slice (s : string) (a b : Z) :
  0 <= a <= b -> b <= slen s -> slen (py_slice s a b) = b - a.
Proof.
  intros Ha Hb. rewrite py_slice_inside by lia.
  unfold slen in *. rewrite substring_length. lia.
Qed.

Lemma py_slice_all (s : string) : py_slice s 0 (slen s) = s.
Proof.
  pose proof (slen_nonneg s). rewrite py_slice_inside by lia.
  unfold slen. rewrite Z.sub_0_r, Nat2Z.id. apply substring_all.
Qed.

(** A character of a slice is the character of the text at the shifted
    position. *)
Lemma get_py_slice (s : string) (a b p : Z) :
  0 <= a -> a <= p < b -> b <= slen s ->
  String.get (Z.to_nat (p - a)) (py_slice s a b) = String.get (Z.to_nat p) s.
Proof.
  intros Ha Hp Hb. rewrite py_slice_inside by lia.
  rewrite substring_correct1 by lia. f_equal. lia.
Qed.

Lemma py_slice_py_slice (s : string) (a b c d : Z) :
  0 <= a <= b -> b <= slen s -> 0 <= c <= d -> d <= b - a ->
  py_slice (py_slice s a b) c d = py_slice s (a + c) (a + d).
Proof.
  intros Ha Hb Hc Hd.
  assert (Hl : slen (py_slice s a b) = b - a) by now apply slen_py_slice.
  rewrite (py_slice_inside (py_slice s a b)) by lia.
  rewrite (py_slice_inside s a b), (py_slice_inside s (a + c)) by lia.
  rewrite substring_substring by lia. f_equal; lia.
Qed.
End SliceFacts.

(** ** The chunker's loop *)

Section ChunkLoop.
Import Ingest.

Variables (max_chars overlap_chars : Z).
Hypothesis overlap_lt_max : overlap_chars < max_chars.

(** The window start moves forward at every iteration. *)
Lemma next_start_advances (n start : Z) :
  start < n ->
  start < next_start n overlap_chars (window_end n max_chars start).
Proof.
  intros Hs. unfold next_start, window_end.
  destruct (Z.ltb_spec (Z.min (start + max_chars) n) n); lia.
Qed.

Lemma windows_step (fuel : nat) (n start : Z) :
  start < n ->
  windows (S fuel) n max_chars overlap_chars start =
    (start, window_end n max_chars start) ::
      windows fuel n max_chars overlap_chars
        (next_start n overlap_chars (window_end n max_chars start)).
Proof. intros Hs. simpl. destruct (Z.ltb_spec start n); [reflexivity | lia]. Qed.

Lemma windows_done (fuel : nat) (n start : Z) :
  n <= start -> windows fuel n max_chars overlap_chars start = [].
Proof.
  intros Hs. destruct fuel; [reflexivity|]. simpl.
  destruct (Z.ltb_spec start n); [lia | reflexivity].
Qed.

(** With fuel above the distance to the end of the text, the loop returns
    the chunks cut by its windows. *)
Lemma chunk_loop_windows (block : DataBlock) (fuel : nat) (start : Z) :
  (Z.to_nat (slen (text block) - start) < fuel)%nat ->
  chunk_loop fuel block max_chars overlap_chars start =
    Some (map (chunk_of block)
            (windows fuel (slen (text block)) max_chars overlap_chars start)).
Proof.
  revert start. induction fuel as [|fuel IH]; intros start Hfuel; [lia|].
  simpl. destruct (Z.ltb_spec start (slen (text block))) as [Hs|Hs]; [|reflexivity].
  pose proof (next_start_advances _ _ Hs) as Hadv.
  rewrite IH by lia. reflexivity.
Qed.

(** More fuel does not change the windows. *)
Lemma windows_fuel (n : Z) (fuel fuel' : nat) (start : Z) :
  (Z.to_nat (n - start) < fuel)%nat -> (Z.to_nat (n - start) < fuel')%nat ->
  windows fuel n max_chars overlap_chars start =
  windows fuel' n max_chars overlap_chars start.
Proof.
  revert fuel' start. induction fuel as [|fuel IH]; intros fuel' start H1 H2; [lia|].
  destruct fuel' as [|fuel']; [lia|].
  destruct (Z.lt_ge_cases start n) as [Hs|Hs].
  - rewrite !windows_step by assumption. f_equal.
    pose proof (next_start_advances _ _ Hs). apply IH; lia.
  - now rewrite !windows_done by assumption.
Qed.

(** Every window lies inside the text, starts at or after the loop's
    start, and is at most [max_chars] wide. *)
Lemma windows_bounds (n : Z) (fuel : nat) (start : Z) (w : Z * Z) :
  0 <= max_chars -> 0 <= start ->
  In w (windows fuel n max_chars overlap_chars start) ->
  start <= fst w /\ fst w < n /\ fst w <= snd w <= n /\ snd w - fst w <= max_chars.
Proof.
  intros Hmax. revert start. induction fuel as [|fuel IH]; intros start H0 Hin; [destruct Hin|].
  simpl in Hin. destruct (Z.ltb_spec start n) as [Hs|Hs]; [|destruct Hin].
  destruct Hin as [<-|Hin].
  - simpl. unfold window_end. lia.
  - pose proof (next_start_advances _ _ Hs) as Hadv.
    apply IH in Hin; lia.
Qed.

(** Starts are strictly increasing along the list of windows. *)
Lemma windows_sorted (n : Z) (fuel : nat) (start : Z) :
  StronglySorted (fun w w' => fst w < fst w')
    (windows fuel n max_chars overlap_chars start).
Proof.
  revert start. induction fuel as [|fuel IH]; intros start; [constructor|].
  simpl. destruct (Z.ltb_spec start n) as [Hs|Hs]; [|constructor].
  constructor; [apply IH|].
  pose proof (next_start_advances _ _ Hs) as Hadv.
  apply List.Forall_forall. intros w Hin. simpl.
  revert Hin Hadv. generalize (next_start n overlap_chars (window_end n max_chars start)).
  clear IH. induction fuel as [|fuel IH]; intros s Hin Hadv; [destruct Hin|].
  simpl in Hin. destruct (Z.ltb_spec s n) as [Hs'|Hs']; [|destruct Hin].
  destruct Hin as [<-|Hin]; [simpl; lia|].
  pose proof (next_start_advances _ _ Hs'). eapply IH; [exact Hin | lia].
Qed.
End ChunkLoop.

Section ChunkBlocks.
Import Ingest.

Variables (max_chars overlap_chars : Z).
Hypothesis overlap_lt_max : overlap_chars < max_chars.

Lemma chunk_of_whole (block : DataBlock) :
  chunk_of block (0, slen (text block)) = block.
Proof. destruct block as [t p b]. unfold chunk_of. simpl. now rewrite py_slice_all. Qed.

Lemma chunk_block_windows (block : DataBlock) (fuel : nat) :
  (String.length (text block) < fuel)%nat ->
  chunk_block fuel block max_chars overlap_chars =
    Some (map (chunk_of block) (block_windows fuel block max_chars overlap_chars)).
Proof.
  intros Hfuel. unfold chunk_block, block_windows.
  destruct (Z.leb_spec (slen (text block)) max_chars).
  - simpl. now rewrite chunk_of_whole.
  - apply chunk_loop_windows; [assumption|]. unfold slen. lia.
Qed.

Lemma fuel_for_cons (block : DataBlock) (blocks : list DataBlock) (fuel : nat) :
  (fuel_for (block :: blocks) <= fuel)%nat ->
  (String.length (text block) < fuel)%nat /\ (fuel_for blocks <= fuel)%nat.
Proof. unfold fuel_for. simpl. lia. Qed.

Lemma fuel_for_In (block : DataBlock) (blocks : list DataBlock) :
  In block blocks -> (String.length (text block) < fuel_for blocks)%nat.
Proof.
  induction blocks as [|b bs IH]; intros Hin; [destruct Hin|].
  unfold fuel_for in *. simpl. destruct Hin as [->|Hin]; [lia|].
  specialize (IH Hin). lia.
Qed.

(** The output is the concatenation, in input order, of the chunks of each
    block. *)
Lemma chunk_text_blocks_groups (blocks : list DataBlock) (fuel : nat) :
  (fuel_for blocks <= fuel)%nat ->
  chunk_text_blocks fuel blocks max_chars overlap_chars =
    Some (concat (map (fun b => map (chunk_of b)
                                 (block_windows fuel b max_chars overlap_chars))
                    blocks)).
Proof.
  induction blocks as [|b bs IH]; intros Hfuel; [reflexivity|].
  apply fuel_for_cons in Hfuel as [Hb Hbs].
  simpl. rewrite chunk_block_windows by assumption.
  now rewrite IH by assumption.
Qed.

Lemma block_windows_fuel (block : DataBlock) (fuel fuel' : nat) :
  (String.length (text block) < fuel)%nat ->
  (String.length (text block) < fuel')%nat ->
  block_windows fuel block max_chars overlap_chars =
  block_windows fuel' block max_chars overlap_chars.
Proof.
  intros H1 H2. unfold block_windows.
  destruct (Z.leb_spec (slen (text block)) max_chars); [reflexivity|].
  apply windows_fuel; [assumption | unfold slen; lia | unfold slen; lia].
Qed.

(** Once the fuel suffices, the result no longer depends on it. *)
Lemma chunk_text_blocks_fuel (blocks : list DataBlock) (fuel : nat) :
  (fuel_for blocks <= fuel)%nat ->
  chunk_text_blocks fuel blocks max_chars overlap_chars =
  chunk_text_blocks (fuel_for blocks) blocks max_chars overlap_chars.
Proof.
  intros Hfuel. rewrite !chunk_text_blocks_groups by (assumption || lia).
  f_equal. f_equal. apply map_ext_in. intros b Hin. f_equal.
  pose proof (fuel_for_In _ _ Hin).
  apply block_windows_fuel; lia.
Qed.

(** Windows of any block are inside its text and at most [max_chars] wide. *)
Lemma block_windows_bounds (block : DataBlock) (fuel : nat) (w : Z * Z) :
  0 <= max_chars ->
  In w (block_windows fuel block max_chars overlap_chars) ->
  0 <= fst w <= snd w /\ snd w <= slen (text block) /\ snd w - fst w <= max_chars.
Proof.
  intros Hmax. unfold block_windows.
  pose proof (slen_nonneg (text block)).
  destruct (Z.leb_spec (slen (text block)) max_chars); intros Hin.
  - destruct Hin as [<-|[]]. simpl. lia.
  - apply windows_bounds in Hin; [lia | assumption | assumption | lia].
Qed.

Lemma chunk_of_length (block : DataBlock) (fuel : nat) (w : Z * Z) :
  0 <= max_chars ->
  In w (block_windows fuel block max_chars overlap_chars) ->
  slen (text (chunk_of block w)) = snd w - fst w.
Proof.
  intros Hmax Hin. apply block_windows_bounds in Hin; [|assumption].
  unfold chunk_of. simpl. apply slen_py_slice; lia.
Qed.

Lemma fuel_for_app (l1 l2 : list DataBlock) :
  fuel_for (l1 ++ l2) = Nat.max (fuel_for l1) (fuel_for l2).
Proof.
  unfold fuel_for. induction l1 as [|b l1 IH]; simpl in *; [lia|]. lia.
Qed.

(** The chunks of a list that is put together from two are the chunks of
    the first followed by the chunks of the second. *)
Lemma chunk_text_blocks_app (l1 l2 : list DataBlock) (fuel : nat) :
  chunk_text_blocks fuel (l1 ++ l2) max_chars overlap_chars =
    match chunk_text_blocks fuel l1 max_chars overlap_chars,
          chunk_text_blocks fuel l2 max_chars overlap_chars with
    | Some out1, Some out2 => Some (out1 ++ out2)
    | _, _ => None
    end.
Proof.
  induction l1 as [|b l1 IH]; simpl.
  - destruct (chunk_text_blocks fuel l2 max_chars overlap_chars); reflexivity.
  - destruct (chunk_block fuel b max_chars overlap_chars) as [cs|]; [|reflexivity].
    rewrite IH.
    destruct (chunk_text_blocks fuel l1 max_chars overlap_chars) as [out1|]; [|reflexivity].
    destruct (chunk_text_blocks fuel l2 max_chars overlap_chars) as [out2|]; [|reflexivity].
    now rewrite app_assoc.
Qed.

(** A block inside a list: the output for the list is the output for the
    blocks before it, then the chunks of the block, the same as when it is
    chunked alone, then the output for the blocks after it. *)
Lemma chunk_text_blocks_context (before after : list DataBlock) (block : DataBlock)
    (fuel : nat) :
  (fuel_for (before ++ block :: after) <= fuel)%nat ->
  (fuel_for [block] <= fuel)%nat /\
  exists out_before chunks out_after,
    chunk_text_blocks fuel (before ++ block :: after) max_chars overlap_chars
      = Some (out_before ++ chunks ++ out_after) /\
    chunk_text_blocks fuel before max_chars overlap_chars = Some out_before /\
    chunk_text_blocks fuel [block] max_chars overlap_chars = Some chunks /\
    chunk_text_blocks fuel after max_chars overlap_chars = Some out_after.
Proof.
  intros Hfuel.
  change (block :: after) with ([block] ++ after) in Hfuel.
  rewrite !fuel_for_app in Hfuel.
  split; [lia|].
  change (block :: after) with ([block] ++ after).
  rewrite !chunk_text_blocks_app.
  rewrite (chunk_text_blocks_groups before fuel) by lia.
  rewrite (chunk_text_blocks_groups [block] fuel) by lia.
  rewrite (chunk_text_blocks_groups after fuel) by lia.
  eexists _, _, _. repeat split; reflexivity.
Qed.
End ChunkBlocks.

(** ** The sliding window under a non-negative overlap *)

Section SlidingWindow.
Import Ingest.

Variables (max_chars overlap_chars : Z).
Hypothesis overlap_range : 0 <= overlap_chars < max_chars.

(** Two windows that follow each other: the first is full width and not
    at the end of the text, the second starts [overlap_chars] before the
    end of the first and ends at or after it. *)
Lemma windows_adjacent (n : Z) (fuel : nat) (start : Z) (i : nat)
    (s e s' e' : Z) :
  let ws := windows fuel n max_chars overlap_chars start in
  ws !! i = Some (s, e) -> ws !! S i = Some (s', e') ->
  e = s + max_chars /\ s' = s + (max_chars - overlap_chars) /\
  s' = e - overlap_chars /\ e < n /\ e <= e'.
Proof.
  simpl. revert start i. induction fuel as [|fuel IH]; intros start i Hi Hi'; [discriminate|].
  simpl in Hi, Hi'. destruct (Z.ltb_spec start n) as [Hs|Hs]; [|discriminate].
  destruct i as [|i]; [|eapply IH; eassumption].
  simpl in Hi, Hi'. injection Hi as <- <-.
  destruct fuel as [|fuel]; [discriminate|]. simpl in Hi'.
  unfold next_start, window_end in *.
  destruct (Z.ltb_spec (Z.min (start + max_chars) n) n) as [He|He].
  - destruct (Z.ltb_spec (Z.min (start + max_chars) n - overlap_chars) n); [|discriminate].
    simpl in Hi'. injection Hi' as <- <-. lia.
  - destruct (Z.ltb_spec (Z.min (start + max_chars) n) n); [lia | discriminate].
Qed.

(** The last window ends at the end of the text. *)
Lemma windows_last (n : Z) (fuel : nat) (start : Z) :
  start < n -> (Z.to_nat (n - start) < fuel)%nat ->
  exists s, last (windows fuel n max_chars overlap_chars start) = Some (s, n).
Proof.
  revert start. induction fuel as [|fuel IH]; intros start Hs Hfuel; [lia|].
  rewrite windows_step by assumption.
  pose proof (next_start_advances max_chars overlap_chars ltac:(lia) _ _ Hs) as Hadv.
  set (nxt := next_start n overlap_chars (window_end n max_chars start)) in *.
  destruct (Z.lt_ge_cases nxt n) as [Hn|Hn].
  - destruct (IH nxt Hn ltac:(lia)) as (s & Hlast).
    exists s. rewrite last_cons, Hlast. reflexivity.
  - rewrite windows_done by assumption. exists start. simpl. f_equal. f_equal.
    subst nxt. unfold next_start, window_end in *.
    destruct (Z.ltb_spec (Z.min (start + max_chars) n) n); lia.
Qed.

(** Every position from the loop's start to the end of the text is inside
    a window. *)
Lemma windows_cover (n : Z) (fuel : nat) (start p : Z) :
  start <= p < n -> (Z.to_nat (n - start) < fuel)%nat ->
  exists w, In w (windows fuel n max_chars overlap_chars start) /\ fst w <= p < snd w.
Proof.
  revert start. induction fuel as [|fuel IH]; intros start Hp Hfuel; [lia|].
  rewrite windows_step by lia.
  pose proof (next_start_advances max_chars overlap_chars ltac:(lia) n start ltac:(lia)) as Hadv.
  destruct (Z.lt_ge_cases p (window_end n max_chars start)) as [Hin|Hout].
  - exists (start, window_end n max_chars start). split; [now left | simpl; lia].
  - destruct (IH (next_start n overlap_chars (window_end n max_chars start)))
      as (w & Hw & Hpw).
    + unfold next_start, window_end in *.
      destruct (Z.ltb_spec (Z.min (start + max_chars) n) n); lia.
    + lia.
    + exists w. split; [now right | assumption].
Qed.

Lemma windows_head (n : Z) (fuel : nat) (start : Z) :
  start < n -> (0 < fuel)%nat ->
  exists rest, windows fuel n max_chars overlap_chars start
               = (start, window_end n max_chars start) :: rest.
Proof.
  intros Hs Hfuel. destruct fuel as [|fuel]; [lia|].
  rewrite windows_step by assumption. eauto.
Qed.
End SlidingWindow.

(** ** Chunker: length bound and pass-through *)

Section ChunkerResults.
Import Ingest.

(** C6 (amended).  For every block list and parameters with
    [overlap_chars < max_chars] and [0 <= max_chars], the chunker returns,
    every returned chunk has text length at most [max_chars], and every
    input block whose text length is at most [max_chars] is in the output
    unchanged: the identical block, not a rewrapped copy, for it is the
    input value itself that is a member of the output; when all blocks are
    within the limit the output is the input. *)
Theorem chunk_text_blocks_bounded (blocks : list DataBlock)
    (max_chars overlap_chars : Z) :
  overlap_chars < max_chars -> 0 <= max_chars ->
  exists out,
    (forall fuel, (fuel_for blocks <= fuel)%nat ->
       chunk_text_blocks fuel blocks max_chars overlap_chars = Some out) /\
    List.Forall (fun c => slen (text c) <= max_chars) out /\
    (forall b, In b blocks -> slen (text b) <= max_chars -> In b out) /\
    (List.Forall (fun b => slen (text b) <= max_chars) blocks -> out = blocks).
Proof.
  intros Hov Hmax.
  set (groups := map (fun b => map (chunk_of b)
                    (block_windows (fuel_for blocks) b max_chars overlap_chars)) blocks).
  exists (concat groups). repeat split.
  - intros fuel Hfuel. rewrite chunk_text_blocks_fuel by assumption.
    apply chunk_text_blocks_groups; [assumption | lia].
  - apply List.Forall_forall. intros c Hc.
    apply in_concat in Hc as (g & Hg & Hc). subst groups.
    apply in_map_iff in Hg as (b & <- & Hb).
    apply in_map_iff in Hc as (w & <- & Hw).
    erewrite chunk_of_length by eassumption.
    eapply block_windows_bounds in Hw; [lia | eassumption | assumption].
  - intros b Hb Hsmall. apply in_concat.
    exists (map (chunk_of b) (block_windows (fuel_for blocks) b max_chars overlap_chars)).
    split; [subst groups; apply in_map_iff; eauto|].
    unfold block_windows. destruct (Z.leb_spec (slen (text b)) max_chars); [|lia].
    simpl. left. apply chunk_of_whole.
  - intros Hall. subst groups. generalize (fuel_for blocks). intros fuel.
    induction Hall as [|b bs Hb Hbs IH]; [reflexivity|].
    simpl. rewrite IH. unfold block_windows at 1.
    destruct (Z.leb_spec (slen (text b)) max_chars); [|lia].
    simpl. now rewrite chunk_of_whole.
Qed.

Lemma chunk_text_blocks_bounded_witness :
  exists out,
    (forall fuel, (fuel_for [Samples.ten_letters; Samples.two_letters] <= fuel)%nat ->
       chunk_text_blocks fuel [Samples.ten_letters; Samples.two_letters] 5 2 = Some out) /\
    List.Forall (fun c => slen (text c) <= 5) out /\
    (forall b, In b [Samples.ten_letters; Samples.two_letters] ->
       slen (text b) <= 5 -> In b out) /\
    (List.Forall (fun b => slen (text b) <= 5)
       [Samples.ten_letters; Samples.two_letters] ->
     out = [Samples.ten_letters; Samples.two_letters]).
Proof.
  apply (chunk_text_blocks_bounded [Samples.ten_letters; Samples.two_letters] 5 2); lia.
Defined.

(** C6 as stated fails for a negative [max_chars]: with [max_chars = -1]
    and [overlap_chars = -2] the first slice of ["abc"] is [text[0:-1]],
    two characters long. *)
Lemma chunk_text_blocks_negative_max :
  -2 < -1 /\
  chunk_text_blocks (fuel_for [Samples.three_letters]) [Samples.three_letters] (-1) (-2)
    = Some [Samples.block_on_page_1 "ab"; Samples.block_on_page_1 "";
            Samples.block_on_page_1 ""] /\
  ~ List.Forall (fun c => slen (text c) <= -1)
      [Samples.block_on_page_1 "ab"; Samples.block_on_page_1 "";
       Samples.block_on_page_1 ""].
Proof.
  split; [lia|]. split; [reflexivity|].
  intros H. inversion H as [|c cs Hc _]. subst. vm_compute in Hc. apply Hc. reflexivity.
Qed.

(** C8.  Under [0 <= overlap_chars < max_chars] and [1 <= max_chars] each
    iteration of the sliding-window loop moves the window start strictly
    forward, the loop over a text of length [n] started at [start] is over
    after at most [n - start] iterations, and [chunk_text_blocks] returns
    on every block list. *)
Theorem chunk_text_blocks_terminates (blocks : list DataBlock)
    (max_chars overlap_chars : Z) :
  0 <= overlap_chars < max_chars -> 1 <= max_chars ->
  (forall n start, start < n ->
     start < next_start n overlap_chars (window_end n max_chars start)) /\
  (forall block start fuel,
     (Z.to_nat (slen (text block) - start) < fuel)%nat ->
     exists chunks,
       chunk_loop fuel block max_chars overlap_chars start = Some chunks /\
       (List.length chunks <= Z.to_nat (slen (text block) - start))%nat) /\
  exists out, forall fuel, (fuel_for blocks <= fuel)%nat ->
    chunk_text_blocks fuel blocks max_chars overlap_chars = Some out.
Proof.
  intros Hov Hmax. split; [|split].
  - intros n start. apply next_start_advances. lia.
  - intros block start fuel. revert start.
    induction fuel as [|fuel IH]; intros start Hfuel; [lia|].
    simpl. destruct (Z.ltb_spec start (slen (text block))) as [Hs|Hs].
    + pose proof (next_start_advances max_chars overlap_chars ltac:(lia) _ _ Hs) as Hadv.
      destruct (IH (next_start (slen (text block)) overlap_chars
                      (window_end (slen (text block)) max_chars start)))
        as (rest & -> & Hlen); [lia|].
      eexists. split; [reflexivity|]. simpl. lia.
    + exists []. split; [reflexivity|]. simpl. lia.
  - exists (concat (map (fun b => map (chunk_of b)
              (block_windows (fuel_for blocks) b max_chars overlap_chars)) blocks)).
    intros fuel Hfuel. rewrite chunk_text_blocks_fuel by (assumption || lia).
    apply chunk_text_blocks_groups; lia.
Qed.

Lemma chunk_text_blocks_terminates_witness :
  (forall n start, start < n -> start < next_start n 50 (window_end n 500 start)) /\
  (forall block start fuel,
     (Z.to_nat (slen (text block) - start) < fuel)%nat ->
     exists chunks,
       chunk_loop fuel block 500 50 start = Some chunks /\
       (List.length chunks <= Z.to_nat (slen (text block) - start))%nat) /\
  exists out, forall fuel, (fuel_for [Samples.ten_letters] <= fuel)%nat ->
    chunk_text_blocks fuel [Samples.ten_letters] 500 50 = Some out.
Proof. apply (chunk_text_blocks_terminates [Samples.ten_letters] 500 50); lia. Defined.
End ChunkerResults.

(** ** Chunker: the sliding window over an oversized block *)

Section ChunkerWindow.
Import Ingest.

Lemma lookup_In {A : Type} (l : list A) (i : nat) (x : A) :
  l !! i = Some x -> In x l.
Proof. intros H. apply list_elem_of_In. eapply list_elem_of_lookup_2, H. Qed.

(** The sliding window over one oversized block, chunked alone. *)
Lemma sliding_window_of_block (block : DataBlock)
    (max_chars overlap_chars : Z) (fuel : nat) :
  0 <= overlap_chars < max_chars ->
  max_chars < slen (text block) ->
  (fuel_for [block] <= fuel)%nat ->
  exists ws : list (Z * Z),
    chunk_text_blocks fuel [block] max_chars overlap_chars
      = Some (map (chunk_of block) ws) /\
    (exists rest, ws = (0, max_chars) :: rest) /\
    (forall i s e s' e',
       ws !! i = Some (s, e) -> ws !! S i = Some (s', e') ->
       s' = s + (max_chars - overlap_chars) /\ e = s + max_chars /\
       s' = e - overlap_chars /\ e <= e' /\
       let c := chunk_of block (s, e) in
       let c' := chunk_of block (s', e') in
       py_slice (text c) (slen (text c) - overlap_chars) (slen (text c))
         = py_slice (text c') 0 overlap_chars /\
       slen (py_slice (text c') 0 overlap_chars) = overlap_chars) /\
    (exists s, last ws = Some (s, slen (text block))) /\
    (forall w, In w ws ->
       0 <= fst w < snd w /\ snd w <= slen (text block) /\
       snd w - fst w <= max_chars) /\
    (forall c, In c (map (chunk_of block) ws) ->
       page c = page block /\ bbox c = bbox block).
Proof.
  intros Hov Hlong Hfuel.
  assert (Hlt : overlap_chars < max_chars) by lia.
  assert (Hf : (Z.to_nat (slen (text block) - 0) < fuel)%nat).
  { unfold fuel_for in Hfuel. simpl in Hfuel. unfold slen. lia. }
  set (n := slen (text block)) in *.
  set (ws := windows fuel n max_chars overlap_chars 0).
  assert (Hbounds : forall w, In w ws ->
            0 <= fst w < snd w /\ snd w <= n /\ snd w - fst w <= max_chars).
  { intros w Hw. pose proof Hw as Hw'.
    apply windows_bounds in Hw; [|lia..].
    destruct Hw as (H0 & Hn & He & Hwd). repeat split; try lia.
    (* a window is not empty: its start is inside the text and max_chars >= 1 *)
    clear - Hw' Hov. subst ws. revert Hw'. generalize 0 at 1.
    induction fuel as [|fuel' IH]; intros start Hin; [destruct Hin|].
    simpl in Hin. destruct (Z.ltb_spec start n); [|destruct Hin].
    destruct Hin as [<-|Hin]; [simpl; unfold window_end; lia|]. eapply IH, Hin. }
  exists ws. split; [|split; [|split; [|split; [|split]]]].
  - rewrite (chunk_text_blocks_groups max_chars overlap_chars Hlt [block] fuel Hfuel).
    cbn [List.map concat]. rewrite app_nil_r. unfold block_windows. fold n.
    destruct (Z.leb_spec n max_chars); [lia | reflexivity].
  - destruct (windows_head max_chars overlap_chars n fuel 0) as (rest & Hrest); [lia..|].
    exists rest. subst ws. rewrite Hrest. unfold window_end. repeat f_equal. lia.
  - intros i s e s' e' Hi Hi'.
    destruct (windows_adjacent max_chars overlap_chars Hov n fuel 0 i s e s' e' Hi Hi')
      as (He & Hs' & Hs'' & Hen & Hee).
    pose proof (Hbounds _ (lookup_In _ _ _ Hi)) as Hb. simpl in Hb.
    pose proof (Hbounds _ (lookup_In _ _ _ Hi')) as Hb'. simpl in Hb'.
    repeat split; try lia.
    + simpl. rewrite !slen_py_slice by (fold n; lia).
      rewrite !py_slice_py_slice by (fold n; lia).
      f_equal; lia.
    + simpl. rewrite py_slice_py_slice by (fold n; lia).
      rewrite slen_py_slice; fold n; lia.
  - apply windows_last; [lia.. | assumption].
  - exact Hbounds.
  - intros c Hc. apply in_map_iff in Hc as (w & <- & _). split; reflexivity.
Qed.

(** C7 (amended).  For every block of the input whose text length [L]
    exceeds [max_chars], with [0 <= overlap_chars < max_chars], whatever
    blocks come before and after it: the chunker's output is the output
    for the blocks before, then the chunks of the block, then the output
    for the blocks after, and the chunks of the block are cut along a list
    of windows: the first starts at 0; each next window starts
    [max_chars - overlap_chars] after the previous start, the previous one
    being [max_chars] wide; the last [overlap_chars] characters of a chunk
    are the first [overlap_chars] characters of the next one; the last
    window ends at [L]; every chunk has the page and bbox of the block. *)
Theorem chunk_text_blocks_sliding_window (before after : list DataBlock)
    (block : DataBlock) (max_chars overlap_chars : Z) (fuel : nat) :
  0 <= overlap_chars < max_chars ->
  max_chars < slen (text block) ->
  (fuel_for (before ++ block :: after) <= fuel)%nat ->
  exists (ws : list (Z * Z)) (out_before out_after : list DataBlock),
    chunk_text_blocks fuel (before ++ block :: after) max_chars overlap_chars
      = Some (out_before ++ map (chunk_of block) ws ++ out_after) /\
    chunk_text_blocks fuel before max_chars overlap_chars = Some out_before /\
    chunk_text_blocks fuel after max_chars overlap_chars = Some out_after /\
    (exists rest, ws = (0, max_chars) :: rest) /\
    (forall i s e s' e',
       ws !! i = Some (s, e) -> ws !! S i = Some (s', e') ->
       s' = s + (max_chars - overlap_chars) /\ e = s + max_chars /\
       s' = e - overlap_chars /\ e <= e' /\
       let c := chunk_of block (s, e) in
       let c' := chunk_of block (s', e') in
       py_slice (text c) (slen (text c) - overlap_chars) (slen (text c))
         = py_slice (text c') 0 overlap_chars /\
       slen (py_slice (text c') 0 overlap_chars) = overlap_chars) /\
    (exists s, last ws = Some (s, slen (text block))) /\
    (forall w, In w ws ->
       0 <= fst w < snd w /\ snd w <= slen (text block) /\
       snd w - fst w <= max_chars) /\
    (forall c, In c (map (chunk_of block) ws) ->
       page c = page block /\ bbox c = bbox block).
Proof.
  intros Hov Hlong Hfuel.
  destruct (chunk_text_blocks_context max_chars overlap_chars ltac:(lia)
              before after block fuel Hfuel)
    as (Hone & out_before & chunks & out_after & Hall & Hbefore & Hblock & Hafter).
  destruct (sliding_window_of_block block max_chars overlap_chars fuel Hov Hlong Hone)
    as (ws & Hws & Hfacts).
  rewrite Hblock in Hws. inversion Hws; subst chunks.
  exists ws, out_before, out_after.
  split; [exact Hall|]. split; [exact Hbefore|]. split; [exact Hafter | exact Hfacts].
Qed.

Lemma chunk_text_blocks_sliding_window_witness :
  exists (ws : list (Z * Z)) (out_before out_after : list DataBlock),
    chunk_text_blocks 11 ([Samples.two_letters] ++ Samples.ten_letters
                            :: [Samples.three_letters]) 5 2
      = Some (out_before ++ map (chunk_of Samples.ten_letters) ws ++ out_after) /\
    chunk_text_blocks 11 [Samples.two_letters] 5 2 = Some out_before /\
    chunk_text_blocks 11 [Samples.three_letters] 5 2 = Some out_after /\
    (exists rest, ws = (0, 5) :: rest) /\
    (forall i s e s' e',
       ws !! i = Some (s, e) -> ws !! S i = Some (s', e') ->
       s' = s + (5 - 2) /\ e = s + 5 /\ s' = e - 2 /\ e <= e' /\
       let c := chunk_of Samples.ten_letters (s, e) in
       let c' := chunk_of Samples.ten_letters (s', e') in
       py_slice (text c) (slen (text c) - 2) (slen (text c))
         = py_slice (text c') 0 2 /\
       slen (py_slice (text c') 0 2) = 2) /\
    (exists s, last ws = Some (s, slen (text Samples.ten_letters))) /\
    (forall w, In w ws ->
       0 <= fst w < snd w /\ snd w <= slen (text Samples.ten_letters) /\
       snd w - fst w <= 5) /\
    (forall c, In c (map (chunk_of Samples.ten_letters) ws) ->
       page c = page Samples.ten_letters /\ bbox c = bbox Samples.ten_letters).
Proof.
  apply (chunk_text_blocks_sliding_window [Samples.two_letters] [Samples.three_letters]
           Samples.ten_letters 5 2 11).
  - lia.
  - vm_compute. reflexivity.
  - vm_compute. lia.
Defined.

(** C7 as stated fails for a negative [overlap_chars]: with
    [max_chars = 4] and [overlap_chars = -7] the only slice of a
    ten-character text is [text[0:4]], which ends at 4, not at 10. *)
Lemma chunk_text_blocks_negative_overlap_stops_short :
  -7 < 4 /\ 4 < slen (text Samples.ten_letters) /\
  slen (text Samples.ten_letters) = 10 /\
  chunk_text_blocks (fuel_for [Samples.ten_letters]) [Samples.ten_letters] 4 (-7)
    = Some (map (chunk_of Samples.ten_letters) [(0, 4)]) /\
  windows (fuel_for [Samples.ten_letters]) 10 4 (-7) 0 = [(0, 4)] /\
  last [(0, 4)] <> Some (0, 10).
Proof. repeat split; try reflexivity; try lia; discriminate. Qed.
End ChunkerWindow.

(** ** Chunker: coverage and grouping *)

Section ChunkerCoverage.
Import Ingest.

Lemma Forall2_map_r {A B : Type} (P : A -> B -> Prop) (f : A -> B) (l : list A) :
  (forall x, In x l -> P x (f x)) -> List.Forall2 P l (map f l).
Proof.
  induction l as [|x l IH]; intros H; simpl; constructor.
  - apply H. now left.
  - apply IH. intros y Hy. apply H. now right.
Qed.

(** C10 (amended).  With [0 <= overlap_chars < max_chars], the output is
    the concatenation, in input order, of one group of chunks per input
    block; the chunks of a group are cut from the block by windows whose
    starts increase strictly from left to right, and every character
    position of the block's text lies in one of these windows, where the
    chunk holds the same character. *)
Theorem chunk_text_blocks_covers (blocks : list DataBlock)
    (max_chars overlap_chars : Z) :
  0 <= overlap_chars < max_chars ->
  exists groups : list (list DataBlock),
    (forall fuel, (fuel_for blocks <= fuel)%nat ->
       chunk_text_blocks fuel blocks max_chars overlap_chars
         = Some (concat groups)) /\
    List.Forall2
      (fun b g => exists ws : list (Z * Z),
         g = map (chunk_of b) ws /\
         StronglySorted (fun w w' => fst w < fst w') ws /\
         (forall w, In w ws -> 0 <= fst w <= snd w /\ snd w <= slen (text b)) /\
         (forall p, 0 <= p < slen (text b) ->
            exists w, In w ws /\ fst w <= p < snd w /\
              String.get (Z.to_nat (p - fst w)) (text (chunk_of b w))
                = String.get (Z.to_nat p) (text b)))
      blocks groups.
Proof.
  intros Hov. assert (Hlt : overlap_chars < max_chars) by lia.
  set (ws_of := fun b => block_windows (fuel_for blocks) b max_chars overlap_chars).
  exists (map (fun b => map (chunk_of b) (ws_of b)) blocks). split.
  - intros fuel Hfuel. rewrite chunk_text_blocks_fuel by assumption.
    apply chunk_text_blocks_groups; [assumption | lia].
  - apply Forall2_map_r. intros b Hb. exists (ws_of b).
    pose proof (fuel_for_In _ _ Hb) as Hfuel.
    assert (Hbounds : forall w, In w (ws_of b) ->
              0 <= fst w <= snd w /\ snd w <= slen (text b)).
    { intros w Hw. apply block_windows_bounds in Hw; [lia | lia | lia]. }
    split; [reflexivity|]. split; [|split; [exact Hbounds|]].
    + subst ws_of. cbv beta. unfold block_windows.
      destruct (Z.leb_spec (slen (text b)) max_chars).
      * repeat constructor.
      * now apply windows_sorted.
    + intros p Hp.
      assert (Hex : exists w, In w (ws_of b) /\ fst w <= p < snd w).
      { subst ws_of. cbv beta. unfold block_windows.
        destruct (Z.leb_spec (slen (text b)) max_chars).
        - exists (0, slen (text b)). split; [now left | simpl; lia].
        - apply windows_cover; [lia | lia |]. unfold slen in *. lia. }
      destruct Hex as (w & Hw & Hpw). exists w. repeat split; try assumption; try lia.
      pose proof (Hbounds w Hw). unfold chunk_of. simpl.
      apply get_py_slice; lia.
Qed.

Lemma chunk_text_blocks_covers_witness :
  exists groups : list (list DataBlock),
    (forall fuel, (fuel_for [Samples.ten_letters; Samples.two_letters] <= fuel)%nat ->
       chunk_text_blocks fuel [Samples.ten_letters; Samples.two_letters] 5 2
         = Some (concat groups)) /\
    List.Forall2
      (fun b g => exists ws : list (Z * Z),
         g = map (chunk_of b) ws /\
         StronglySorted (fun w w' => fst w < fst w') ws /\
         (forall w, In w ws -> 0 <= fst w <= snd w /\ snd w <= slen (text b)) /\
         (forall p, 0 <= p < slen (text b) ->
            exists w, In w ws /\ fst w <= p < snd w /\
              String.get (Z.to_nat (p - fst w)) (text (chunk_of b w))
                = String.get (Z.to_nat p) (text b)))
      [Samples.ten_letters; Samples.two_letters] groups.
Proof.
  apply (chunk_text_blocks_covers [Samples.ten_letters; Samples.two_letters] 5 2). lia.
Defined.

Lemma chunk_loop_stuck (fuel : nat) :
  chunk_loop fuel Samples.ten_letters 4 4 0 = None.
Proof.
  induction fuel as [|fuel IH]; [reflexivity|].
  change (chunk_loop (S fuel) Samples.ten_letters 4 4 0)
    with (match chunk_loop fuel Samples.ten_letters 4 4 0 with
          | Some rest => Some (chunk_of Samples.ten_letters (0, 4) :: rest)
          | None => None
          end).
  now rewrite IH.
Qed.

(** C10 as stated, for all parameters, fails twice over.  With
    [max_chars = 4] and [overlap_chars = -7] the only chunk of
    ["abcdefghij"] is ["abcd"]: the character at position 5 is in no
    chunk.  With [overlap_chars = max_chars = 4] the window start never
    moves and no amount of fuel yields an output. *)
Lemma chunk_text_blocks_drops_text :
  (chunk_text_blocks (fuel_for [Samples.ten_letters]) [Samples.ten_letters] 4 (-7)
     = Some [Samples.block_on_page_1 "abcd"] /\
   String.get 5 (text Samples.ten_letters) = Some "f"%char /\
   forall c i, In c [Samples.block_on_page_1 "abcd"] ->
     String.get i (text c) <> Some "f"%char) /\
  (forall fuel, chunk_text_blocks fuel [Samples.ten_letters] 4 4 = None).
Proof.
  split; [split; [reflexivity | split; [reflexivity|]]|].
  - intros c i [<-|[]]. simpl.
    do 4 (destruct i as [|i]; [discriminate|]). discriminate.
  - intros fuel. simpl. unfold chunk_block.
    change (slen (text Samples.ten_letters) <=? 4) with false. cbv iota.
    now rewrite chunk_loop_stuck.
Qed.
End ChunkerCoverage.


(** ** Vector index: ranking and the records a call adds *)

Section IndexFacts.
Import Ingest VectorStore.

Variable distance : Embedding -> Embedding -> Q.

Lemma In_insert_by_distance (q : Embedding) (r x : VectorRecord) (l : list VectorRecord) :
  In x (insert_by_distance distance q r l) <-> x = r \/ In x l.
Proof.
  induction l as [|r' l IH]; simpl.
  - intuition congruence.
  - destruct (Qle_bool _ _); simpl; [intuition congruence|].
    rewrite IH. intuition congruence.
Qed.

(** Ranking reorders a collection and neither drops nor invents records. *)
Lemma In_rank (q : Embedding) (c : Collection) (x : VectorRecord) :
  In x (rank distance q c) <-> In x c.
Proof.
  unfold rank. induction c as [|r c IH]; simpl; [reflexivity|].
  rewrite In_insert_by_distance, IH. intuition congruence.
Qed.

Lemma length_insert_by_distance (q : Embedding) (r : VectorRecord) (l : list VectorRecord) :
  List.length (insert_by_distance distance q r l) = S (List.length l).
Proof.
  induction l as [|r' l IH]; simpl; [reflexivity|].
  destruct (Qle_bool _ _); simpl; [reflexivity | now rewrite IH].
Qed.

Lemma length_rank (q : Embedding) (c : Collection) :
  List.length (rank distance q c) = List.length c.
Proof.
  unfold rank. induction c as [|r c IH]; simpl; [reflexivity|].
  now rewrite length_insert_by_distance, IH.
Qed.

(** Every formatted result comes from a record of the session's collection;
    its text is that record's document. *)
Lemma query_results (session_id : string) (q : Embedding) (top_k : Z)
    (st : Store) (results : list QueryResult) (r : QueryResult) :
  query distance session_id q top_k st = Returned results ->
  In r results ->
  exists i rec, In rec (records_of_session session_id st) /\
                r = format_result distance q i rec.
Proof.
  unfold query, records_of_session. destruct (get_collection session_id st) as [c|].
  - unfold collection_query. destruct (top_k <=? 0); [discriminate|].
    destruct (check_embeddings c [q]); [discriminate|].
    intros [= <-] Hin. apply list_elem_of_In, elem_of_lookup_imap in Hin
      as (i & rec & -> & Hlook).
    exists i, rec. split; [|reflexivity]. cbn [default].
    apply (In_rank q c rec).
    apply list_elem_of_lookup_2, elem_of_take in Hlook as (j & Hj & _).
    eapply lookup_In, Hj.
  - intros [= <-] [].
Qed.
End IndexFacts.

Section AddFacts.
Import Ingest VectorStore.

Lemma records_from_lookup (blocks : list DataBlock) (embeddings : list Embedding)
    (i j : nat) (r : VectorRecord) :
  records_from i blocks embeddings !! j = Some r <->
  exists b e, blocks !! j = Some b /\ embeddings !! j = Some e /\
              r = record_of (i + j) b e.
Proof.
  revert embeddings i j. induction blocks as [|b bs IH]; intros es i j.
  - simpl. split; [discriminate | intros (b & e & Hb & _); discriminate].
  - destruct es as [|e es].
    + simpl. split; [discriminate | intros (b' & e' & _ & He & _); discriminate].
    + destruct j as [|j]; simpl.
      * rewrite Nat.add_0_r. split.
        -- intros [= <-]. eauto.
        -- intros (b' & e' & [= <-] & [= <-] & ->). reflexivity.
      * rewrite IH. replace (S i + j)%nat with (i + S j)%nat by lia. reflexivity.
Qed.

Lemma length_records_from (blocks : list DataBlock) (embeddings : list Embedding) (i : nat) :
  List.length blocks = List.length embeddings ->
  List.length (records_from i blocks embeddings) = List.length blocks.
Proof.
  revert embeddings i. induction blocks as [|b bs IH]; intros [|e es] i Hlen;
    simpl in *; try lia. now rewrite IH by lia.
Qed.

Lemma records_from_In (blocks : list DataBlock) (embeddings : list Embedding)
    (r : VectorRecord) :
  In r (records_from 0 blocks embeddings) ->
  exists j b e, blocks !! j = Some b /\ embeddings !! j = Some e /\ r = record_of j b e.
Proof.
  intros Hin. apply list_elem_of_In, list_elem_of_lookup_1 in Hin as (j & Hj).
  apply records_from_lookup in Hj as (b & e & Hb & He & ->). eauto 6.
Qed.

Lemma records_from_embeddings (blocks : list DataBlock) (embeddings : list Embedding)
    (i : nat) :
  List.length blocks = List.length embeddings ->
  map rec_embedding (records_from i blocks embeddings) = embeddings.
Proof.
  revert embeddings i. induction blocks as [|b bs IH]; intros [|e es] i Hlen;
    simpl in *; try lia; [reflexivity|]. now rewrite IH by lia.
Qed.


(** Vectors of one dimension other than zero pass the client's checks on a
    collection of that dimension or without one. *)
Lemma check_embeddings_None (c : Collection) (vectors : list Embedding) (dim : nat) :
  vectors <> [] -> of_dimension dim vectors ->
  dimension c = None \/ dimension c = Some dim ->
  check_embeddings c vectors = None.
Proof.
  intros Hne [Hpos Hall] Hdim. unfold check_embeddings.
  destruct vectors as [|v vs]; [congruence|].
  assert (Hzero : existsb (fun x => Nat.eqb (List.length x) 0) (v :: vs) = false).
  { apply not_true_is_false. intros Hex. apply existsb_exists in Hex as (x & Hx & Hx0).
    rewrite List.Forall_forall in Hall. apply Hall in Hx. apply Nat.eqb_eq in Hx0. lia. }
  rewrite Hzero.
  assert (Hd : default (List.length v) (dimension c) = dim).
  { inversion Hall; subst. destruct Hdim as [-> | ->]; reflexivity. }
  rewrite Hd.
  assert (Hok : forallb (fun x => Nat.eqb (List.length x) dim) (v :: vs) = true).
  { apply forallb_forall. intros x Hx. apply Nat.eqb_eq.
    rewrite List.Forall_forall in Hall. now apply Hall. }
  now rewrite Hok.
Qed.

(** Vectors that pass the client's checks are not empty and have one
    dimension, the collection's if it has one. *)
Lemma check_embeddings_passed (c : Collection) (vectors : list Embedding) :
  check_embeddings c vectors = None ->
  vectors <> [] /\
  exists dim, of_dimension dim vectors /\
              (dimension c = None \/ dimension c = Some dim).
Proof.
  unfold check_embeddings. destruct vectors as [|v vs]; [discriminate|].
  destruct (existsb (fun x => Nat.eqb (List.length x) 0) (v :: vs)) eqn:Hzero;
    [discriminate|].
  destruct (forallb (fun x => Nat.eqb (List.length x)
                               (default (List.length v) (dimension c))) (v :: vs))
    eqn:Hall; [|discriminate].
  intros _.
  split; [discriminate|].
  exists (default (List.length v) (dimension c)).
  assert (Hforall : List.Forall
            (fun x => List.length x = default (List.length v) (dimension c)) (v :: vs)).
  { apply List.Forall_forall. intros x Hx.
    rewrite forallb_forall in Hall. apply Nat.eqb_eq. now apply Hall. }
  split; [split; [|exact Hforall]|].
  - inversion Hforall as [|x xs Hv _]; subst. rewrite <- Hv.
    destruct (List.length v) eqn:Hlen; [|lia].
    exfalso. apply not_true_iff_false in Hzero. apply Hzero.
    apply existsb_exists. exists v. split; [now left | now rewrite Hlen].
  - destruct (dimension c); [now right | now left].
Qed.

Lemma not_stored_all (c : Collection) (new : list VectorRecord) :
  existsb (fun r => has_id c (rec_id r)) new = false -> not_stored c new = new.
Proof.
  unfold not_stored. induction new as [|r new IH]; simpl; [reflexivity|].
  intros H. apply orb_false_iff in H as [Hr Hnew]. rewrite Hr. simpl.
  now rewrite IH.
Qed.

Lemma not_stored_empty (new : list VectorRecord) : not_stored [] new = new.
Proof.
  apply not_stored_all. induction new as [|r new IH]; simpl; [reflexivity | exact IH].
Qed.

(** What [collection.add] leaves when it returns: the stored records, then
    the records of the batch whose id was not stored yet. *)
Lemma collection_add_returned (policy : DupPolicy) (c c' : Collection)
    (new : list VectorRecord) :
  collection_add policy c new = Returned c' ->
  c' = c ++ not_stored c new /\ check_embeddings c (map rec_embedding new) = None.
Proof.
  unfold collection_add. destruct (check_embeddings _ _); [discriminate|].
  destruct policy.
  - intros H. inversion H. split; reflexivity.
  - destruct (existsb _ new) eqn:Hex; [discriminate|].
    intros H. inversion H. now rewrite not_stored_all.
Qed.


(** [create_collection] in one equation: the old collection of that name
    goes, and a new one is made when the client accepts the name. *)
Lemma create_collection_spec (session_id : string) (st : Store) :
  create_collection session_id st =
    if valid_collection_name (collection_name session_id)
    then (<[collection_name session_id := []]> (delete (collection_name session_id) st),
          Returned tt)
    else (delete (collection_name session_id) st,
          Raised (ValueError "invalid collection name")).
Proof.
  unfold create_collection, client_delete_collection, client_create_collection.
  destruct (st !! collection_name session_id) eqn:Hc; cbn [fst].
  - rewrite lookup_delete_eq. destruct (valid_collection_name _); reflexivity.
  - rewrite (delete_id st) by assumption. rewrite Hc.
    destruct (valid_collection_name _); reflexivity.
Qed.
End AddFacts.

Section AddResults.
Import Ingest VectorStore.

(** Whatever [add_documents] does, the records of the session afterwards
    are the records it had, followed by records built from this batch: when
    the call returns, those whose id was not stored yet; when it raises,
    none. *)
Lemma add_documents_spec (policy : DupPolicy) (session_id : string)
    (blocks : list DataBlock) (embeddings : list Embedding) (st : Store) :
  exists added st' o,
    add_documents policy session_id blocks embeddings st = (st', o) /\
    records_of_session session_id st' = records_of_session session_id st ++ added /\
    (is_Some (get_collection session_id st) -> is_Some (get_collection session_id st')) /\
    (o = Returned tt ->
       get_collection session_id st'
         = Some (records_of_session session_id st ++ added) /\
       added = not_stored (records_of_session session_id st)
                 (records_from 0 blocks embeddings) /\
       check_embeddings (records_of_session session_id st) embeddings = None /\
       List.length blocks = List.length embeddings) /\
    (o <> Returned tt -> added = []) /\
    (forall r, In r added -> In r (records_from 0 blocks embeddings)).
Proof.
  assert (Hsub : forall c r, In r (not_stored c (records_from 0 blocks embeddings)) ->
                   In r (records_from 0 blocks embeddings)).
  { intros c r Hr. unfold not_stored in Hr. now apply filter_In in Hr. }
  assert (Hbody : forall st1 c, st1 !! collection_name session_id = Some c ->
    exists added st' o,
      (let collection := default [] (st1 !! collection_name session_id) in
       if negb (Nat.eqb (List.length blocks) (List.length embeddings)) then
         (st1, Raised (ValueError "batch lists differ in length"))
       else
         match collection_add policy collection (records_from 0 blocks embeddings) with
         | Returned c' => (<[collection_name session_id := c']> st1, Returned tt)
         | Raised e => (st1, Raised e)
         end) = (st', o) /\
      get_collection session_id st' = Some (c ++ added) /\
      (o = Returned tt ->
         added = not_stored c (records_from 0 blocks embeddings) /\
         check_embeddings c embeddings = None /\
         List.length blocks = List.length embeddings) /\
      (o <> Returned tt -> added = []) /\
      (forall r, In r added -> In r (records_from 0 blocks embeddings))).
  { intros st1 c Hc. cbv zeta. rewrite Hc. change (default [] (Some ?x)) with x.
    destruct (Nat.eqb (List.length blocks) (List.length embeddings)) eqn:Hlen; cbn [negb].
    - apply Nat.eqb_eq in Hlen.
      destruct (collection_add policy c (records_from 0 blocks embeddings))
        as [c'|e] eqn:Hadd.
      + apply collection_add_returned in Hadd as [-> Hcheck].
        rewrite records_from_embeddings in Hcheck by assumption.
        eexists _, _, _. split; [reflexivity|].
        split; [apply lookup_insert_eq|]. split; [auto|]. split; [congruence|]. apply Hsub.
      + exists [], st1. eexists. split; [reflexivity|]. rewrite app_nil_r.
        split; [exact Hc|]. split; [discriminate|]. split; [reflexivity | intros r []].
    - exists [], st1. eexists. split; [reflexivity|]. rewrite app_nil_r.
      split; [exact Hc|]. split; [discriminate|]. split; [reflexivity | intros r []]. }
  unfold add_documents, records_of_session.
  destruct (get_collection session_id st) as [c|] eqn:Hc.
  - destruct (Hbody st c Hc) as (added & st' & o & Heq & Hcoll & Hret & Hraise & Hin).
    cbv zeta in Heq. exists added, st', o. cbv zeta. rewrite Heq, Hcoll.
    change (default [] (Some ?x)) with x.
    split; [reflexivity|]. split; [reflexivity|]. split; [eauto|].
    split; [intros Ho; split; [reflexivity | now apply Hret]|]. split; assumption.
  - rewrite create_collection_spec.
    destruct (valid_collection_name (collection_name session_id)).
    + destruct (Hbody (<[collection_name session_id := []]>
                         (delete (collection_name session_id) st)) [])
        as (added & st' & o & Heq & Hcoll & Hret & Hraise & Hin);
        [apply lookup_insert_eq|].
      cbv zeta in Heq. exists added, st', o. cbv zeta. rewrite Heq, Hcoll.
      change (default [] (Some ?x)) with x. change (default [] None) with (@nil VectorRecord).
      split; [reflexivity|]. split; [reflexivity|].
      split; [intros [x Hx]; discriminate|].
      split; [intros Ho; split; [reflexivity | now apply Hret]|]. split; assumption.
    + exists [], (delete (collection_name session_id) st). eexists.
      split; [reflexivity|]. unfold get_collection. rewrite lookup_delete_eq.
      split; [reflexivity|]. split; [intros [x Hx]; discriminate|].
      split; [discriminate|]. split; [reflexivity | intros r []].
Qed.


(** When [add_documents] returns on a session without records, it has
    stored the batch whole, one record per block. *)
Lemma add_documents_fresh_returned (policy : DupPolicy) (sid : string)
    (blocks : list DataBlock) (embeddings : list Embedding) (st st' : Store) :
  records_of_session sid st = [] ->
  add_documents policy sid blocks embeddings st = (st', Returned tt) ->
  get_collection sid st' = Some (records_from 0 blocks embeddings) /\
  List.length blocks = List.length embeddings /\
  exists dim, of_dimension dim embeddings.
Proof.
  intros Hempty Hadd.
  destruct (add_documents_spec policy sid blocks embeddings st)
    as (added & st'' & o & Hadd' & _ & _ & Hret & _).
  rewrite Hadd in Hadd'. inversion Hadd'; subst.
  destruct (Hret eq_refl) as (Hcoll & Heq & Hcheck & Hlen).
  rewrite Hempty in Hcoll, Heq. rewrite not_stored_empty in Heq. subst added.
  split; [exact Hcoll|]. split; [exact Hlen|].
  apply check_embeddings_passed in Hcheck as (_ & dim & Hdim & _). eauto.
Qed.

(** C2.  After [add_documents], every result of [query] on the session
    either comes from a record the collection already held, or was stored by
    this call from a block of the batch; in the second case its text is the
    block's whole text, whatever its length, with the block's page and
    bbox, while the metadata copy of that record is the text cut at 500
    characters. *)
Theorem query_returns_full_text (distance : Embedding -> Embedding -> Q)
    (policy : DupPolicy) (session_id : string) (blocks : list DataBlock)
    (embeddings : list Embedding) (st st' : Store) (o : outcome unit)
    (q : Embedding) (top_k : Z) (results : list QueryResult) (r : QueryResult) :
  add_documents policy session_id blocks embeddings st = (st', o) ->
  query distance session_id q top_k st' = Returned results ->
  In r results ->
  (exists i rec, In rec (records_of_session session_id st) /\
                 r = format_result distance q i rec) \/
  (exists i j b e,
     blocks !! j = Some b /\ embeddings !! j = Some e /\
     r = format_result distance q i (record_of j b e) /\
     res_text r = text b /\ res_page r = page b /\
     res_bbox r = bbox_list (bbox b) /\
     md_text (rec_metadata (record_of j b e)) = py_slice (text b) 0 500).
Proof.
  intros Hadd Hq Hr.
  destruct (add_documents_spec policy session_id blocks embeddings st)
    as (added & st'' & o' & Hadd' & Hrecs & _ & _ & _ & Hsub).
  rewrite Hadd in Hadd'. injection Hadd' as <- <-.
  destruct (query_results distance _ _ _ _ _ _ Hq Hr) as (i & rec & Hrec & ->).
  rewrite Hrecs in Hrec.
  apply in_app_or in Hrec as [Hold|Hnew].
  - left. eauto.
  - right. apply Hsub, records_from_In in Hnew as (j & b & e & Hb & He & ->).
    exists i, j, b, e. repeat split; try assumption.
    + unfold format_result, record_of, metadata_of. simpl.
      destruct (bbox b) as [[[x0 y0] x1] y1]. reflexivity.
    + unfold format_result, record_of, metadata_of, bbox_list. simpl.
      destruct (bbox b) as [[[x0 y0] x1] y1]. reflexivity.
    + unfold record_of, metadata_of. simpl.
      destruct (bbox b) as [[[x0 y0] x1] y1]. reflexivity.
Qed.
End AddResults.

Section IndexResults.
Import Ingest VectorStore.

Lemma query_returns_full_text_witness :
  let r := format_result Samples.zero_distance Samples.unit_embedding 0
             (record_of 0 Samples.long_block Samples.unit_embedding) in
  (exists i rec, In rec (records_of_session "s1" ∅) /\
                 r = format_result Samples.zero_distance Samples.unit_embedding i rec) \/
  (exists i j b e,
     [Samples.long_block] !! j = Some b /\ [Samples.unit_embedding] !! j = Some e /\
     r = format_result Samples.zero_distance Samples.unit_embedding i (record_of j b e) /\
     res_text r = text b /\ res_page r = page b /\
     res_bbox r = bbox_list (bbox b) /\
     md_text (rec_metadata (record_of j b e)) = py_slice (text b) 0 500).
Proof.
  apply (query_returns_full_text Samples.zero_distance IgnoreExisting "s1"
           [Samples.long_block] [Samples.unit_embedding] ∅
           (fst (add_documents IgnoreExisting "s1" [Samples.long_block]
                   [Samples.unit_embedding] ∅))
           (Returned tt) Samples.unit_embedding 3
           [format_result Samples.zero_distance Samples.unit_embedding 0
              (record_of 0 Samples.long_block Samples.unit_embedding)]).
  - vm_compute. reflexivity.
  - vm_compute. reflexivity.
  - left. reflexivity.
Defined.

(** The text a citation carries is 600 characters long where the block's is,
    and the metadata copy of the same record is 500 characters long. *)
Example long_text_not_truncated :
  query Samples.zero_distance "s1" Samples.unit_embedding 3
        (fst (add_documents IgnoreExisting "s1" [Samples.long_block]
                [Samples.unit_embedding] ∅))
    = Returned [mkQueryResult 1 Samples.long_text 2 [1 # 2; 3 # 2; 5 # 2; 7 # 2]%Q 0%Q] /\
  slen Samples.long_text = 600 /\
  slen (md_text (metadata_of Samples.long_block)) = 500.
Proof. repeat split; vm_compute; reflexivity. Qed.



(** The second half of the statement is not empty: the sample batch meets
    its conditions and the call stores both records. *)
Example add_documents_stores_batch :
  of_dimension 2 [Samples.unit_embedding; Samples.unit_embedding] /\
  valid_collection_name (collection_name "s1") = true /\
  exists st',
    add_documents IgnoreExisting "s1" [Samples.ten_letters; Samples.two_letters]
      [Samples.unit_embedding; Samples.unit_embedding] ∅ = (st', Returned tt) /\
    get_collection "s1" st'
      = Some [record_of 0 Samples.ten_letters Samples.unit_embedding;
              record_of 1 Samples.two_letters Samples.unit_embedding].
Proof.
  split; [split; [lia | repeat constructor]|]. split; [reflexivity|].
  eexists. split; vm_compute; reflexivity.
Qed.


(** The client's checks at work.  An empty session id gives the name
    [session_], which the client refuses: [create_collection] raises and
    creates nothing, while the name of a UUID is accepted.  An empty batch
    is refused after the collection has been created, and so is a second
    batch whose vectors have another dimension than the stored ones. *)
Example client_checks :
  create_collection "" ∅ = (∅, Raised (ValueError "invalid collection name")) /\
  valid_collection_name
    (collection_name "3f2b8c1e-7a4d-4e2a-9b1c-0d5e6f7a8b9c") = true /\
  add_documents IgnoreExisting "s1" [] [] ∅
    = ({[ "session_s1"%string := [] ]},
       Raised (ValueError "expected a non-empty list")) /\
  (let st1 := fst (add_documents IgnoreExisting "s1" [Samples.ten_letters]
                     [Samples.unit_embedding] ∅) in
   add_documents IgnoreExisting "s1" [Samples.two_letters] [[1%Q]] st1
     = (st1, Raised (ExternalError
                       "embedding dimension does not match collection dimensionality"))).
Proof. repeat split; vm_compute; reflexivity. Qed.
End IndexResults.

Section MissingCollection.
Import VectorStore.

Lemma delete_collection_absent (session_id : string) (st : Store) :
  get_collection session_id st = None ->
  delete_collection session_id st = (st, false).
Proof.
  unfold get_collection, delete_collection, client_delete_collection.
  now intros ->.
Qed.

Lemma get_collection_deleted (session_id : string) (st : Store) :
  get_collection session_id (fst (delete_collection session_id st)) = None.
Proof.
  unfold get_collection, delete_collection, client_delete_collection.
  destruct (st !! collection_name session_id) eqn:Hc; simpl.
  - apply lookup_delete_eq.
  - exact Hc.
Qed.

Lemma query_absent (distance : Embedding -> Embedding -> Q) (session_id : string)
    (q : Embedding) (top_k : Z) (st : Store) :
  get_collection session_id st = None ->
  query distance session_id q top_k st = Returned [].
Proof. unfold query. now intros ->. Qed.

(** C9.  On a session with no collection [query] returns the empty list,
    for any query vector and any [top_k], and [delete_collection] returns
    [False] and leaves the store as it is.  After [delete_collection] the
    session has no collection, so a following [query] returns the empty
    list and a second [delete_collection] returns [False]; whether the
    first one returned [True] says whether there was a collection. *)
Theorem query_and_delete_without_collection
    (distance : Embedding -> Embedding -> Q) (session_id : string)
    (q : Embedding) (top_k : Z) (st : Store) :
  (get_collection session_id st = None ->
   query distance session_id q top_k st = Returned [] /\
   delete_collection session_id st = (st, false)) /\
  (let st' := fst (delete_collection session_id st) in
   get_collection session_id st' = None /\
   query distance session_id q top_k st' = Returned [] /\
   delete_collection session_id st' = (st', false) /\
   (snd (delete_collection session_id st) = true <->
    is_Some (get_collection session_id st))).
Proof.
  split.
  - intros Hnone. split; [now apply query_absent | now apply delete_collection_absent].
  - cbv zeta. pose proof (get_collection_deleted session_id st) as Hgone.
    split; [exact Hgone|]. split; [now apply query_absent|].
    split; [now apply delete_collection_absent|].
    unfold get_collection, delete_collection, client_delete_collection.
    destruct (st !! collection_name session_id); simpl.
    + split; [eauto | reflexivity].
    + split; [discriminate | intros [x Hx]; discriminate].
Qed.
End MissingCollection.


(** ** Session registry and sweeper *)

Section SweepFacts.
Import VectorStore Cleanup.

Lemma get_expired_sessions_In (now : Z) (reg : Registry) (sid : string) :
  In sid (map fst (get_expired_sessions now reg)) <->
  exists row, reg !! sid = Some row /\ row_expired now row = true.
Proof.
  unfold get_expired_sessions. rewrite map_map. simpl. rewrite in_map_iff. split.
  - intros ([k row] & <- & Hin). apply filter_In in Hin as [Hin Hexp].
    apply list_elem_of_In, elem_of_map_to_list in Hin. eauto.
  - intros (row & Hrow & Hexp). exists (sid, row). split; [reflexivity|].
    apply filter_In. split; [|exact Hexp].
    now apply list_elem_of_In, elem_of_map_to_list.
Qed.

(** The primary key: no session is listed twice. *)
Lemma NoDup_get_expired_sessions (now : Z) (reg : Registry) :
  List.NoDup (map fst (get_expired_sessions now reg)).
Proof.
  unfold get_expired_sessions. rewrite map_map. simpl.
  pose proof (NoDup_fst_map_to_list reg) as Hnd. apply NoDup_ListNoDup in Hnd.
  revert Hnd. generalize (map_to_list reg). intros l.
  induction l as [|kv l IH]; simpl; intros Hnd; [constructor|].
  apply List.NoDup_cons_iff in Hnd as [Hnotin Hnd].
  destruct (row_expired now (snd kv)); [|auto]. simpl.
  constructor; [|auto]. intros Hin. apply Hnotin.
  apply in_map_iff in Hin as (kv' & Heq & Hin). apply filter_In in Hin as [Hin _].
  rewrite <- Heq. apply in_map_iff. eauto.
Qed.

Variable fault : string -> option TeardownStep.

(** The row goes last: a teardown that raises leaves the table as it was. *)
Lemma delete_session_raised (sid : string) (w w' : World) (e : exn) :
  delete_session fault sid w = (w', Raised e) ->
  sessions w' = sessions w /\ exists step, fault sid = Some step /\ e = step_error step.
Proof.
  unfold delete_session.
  destruct (fault sid) as [[]|]; intros H; inversion H; subst; simpl; eauto.
Qed.

Lemma delete_session_returned (sid : string) (w w' : World) :
  delete_session fault sid w = (w', Returned tt) ->
  fault sid = None /\ fully_reclaimed sid w' /\
  sessions w' = delete sid (sessions w).
Proof.
  unfold delete_session.
  destruct (fault sid) as [[]|]; intros H; inversion H; subst; simpl.
  split; [reflexivity|]. split; [|reflexivity].
  unfold fully_reclaimed. simpl. split; [apply lookup_delete_eq|].
  split; [apply get_collection_deleted|].
  intros Hin. apply elem_of_difference in Hin as [_ Hin].
  apply Hin, elem_of_singleton. reflexivity.
Qed.

(** What is gone stays gone through any teardown. *)
Lemma delete_session_keeps_reclaimed (sid sid' : string) (w : World) :
  fully_reclaimed sid' w -> fully_reclaimed sid' (fst (delete_session fault sid w)).
Proof.
  intros (Hrow & Hcoll & Hfile).
  assert (Hcoll' : get_collection sid' (fst (delete_collection sid (store w))) = None).
  { unfold get_collection, delete_collection, client_delete_collection in *.
    destruct (store w !! collection_name sid); simpl; [|exact Hcoll].
    rewrite lookup_delete. case_decide; [reflexivity | exact Hcoll]. }
  assert (Hfile' : pdf_path sid' ∉ temp_files w ∖ {[ pdf_path sid ]}).
  { intros Hin. apply elem_of_difference in Hin as [Hin _]. now apply Hfile. }
  unfold delete_session, fully_reclaimed.
  destruct (fault sid) as [[]|]; simpl; repeat split; try assumption.
  rewrite lookup_delete. case_decide; [reflexivity | exact Hrow].
Qed.

Lemma delete_session_other_row (sid sid' : string) (w : World) :
  sid <> sid' \/ reclaimed fault sid = false ->
  sessions (fst (delete_session fault sid w)) !! sid' = sessions w !! sid'.
Proof.
  unfold delete_session, reclaimed.
  destruct (fault sid) as [[]|]; simpl; try reflexivity.
  intros [Hne|Hf]; [|discriminate]. now apply lookup_delete_ne.
Qed.

Lemma delete_session_outcome (sid : string) (w : World) :
  snd (delete_session fault sid w) =
    match fault sid with
    | None => Returned tt
    | Some step => Raised (step_error step)
    end.
Proof. unfold delete_session. now destruct (fault sid) as [[]|]. Qed.
End SweepFacts.

Section SweepResults.
Import VectorStore Cleanup.

Variable fault : string -> option TeardownStep.

(** The loop visits every listed session once, in order, whatever the
    earlier teardowns did. *)
Lemma sweep_spec (expired : list (string * option string)) (w : World)
    (count : Z) (log : list LogLine) :
  exists w',
    sweep fault expired w count log =
      (w', count + Z.of_nat (List.length (List.filter (reclaimed fault) (map fst expired))),
       log ++ map (sweep_line fault) (map fst expired)) /\
    (forall sid, fully_reclaimed sid w -> fully_reclaimed sid w') /\
    (forall sid, In sid (map fst expired) -> fault sid = None -> fully_reclaimed sid w') /\
    (forall sid, ~ In sid (map fst expired) \/ reclaimed fault sid = false ->
       sessions w' !! sid = sessions w !! sid).
Proof.
  revert w count log. induction expired as [|session rest IH]; intros w count log.
  - exists w. simpl. rewrite Z.add_0_r, app_nil_r.
    split; [reflexivity|]. split; [auto|]. split; [intros sid [] | reflexivity].
  - simpl. pose proof (delete_session_outcome fault (fst session) w) as Hout.
    destruct (delete_session fault (fst session) w) as [w1 o] eqn:Hdel. simpl in Hout.
    assert (Hkeep : forall sid, fully_reclaimed sid w -> fully_reclaimed sid w1).
    { intros sid H. replace w1 with (fst (delete_session fault (fst session) w))
        by now rewrite Hdel. now apply delete_session_keeps_reclaimed. }
    assert (Hrows : forall sid, fst session <> sid \/ reclaimed fault (fst session) = false ->
              sessions w1 !! sid = sessions w !! sid).
    { intros sid H. replace w1 with (fst (delete_session fault (fst session) w))
        by now rewrite Hdel. now apply delete_session_other_row. }
    cbn [map List.filter].
    destruct (fault (fst session)) as [step|] eqn:Hf; subst o.
    + assert (Hr : reclaimed fault (fst session) = false)
        by (unfold reclaimed; now rewrite Hf).
      assert (Hline : sweep_line fault (fst session)
                      = LogError (fst session) (step_error step))
        by (unfold sweep_line; now rewrite Hf).
      rewrite Hr, Hline.
      destruct (IH w1 count (log ++ [LogError (fst session) (step_error step)]))
        as (w' & Hsweep & Hmono & Hdone & Hother).
      exists w'. rewrite Hsweep, <- app_assoc. split; [reflexivity|].
      split; [auto|]. split.
      * intros sid [<-|Hin] Hnone; [congruence | auto].
      * intros sid Hsid. rewrite Hother, Hrows; [reflexivity | now right |].
        destruct Hsid as [Hsid|Hsid]; [left; tauto | now right].
    + assert (Hr : reclaimed fault (fst session) = true)
        by (unfold reclaimed; now rewrite Hf).
      assert (Hline : sweep_line fault (fst session) = LogDeleted (fst session))
        by (unfold sweep_line; now rewrite Hf).
      rewrite Hr, Hline.
      destruct (delete_session_returned fault _ _ _ Hdel) as (_ & Hgone & _).
      destruct (IH w1 (count + 1) (log ++ [LogDeleted (fst session)]))
        as (w' & Hsweep & Hmono & Hdone & Hother).
      exists w'. rewrite Hsweep, <- app_assoc. split.
      * cbn [List.length app]. f_equal. f_equal. lia.
      * split; [auto|]. split.
        -- intros sid [<-|Hin] Hnone; [auto | auto].
        -- intros sid Hsid. rewrite Hother.
           ++ apply Hrows. left. destruct Hsid as [Hsid|Hsid]; [tauto|].
              intros <-. congruence.
           ++ destruct Hsid as [Hsid|Hsid]; [left; tauto | now right].
Qed.

(** C4.  The sweep attempts every expired session in order and prints one
    line for each, an error line where the teardown raised; the returned
    count is the number of expired sessions whose teardown went through,
    and nothing of those is left in the index, the directory or the table.
    A teardown that raises has not touched the table, so the row of a
    session whose teardown failed is still there, as before the sweep, and
    a later sweep lists the session again whenever it would have listed it
    on the table as it was.  Rows of sessions that were not expired are
    untouched, and no session is listed twice. *)
Theorem cleanup_expired_sessions_partial_failure (now : Z) (w : World) :
  exists w' count log,
    cleanup_expired_sessions fault now w = (w', count, log) /\
    let expired := map fst (get_expired_sessions now (sessions w)) in
    List.NoDup expired /\
    count = Z.of_nat (List.length (List.filter (reclaimed fault) expired)) /\
    (exists summary, log = map (sweep_line fault) expired ++ summary) /\
    (forall sid, In sid expired -> fault sid = None -> fully_reclaimed sid w') /\
    (forall sid step, fault sid = Some step ->
       sessions w' !! sid = sessions w !! sid /\
       (In sid expired ->
        In (LogError sid (step_error step)) log /\ is_Some (sessions w' !! sid)) /\
       (forall now', In sid (map fst (get_expired_sessions now' (sessions w))) ->
                     In sid (map fst (get_expired_sessions now' (sessions w'))))) /\
    (forall sid, ~ In sid expired -> sessions w' !! sid = sessions w !! sid) /\
    (forall sid w0 w1 e, delete_session fault sid w0 = (w1, Raised e) ->
                         sessions w1 = sessions w0).
Proof.
  unfold cleanup_expired_sessions.
  destruct (sweep_spec (get_expired_sessions now (sessions w)) w 0 [])
    as (w' & Hsweep & _ & Hdone & Hother).
  rewrite Hsweep. simpl app. rewrite Z.add_0_l.
  set (expired := map fst (get_expired_sessions now (sessions w))) in *.
  set (count := Z.of_nat _).
  exists w', count, (if 0 <? count then map (sweep_line fault) expired ++ [LogSummary count]
                     else map (sweep_line fault) expired).
  split; [reflexivity|]. cbv zeta.
  split; [apply NoDup_get_expired_sessions|]. split; [reflexivity|].
  split; [|split; [exact Hdone|split; [|split]]].
  - destruct (0 <? count); [eauto|]. exists []. now rewrite app_nil_r.
  - intros sid step Hstep.
    assert (Hrow : sessions w' !! sid = sessions w !! sid).
    { apply Hother. right. unfold reclaimed. now rewrite Hstep. }
    split; [exact Hrow|]. split.
    + intros Hin. split.
      * assert (Hline : In (LogError sid (step_error step))
                          (map (sweep_line fault) expired)).
        { apply in_map_iff. exists sid. split; [|exact Hin].
          unfold sweep_line. now rewrite Hstep. }
        destruct (0 <? count); [apply in_or_app; now left | exact Hline].
      * rewrite Hrow. apply get_expired_sessions_In in Hin as (row & -> & _). eauto.
    + intros now'. rewrite !get_expired_sessions_In, Hrow. auto.
  - intros sid Hsid. apply Hother. now left.
  - intros sid w0 w1 e Hdel. now apply delete_session_raised in Hdel.
Qed.
End SweepResults.


(** ** Expiry test of the registry *)

Section Expiry.
Import Cleanup.

(** Two texts that agree up to a position where the first has a space and
    the second the letter T: the first is the smaller one. *)
Lemma ltb_space_before_T (d t1 t2 : string) :
  String.ltb (d ++ " " ++ t1) (d ++ "T" ++ t2) = true.
Proof.
  unfold String.ltb. induction d as [|c d IH]; [reflexivity|].
  simpl. replace (Ascii.compare c c) with Eq; [exact IH|].
  symmetry. unfold Ascii.compare. apply N.compare_refl.
Qed.

(** The test selects every row last accessed on the UTC day of the expiry
    instant, whatever the time of day of the access. *)
Lemma row_expired_same_day (now accessed : Z) (row : Session) :
  last_accessed row = current_timestamp accessed ->
  date_text (accessed / 1000000)
    = date_text ((now - timedelta_minutes SESSION_EXPIRY_MINUTES) / 1000000) ->
  row_expired now row = true.
Proof.
  intros Hla Hday. unfold row_expired, isoformat. rewrite Hla.
  unfold current_timestamp. rewrite Hday. apply ltb_space_before_T.
Qed.

(** C5, evaluated on the code.  A session registered at 12:00:00 is listed
    as expired by a sweep 31 minutes later, and also by sweeps 29 minutes
    later and at the very instant of registration: the stored text
    ["2024-01-01 12:00:00"] is compared with ["2024-01-01T11:59:00"], and a
    space sorts before [T].  The sweep at 29 minutes deletes the session. *)
Example get_expired_sessions_same_day :
  current_timestamp Samples.noon = "2024-01-01 12:00:00"%string /\
  isoformat (Samples.noon + timedelta_minutes 29
               - timedelta_minutes SESSION_EXPIRY_MINUTES)
    = "2024-01-01T11:59:00"%string /\
  get_expired_sessions (Samples.noon + timedelta_minutes 31) Samples.one_session
    = [("s1"%string, Some "cv.pdf"%string)] /\
  get_expired_sessions (Samples.noon + timedelta_minutes 29) Samples.one_session
    = [("s1"%string, Some "cv.pdf"%string)] /\
  get_expired_sessions Samples.noon Samples.one_session
    = [("s1"%string, Some "cv.pdf"%string)] /\
  isoformat (Samples.noon + timedelta_minutes 29 + 123456
               - timedelta_minutes SESSION_EXPIRY_MINUTES)
    = "2024-01-01T11:59:00.123456"%string /\
  get_expired_sessions (Samples.noon + timedelta_minutes 29 + 123456) Samples.one_session
    = [("s1"%string, Some "cv.pdf"%string)] /\
  cleanup_expired_sessions Samples.no_fault (Samples.noon + timedelta_minutes 29)
      (mkWorld ∅ ∅ Samples.one_session)
    = (mkWorld ∅ ∅ ∅, 1, [LogDeleted "s1"; LogSummary 1]).
Proof. repeat split; vm_compute; reflexivity. Qed.

(** Across midnight the same test keeps a session: accessed at 00:10:00 and
    swept ten minutes later, the expiry instant is on the previous day. *)
Example get_expired_sessions_next_day :
  let accessed := Samples.noon + timedelta_minutes (12 * 60 + 10) in
  current_timestamp accessed = "2024-01-02 00:10:00"%string /\
  get_expired_sessions (accessed + timedelta_minutes 10)
    (register_session accessed "s1" None ∅) = [].
Proof. repeat split; vm_compute; reflexivity. Qed.
End Expiry.

(** ** Upload handler: what a failed ingestion leaves behind *)

Section UploadResults.
Import Ingest VectorStore Cleanup Main.

Lemma chunk_text_blocks_default_returns (blocks : list DataBlock) :
  exists chunks,
    chunk_text_blocks (fuel_for blocks) blocks default_max_chars default_overlap_chars
      = Some chunks.
Proof.
  eexists. apply chunk_text_blocks_groups; [|lia].
  unfold default_max_chars, default_overlap_chars. lia.
Qed.

(** An exception other than the handler's own leaves the directory and the
    table as they were when the body was entered. *)
Lemma upload_body_raised (env : UploadEnv) (now : Z) (file : UploadFile)
    (w w1 : World) (e : exn) :
  upload_body env now file w = Some (w1, RaisedOther e) ->
  temp_files w1 = temp_files w /\ sessions w1 = sessions w.
Proof.
  unfold upload_body, set_store.
  split_body; intros H; inversion H; subst; simpl; auto.
Qed.

(** The body raises an HTTP error of its own only for a document without
    text, before anything else is touched. *)
Lemma upload_body_http (env : UploadEnv) (now : Z) (file : UploadFile)
    (w w1 : World) (e : HTTPException) :
  upload_body env now file w = Some (w1, RaisedHTTP e) ->
  (exists pages, extract_text_blocks env = Returned ([], pages)) /\
  w1 = w /\ status_code e = 400.
Proof.
  unfold upload_body, set_store.
  split_body; intros H; inversion H; subst; simpl; eauto.
Qed.

(** The handler always comes to an end. *)
Lemma upload_pdf_returns (env : UploadEnv) (now : Z) (file : UploadFile) (w : World) :
  exists r, upload_pdf env now file w = Some r.
Proof.
  unfold upload_pdf. destruct (validate file); [eauto|].
  destruct (write_raises env); [eauto|].
  match goal with |- context [upload_body ?e ?n ?f ?w0] =>
    assert (Hbody : exists r, upload_body e n f w0 = Some r) end.
  { unfold upload_body.
    destruct (extract_text_blocks env) as [[blocks pages]|]; [|eauto].
    destruct blocks as [|b bs]; [eauto|].
    destruct (chunk_text_blocks_default_returns (b :: bs)) as (chunks & ->).
    split_body; eauto. }
  destruct Hbody as ([w1 [r|e|e]] & ->); eauto.
Qed.

(** [create_collection] returns exactly when the client accepts the name,
    and then the session has a fresh empty collection; when it raises the
    session has none. *)
Lemma create_collection_fresh (sid : string) (st : Store) :
  valid_collection_name (collection_name sid) = true ->
  exists st1, create_collection sid st = (st1, Returned tt) /\
              get_collection sid st1 = Some [].
Proof.
  intros Hname. rewrite create_collection_spec, Hname.
  eexists. split; [reflexivity | apply lookup_insert_eq].
Qed.

Lemma create_collection_returned (sid : string) (st st1 : Store) (u : unit) :
  create_collection sid st = (st1, Returned u) ->
  valid_collection_name (collection_name sid) = true /\
  get_collection sid st1 = Some [].
Proof.
  rewrite create_collection_spec.
  destruct (valid_collection_name (collection_name sid)); intros H; inversion H.
  split; [reflexivity | apply lookup_insert_eq].
Qed.

Lemma create_collection_raised (sid : string) (st st1 : Store) (e : exn) :
  create_collection sid st = (st1, Raised e) -> get_collection sid st1 = None.
Proof.
  rewrite create_collection_spec.
  destruct (valid_collection_name (collection_name sid)); intros H; inversion H.
  apply lookup_delete_eq.
Qed.

(** A session that has a collection still has one after [add_documents],
    however the call ends. *)
Lemma add_documents_keeps_collection (policy : DupPolicy) (sid : string)
    (blocks : list DataBlock) (embeddings : list Embedding) (st st' : Store)
    (o : outcome unit) :
  add_documents policy sid blocks embeddings st = (st', o) ->
  is_Some (get_collection sid st) -> is_Some (get_collection sid st').
Proof.
  intros Hadd Hsome.
  destruct (add_documents_spec policy sid blocks embeddings st)
    as (added & st'' & o' & Hadd' & _ & Hkeep & _).
  rewrite Hadd in Hadd'. inversion Hadd'; subst. now apply Hkeep.
Qed.

(** What the body of the handler does when a step fails: it ends with the
    exception of that step; the index is untouched when the step comes
    before [create_collection], and holds the session's collection when it
    comes after. *)
Lemma upload_body_step_fails (env : UploadEnv) (now : Z) (file : UploadFile)
    (w : World) (s : IngestStep) :
  step_fails env (store w) s ->
  exists w1 x,
    upload_body env now file w = Some (w1, RaisedOther x) /\
    ((s = ExtractStep \/ s = EmbedStep) -> store w1 = store w) /\
    ((s = AddStep \/ s = RegisterStep) ->
     is_Some (get_collection (uuid4 env) (store w1))).
Proof.
  assert (Hchunks : forall chunks, chunks_of_upload env chunks ->
            exists b bs pages,
              extract_text_blocks env = Returned (b :: bs, pages) /\
              chunk_text_blocks (fuel_for (b :: bs)) (b :: bs)
                default_max_chars default_overlap_chars = Some chunks).
  { intros chunks (blocks & pages & Hext & Hne & Hch).
    destruct blocks as [|b bs]; [congruence|]. eauto. }
  intros Hfail. unfold upload_body.
  destruct Hfail as [e Hext | chunks e Hc Hemb | chunks embeddings Hc Hemb Hcreate
                     | chunks embeddings st1 Hc Hemb Hcr Hcreate Hadd
                     | chunks embeddings st1 st2 Hc Hemb Hcr Hcreate Har Hadd Hreg].
  - rewrite Hext. eexists _, _. split; [reflexivity|].
    split; [reflexivity | intros [H|H]; discriminate].
  - destruct (Hchunks _ Hc) as (b & bs & pages & -> & ->). rewrite Hemb.
    eexists _, _. split; [reflexivity|].
    split; [reflexivity | intros [H|H]; discriminate].
  - destruct (Hchunks _ Hc) as (b & bs & pages & -> & ->). rewrite Hemb.
    destruct (create_raises env) eqn:Hcr.
    + eexists _, _. split; [reflexivity|].
      split; intros [H|H]; discriminate.
    + destruct Hcreate as [H|(st1 & e & ->)]; [discriminate|].
      eexists _, _. split; [reflexivity|].
      split; intros [H|H]; discriminate.
  - destruct (Hchunks _ Hc) as (b & bs & pages & -> & ->). rewrite Hemb, Hcr, Hcreate.
    apply create_collection_returned in Hcreate as [_ Hsome].
    destruct (add_raises env) eqn:Har.
    + eexists _, _. split; [reflexivity|].
      split; [intros [H|H]; discriminate|]. intros _. simpl. rewrite Hsome. eauto.
    + destruct Hadd as [H|(st2 & e & Hadd)]; [discriminate|]. rewrite Hadd.
      eexists _, _. split; [reflexivity|].
      split; [intros [H|H]; discriminate|]. intros _. simpl.
      eapply add_documents_keeps_collection; [exact Hadd | rewrite Hsome; eauto].
  - destruct (Hchunks _ Hc) as (b & bs & pages & -> & ->).
    rewrite Hemb, Hcr, Hcreate, Har, Hadd, Hreg.
    apply create_collection_returned in Hcreate as [_ Hsome].
    eexists _, _. split; [reflexivity|].
    split; [intros [H|H]; discriminate|]. intros _. simpl.
    eapply add_documents_keeps_collection; [exact Hadd | rewrite Hsome; eauto].
Qed.

(** Conversely, an exception other than the handler's own ends the body
    only when one of the steps fails. *)
Lemma upload_body_raised_step (env : UploadEnv) (now : Z) (file : UploadFile)
    (w w1 : World) (x : exn) :
  upload_body env now file w = Some (w1, RaisedOther x) ->
  exists s, step_fails env (store w) s.
Proof.
  unfold upload_body.
  destruct (extract_text_blocks env) as [[blocks pages]|e0] eqn:Hext;
    [|intros _; exists ExtractStep; eapply extract_fails, Hext].
  destruct blocks as [|b bs]; [discriminate|].
  destruct (chunk_text_blocks _ _ _ _) as [chunks|] eqn:Hch; [|discriminate].
  assert (Hc : chunks_of_upload env chunks).
  { exists (b :: bs), pages. split; [exact Hext|]. split; [discriminate | exact Hch]. }
  destruct (get_embeddings env _) as [embeddings|e1] eqn:Hemb;
    [|intros _; exists EmbedStep; eapply embed_fails; eassumption].
  destruct (create_raises env) eqn:Hcr;
    [intros _; exists CreateStep; eapply create_fails; eauto|].
  destruct (create_collection (uuid4 env) (store w)) as [st1 [[]|e2]] eqn:Hcreate;
    [|intros _; exists CreateStep; eapply create_fails; eauto].
  destruct (add_raises env) eqn:Har;
    [intros _; exists AddStep; eapply add_fails; eauto|].
  destruct (add_documents _ _ _ _ st1) as [st2 [[]|e3]] eqn:Hadd;
    [|intros _; exists AddStep; eapply add_fails; eauto].
  destruct (register_raises env) eqn:Hreg; [|discriminate].
  intros _. exists RegisterStep. eapply register_fails; eassumption.
Qed.

(** C1 (amended).  When the temporary file has been written and a later
    step of the ingestion fails (the parser, the model, the index while the
    collection is created or filled, or the registration), the handler
    surfaces an error of status 500, the temporary file is gone from the
    directory, which is otherwise as it was, and the table of sessions is
    unchanged.  The index is not rolled back: it is untouched when the
    failure comes before [create_collection], and when the failure comes
    after it the session's collection is still in the index. *)
Theorem upload_pdf_failure_removes_file (env : UploadEnv) (now : Z)
    (file : UploadFile) (w : World) (s : IngestStep) :
  validate file = None -> write_raises env = false ->
  step_fails env (store w) s ->
  exists w' e,
    upload_pdf env now file w = Some (w', Abort e) /\
    status_code e = 500 /\
    (pdf_path (uuid4 env) ∉ temp_files w') /\
    temp_files w' = (temp_files w ∪ {[ pdf_path (uuid4 env) ]}) ∖ {[ pdf_path (uuid4 env) ]} /\
    sessions w' = sessions w /\
    ((s = ExtractStep \/ s = EmbedStep) -> store w' = store w) /\
    ((s = AddStep \/ s = RegisterStep) ->
     is_Some (get_collection (uuid4 env) (store w'))).
Proof.
  intros Hvalid Hwrite Hfail. unfold upload_pdf. rewrite Hvalid, Hwrite.
  destruct (upload_body_step_fails env now file
              (mkWorld (store w) (temp_files w ∪ {[ pdf_path (uuid4 env) ]}) (sessions w))
              s Hfail) as (w1 & x & Hbody & Hearly & Hlate).
  rewrite Hbody.
  apply upload_body_raised in Hbody as [Hfiles Hrows]. simpl in Hfiles, Hrows, Hearly.
  eexists _, _. split; [reflexivity|]. cbn [store temp_files sessions status_code].
  rewrite Hfiles, Hrows.
  split; [reflexivity|]. split; [|split; [reflexivity|split; [reflexivity|split]]].
  - intros Hin. apply elem_of_difference in Hin as [_ Hin].
    apply Hin, elem_of_singleton. reflexivity.
  - exact Hearly.
  - exact Hlate.
Qed.

Lemma upload_pdf_failure_removes_file_witness :
  exists w' e,
    upload_pdf Samples.add_fails_env Samples.noon Samples.cv_file Samples.empty_world
      = Some (w', Abort e) /\
    status_code e = 500 /\
    (pdf_path (uuid4 Samples.add_fails_env) ∉ temp_files w') /\
    temp_files w'
      = (temp_files Samples.empty_world ∪ {[ pdf_path (uuid4 Samples.add_fails_env) ]})
          ∖ {[ pdf_path (uuid4 Samples.add_fails_env) ]} /\
    sessions w' = sessions Samples.empty_world /\
    ((AddStep = ExtractStep \/ AddStep = EmbedStep) ->
     store w' = store Samples.empty_world) /\
    ((AddStep = AddStep \/ AddStep = RegisterStep) ->
     is_Some (get_collection (uuid4 Samples.add_fails_env) (store w'))).
Proof.
  apply (upload_pdf_failure_removes_file Samples.add_fails_env Samples.noon
           Samples.cv_file Samples.empty_world AddStep).
  - reflexivity.
  - reflexivity.
  - apply (add_fails Samples.add_fails_env (store Samples.empty_world)
             [Samples.ten_letters] [Samples.unit_embedding]
             {[ "session_u1"%string := [] ]}).
    + exists [Samples.ten_letters], {[ 1 := mkPageDimensions 612 792 ]}.
      split; [reflexivity|]. split; [discriminate | reflexivity].
    + reflexivity.
    + reflexivity.
    + vm_compute. reflexivity.
    + left. reflexivity.
Defined.

(** C1 as stated fails in two ways.  When the index fails inside
    [add_documents], the error is surfaced with the temporary file removed
    but with the collection that [create_collection] made still in the
    index.  When the document has no text, the rejection is surfaced with
    the temporary file still in the directory. *)
Lemma upload_pdf_leaves_artifacts :
  get_collection "u1" (store Samples.empty_world) = None /\
  upload_pdf Samples.add_fails_env Samples.noon Samples.cv_file Samples.empty_world
    = Some (mkWorld {[ "session_u1"%string := [] ]} ∅ ∅,
            Abort (mkHTTPException 500 "Failed to process PDF: vector store")) /\
  get_collection "u1" (store (mkWorld {[ "session_u1"%string := [] ]} ∅ ∅)) = Some [] /\
  upload_pdf Samples.no_text_env Samples.noon Samples.cv_file Samples.empty_world
    = Some (mkWorld ∅ {[ "temp_pdfs/u1.pdf"%string ]} ∅,
            Abort (mkHTTPException 400 "No text content found in PDF")) /\
  pdf_path "u1" ∈ temp_files (mkWorld ∅ {[ "temp_pdfs/u1.pdf"%string ]} ∅).
Proof.
  repeat split; vm_compute; reflexivity.
Qed.

(** A successful upload, for comparison: the three stores get their entry
    together. *)
Example upload_pdf_success :
  exists w' r,
    upload_pdf Samples.healthy_env Samples.noon Samples.cv_file Samples.empty_world
      = Some (w', Respond r) /\
    session_id r = "u1"%string /\ page_count r = 1 /\ block_count r = 1 /\
    temp_files w' = {[ "temp_pdfs/u1.pdf"%string ]} /\
    get_collection "u1" (store w')
      = Some [record_of 0 Samples.ten_letters Samples.unit_embedding] /\
    sessions w' !! "u1"%string
      = Some (mkSession "2024-01-01 12:00:00" "2024-01-01 12:00:00" (Some "cv.pdf"%string)).
Proof.
  do 2 eexists. split; [vm_compute; reflexivity|].
  repeat split; vm_compute; reflexivity.
Qed.
End UploadResults.

(** * Further properties of the code *)

(** ** Extractor: [strip] *)

Section StripFacts.
Import Extraction.

Lemma lstrip_head (s : string) (c : ascii) (r : string) :
  lstrip s = String c r -> is_space c = false.
Proof.
  induction s as [|c' s IH]; simpl; [discriminate|].
  destruct (is_space c') eqn:Hc; [exact IH|].
  intros H. inversion H; subst. exact Hc.
Qed.

Lemma rstrip_head (s : string) (c : ascii) (r : string) :
  rstrip s = String c r -> exists s', s = String c s'.
Proof.
  destruct s as [|c' s]; simpl; [discriminate|].
  destruct (rstrip s); [destruct (is_space c')|]; intros H; inversion H; eauto.
Qed.

(** The last character left by [rstrip] is not white space. *)
Lemma rstrip_last (s r : string) (c : ascii) :
  rstrip s = (r ++ String c EmptyString)%string -> is_space c = false.
Proof.
  revert r. induction s as [|c' s IH]; intros r; simpl.
  - destruct r; discriminate.
  - destruct (rstrip s) as [|c'' t] eqn:Hr.
    + destruct (is_space c') eqn:Hc'; [destruct r; discriminate|].
      destruct r as [|a r]; simpl; intros H; inversion H; subst; [exact Hc'|].
      destruct r; discriminate.
    + destruct r as [|a r]; simpl; intros H; inversion H; subst.
      apply (IH r). congruence.
Qed.

Lemma rstrip_fixed (s : string) : rstrip (rstrip s) = rstrip s.
Proof.
  induction s as [|c s IH]; simpl; [reflexivity|].
  destruct (rstrip s) as [|c' t] eqn:Hr.
  - destruct (is_space c) eqn:Hc; simpl; [reflexivity | now rewrite Hc].
  - simpl in *. now rewrite IH.
Qed.

Lemma lstrip_rstrip_fixed (s : string) :
  lstrip s = s -> lstrip (rstrip s) = rstrip s.
Proof.
  destruct s as [|c s]; simpl; [reflexivity|].
  destruct (is_space c) eqn:Hc.
  - intros H. exfalso.
    assert (Hlen : forall t, (String.length (lstrip t) <= String.length t)%nat).
    { induction t as [|a t IHt]; simpl; [lia|]. destruct (is_space a); simpl; lia. }
    specialize (Hlen s). rewrite H in Hlen. simpl in Hlen. lia.
  - intros _. destruct (rstrip s); simpl; now rewrite Hc.
Qed.

Lemma lstrip_fixed (s : string) : lstrip (lstrip s) = lstrip s.
Proof.
  induction s as [|c s IH]; simpl; [reflexivity|].
  destruct (is_space c) eqn:Hc; [exact IH|]. simpl. now rewrite Hc.
Qed.

(** [strip] returns a text that neither starts nor ends with white space,
    and stripping it again changes nothing. *)
Lemma strip_trimmed (s : string) :
  strip (strip s) = strip s /\
  (forall c r, strip s = String c r -> is_space c = false) /\
  (forall r c, strip s = (r ++ String c EmptyString)%string -> is_space c = false).
Proof.
  unfold strip. split; [|split].
  - rewrite (lstrip_rstrip_fixed (lstrip s)) by apply lstrip_fixed.
    apply rstrip_fixed.
  - intros c r H. apply rstrip_head in H as (s' & Hs'). eapply lstrip_head, Hs'.
  - intros r c H. eapply rstrip_last, H.
Qed.

Lemma lstrip_all_space (s : string) :
  lstrip s = EmptyString <-> List.Forall (fun c => is_space c = true) (list_ascii_of_string s).
Proof.
  induction s as [|c s IH]; simpl.
  - split; [constructor | reflexivity].
  - destruct (is_space c) eqn:Hc.
    + rewrite IH. split; [now constructor | intros H; now inversion H].
    + split; [discriminate | intros H; inversion H; congruence].
Qed.

Lemma rstrip_empty (s : string) :
  rstrip s = EmptyString <-> List.Forall (fun c => is_space c = true) (list_ascii_of_string s).
Proof.
  induction s as [|c s IH]; simpl.
  - split; [constructor | reflexivity].
  - destruct (rstrip s) as [|c' t] eqn:Hr.
    + destruct (is_space c) eqn:Hc.
      * split; [intros _; constructor; [exact Hc | now apply IH] | reflexivity].
      * split; [discriminate | intros H; inversion H; congruence].
    + split; [discriminate|]. intros H. inversion H as [|? ? _ Hs]; subst.
      apply IH in Hs. discriminate.
Qed.

Lemma lstrip_suffix (s : string) :
  exists p, s = (p ++ lstrip s)%string /\
            List.Forall (fun c => is_space c = true) (list_ascii_of_string p).
Proof.
  induction s as [|c s (p & Hp & Hsp)]; simpl.
  - exists EmptyString. split; [reflexivity | constructor].
  - destruct (is_space c) eqn:Hc.
    + exists (String c p). split; [|now constructor].
      change (String c s = String c (p ++ lstrip s)%string). f_equal. exact Hp.
    + exists EmptyString. split; [reflexivity | constructor].
Qed.

(** [strip] is empty exactly on texts made of white space only. *)
Lemma strip_empty (s : string) :
  strip s = EmptyString <-> List.Forall (fun c => is_space c = true) (list_ascii_of_string s).
Proof.
  unfold strip. rewrite rstrip_empty.
  destruct (lstrip_suffix s) as (p & Hp & Hsp). split.
  - intros H. rewrite Hp.
    assert (Happ : forall a b, list_ascii_of_string (a ++ b)
                   = (list_ascii_of_string a ++ list_ascii_of_string b)%list).
    { induction a as [|x a IHa]; intros b; simpl; [reflexivity | now rewrite IHa]. }
    rewrite Happ. apply List.Forall_app. split; assumption.
  - intros H. apply lstrip_all_space in H. rewrite H. constructor.
Qed.
End StripFacts.

(** ** Extractor: pages and blocks *)

Section ExtractorResults.
Import Ingest Main Extraction.

Lemma extract_block_Some (j : nat) (raw : RawBlock) (b : DataBlock) :
  extract_block j raw = Some b <->
  raw_type raw = Some 0 /\ strip (block_text raw) <> EmptyString /\
  b = mkDataBlock (strip (block_text raw)) (Z.of_nat j + 1)
        (default (0%Q, 0%Q, 0%Q, 0%Q) (raw_bbox raw)).
Proof.
  unfold extract_block. destruct (raw_type raw) as [[| |]|].
  - destruct (strip (block_text raw)) eqn:Hs.
    + split; [discriminate | intros (_ & H & _); congruence].
    + split; [intros [= <-]; repeat split; discriminate
             | intros (_ & _ & ->); reflexivity].
  - split; [discriminate | intros (H & _); discriminate].
  - split; [discriminate | intros (H & _); discriminate].
  - split; [discriminate | intros (H & _); discriminate].
Qed.

Lemma extract_block_is_text (j : nat) (raw : RawBlock) :
  is_Some (extract_block j raw) <-> is_text_block raw = true.
Proof.
  unfold extract_block, is_text_block. destruct (raw_type raw) as [[| |]|];
    try (split; [intros [x Hx]; discriminate | discriminate]).
  destruct (strip (block_text raw)); simpl.
  - split; [intros [x Hx]; discriminate | discriminate].
  - split; [reflexivity | eauto].
Qed.

Lemma In_extract_page (j : nat) (page : RawPage) (b : DataBlock) :
  In b (extract_page j page) <->
  exists raw, In raw (default [] (raw_blocks page)) /\ extract_block j raw = Some b.
Proof.
  unfold extract_page. rewrite <- list_elem_of_In, list_elem_of_omap.
  split; intros (raw & H1 & H2); exists raw; split; auto; now apply list_elem_of_In.
Qed.

Lemma length_extract_page (j : nat) (page : RawPage) :
  List.length (extract_page j page)
    = List.length (List.filter is_text_block (default [] (raw_blocks page))).
Proof.
  unfold extract_page. induction (default [] (raw_blocks page)) as [|raw l IH];
    [reflexivity|].
  simpl. pose proof (extract_block_is_text j raw) as Hiff.
  destruct (extract_block j raw) as [b|]; destruct (is_text_block raw); simpl.
  - f_equal. exact IH.
  - destruct Hiff as [Hiff _]. specialize (Hiff ltac:(eauto)). discriminate.
  - destruct Hiff as [_ Hiff]. destruct (Hiff eq_refl) as [x Hx]. discriminate.
  - exact IH.
Qed.

(** The blocks of a page: one per raw text block, in order. *)
Lemma extract_page_expected (j : nat) (page : RawPage) :
  extract_page j page
    = map (block_of j) (List.filter is_text_block (default [] (raw_blocks page))).
Proof.
  unfold extract_page. induction (default [] (raw_blocks page)) as [|raw l IH];
    [reflexivity|].
  simpl. pose proof (extract_block_is_text j raw) as Hiff.
  destruct (extract_block j raw) as [b|] eqn:Hb; destruct (is_text_block raw); simpl.
  - f_equal; [|exact IH]. apply extract_block_Some in Hb as (_ & _ & ->). reflexivity.
  - destruct Hiff as [Hiff _]. specialize (Hiff ltac:(eauto)). discriminate.
  - destruct Hiff as [_ Hiff]. destruct (Hiff eq_refl) as [x Hx]. discriminate.
  - exact IH.
Qed.

(** The block accumulator after the loop: what it held, then the blocks of
    each page in page order. *)
Lemma extract_pages_blocks (doc : list RawPage) (i : nat) (bs : list DataBlock)
    (dims : gmap Z PageDimensions) :
  fst (extract_pages i doc bs dims)
    = bs ++ concat (imap (fun j page => extract_page (i + j) page) doc).
Proof.
  revert i bs dims. induction doc as [|page rest IH]; intros i bs dims; simpl.
  - now rewrite app_nil_r.
  - rewrite IH, <- app_assoc, Nat.add_0_r. do 3 f_equal.
    apply imap_ext. intros j p _. simpl. f_equal. lia.
Qed.

(** The dimension dictionary after the loop. *)
Lemma extract_pages_dimensions (doc : list RawPage) (i : nat) (bs : list DataBlock)
    (dims : gmap Z PageDimensions) (k : Z) :
  snd (extract_pages i doc bs dims) !! k =
    if decide (Z.of_nat i + 1 <= k <= Z.of_nat i + Z.of_nat (List.length doc))
    then (fun page => mkPageDimensions (rect_width page) (rect_height page))
           <$> doc !! Z.to_nat (k - Z.of_nat i - 1)
    else dims !! k.
Proof.
  revert i bs dims. induction doc as [|page rest IH]; intros i bs dims; simpl.
  - case_decide; [lia | reflexivity].
  - rewrite IH. repeat case_decide; try lia.
    + replace (Z.to_nat (k - Z.of_nat i - 1)) with (S (Z.to_nat (k - Z.of_nat (S i) - 1)))
        by lia. reflexivity.
    + assert (k = Z.of_nat i + 1) as -> by lia.
      rewrite lookup_insert_eq. replace (Z.to_nat _) with 0%nat by lia. reflexivity.
    + rewrite lookup_insert_ne by lia. reflexivity.
Qed.

Lemma extract_pages_size (doc : list RawPage) (i : nat) (bs : list DataBlock)
    (dims : gmap Z PageDimensions) :
  (forall k, Z.of_nat i < k -> dims !! k = None) ->
  size (snd (extract_pages i doc bs dims)) = (size dims + List.length doc)%nat.
Proof.
  revert i bs dims. induction doc as [|page rest IH]; intros i bs dims Hfresh; simpl.
  - lia.
  - rewrite IH.
    + rewrite map_size_insert_None by (apply Hfresh; lia). lia.
    + intros k Hk. rewrite lookup_insert_ne by lia. apply Hfresh. lia.
Qed.
End ExtractorResults.

Section ExtractorTheorems.
Import Ingest Main Extraction.

Lemma StronglySorted_app_le (l1 l2 : list Z) :
  StronglySorted Z.le l1 -> StronglySorted Z.le l2 ->
  (forall x y, In x l1 -> In y l2 -> x <= y) ->
  StronglySorted Z.le (l1 ++ l2).
Proof.
  intros H1 H2 H12. induction H1 as [|x l1 Hs IH Hx]; simpl; [exact H2|].
  constructor.
  - apply IH. intros a b Ha Hb. apply H12; [now right | exact Hb].
  - apply List.Forall_app. split; [exact Hx|].
    apply List.Forall_forall. intros y Hy. apply H12; [now left | exact Hy].
Qed.

Lemma extract_page_pages (j : nat) (rawpage : RawPage) (b : DataBlock) :
  In b (extract_page j rawpage) -> page b = Z.of_nat j + 1.
Proof.
  intros Hb. apply In_extract_page in Hb as (raw & _ & Hb).
  apply extract_block_Some in Hb as (_ & _ & ->). reflexivity.
Qed.

Lemma In_page_blocks (doc : list RawPage) (i : nat) (b : DataBlock) :
  In b (concat (imap (fun j rawpage => extract_page (i + j) rawpage) doc)) ->
  exists j rawpage, doc !! j = Some rawpage /\ In b (extract_page (i + j) rawpage).
Proof.
  revert i. induction doc as [|rawpage rest IH]; intros i; simpl; [intros []|].
  intros Hb. apply in_app_or in Hb as [Hb|Hb].
  - exists 0%nat, rawpage. split; [reflexivity | exact Hb].
  - rewrite (imap_ext _ (fun j p => extract_page (S i + j) p)) in Hb
      by (intros j p _; simpl; f_equal; lia).
    apply IH in Hb as (j & p & Hj & Hb). exists (S j), p. split; [exact Hj|].
    replace (i + S j)%nat with (S i + j)%nat by lia. exact Hb.
Qed.

Lemma page_blocks_sorted (doc : list RawPage) (i : nat) :
  StronglySorted Z.le
    (map page (concat (imap (fun j rawpage => extract_page (i + j) rawpage) doc))).
Proof.
  revert i. induction doc as [|rawpage rest IH]; intros i; simpl; [constructor|].
  rewrite (imap_ext _ (fun j p => extract_page (S i + j) p))
    by (intros j p _; simpl; f_equal; lia).
  rewrite map_app. apply StronglySorted_app_le.
  - rewrite Nat.add_0_r.
    assert (Hall : forall b, In b (extract_page i rawpage) -> page b = Z.of_nat i + 1)
      by (intros b; apply extract_page_pages).
    induction (extract_page i rawpage) as [|b l IHl]; simpl; [constructor|].
    constructor; [apply IHl; intros; apply Hall; now right|].
    apply List.Forall_forall. intros y Hy. apply in_map_iff in Hy as (b' & <- & Hb').
    rewrite (Hall b) by now left. rewrite (Hall b') by now right. lia.
  - apply IH.
  - intros x y Hx Hy. apply in_map_iff in Hx as (b & <- & Hb).
    apply in_map_iff in Hy as (b' & <- & Hb').
    rewrite Nat.add_0_r in Hb. apply extract_page_pages in Hb.
    apply In_page_blocks in Hb' as (j & p & _ & Hb'). apply extract_page_pages in Hb'.
    lia.
Qed.

Lemma page_blocks_length (doc : list RawPage) (i : nat) :
  List.length (concat (imap (fun j rawpage => extract_page (i + j) rawpage) doc))
    = List.length (List.filter is_text_block
                     (concat (map (fun rawpage => default [] (raw_blocks rawpage)) doc))).
Proof.
  revert i. induction doc as [|rawpage rest IH]; intros i; simpl; [reflexivity|].
  rewrite List.filter_app, !List.length_app, length_extract_page. f_equal.
  rewrite (imap_ext _ (fun j p => extract_page (S i + j) p))
    by (intros j p _; simpl; f_equal; lia).
  apply IH.
Qed.

(** X1.  Pages are numbered from 1: the dimension dictionary has exactly the keys
    [1 .. len(doc)], and key [k] holds the width and height of the [k]-th
    page of the document. *)
Theorem extract_text_blocks_page_dimensions (doc : list RawPage) :
  exists blocks dims,
    extract_text_blocks (Returned doc) = Returned (blocks, dims) /\
    size dims = List.length doc /\
    forall k : Z,
      dims !! k =
        if decide (1 <= k <= Z.of_nat (List.length doc))
        then (fun rawpage => mkPageDimensions (rect_width rawpage) (rect_height rawpage))
               <$> doc !! Z.to_nat (k - 1)
        else None.
Proof.
  unfold extract_text_blocks.
  destruct (extract_pages 0 doc [] ∅) as [blocks dims] eqn:Hex.
  exists blocks, dims. split; [reflexivity|]. split.
  - replace dims with (snd (extract_pages 0 doc [] ∅)) by now rewrite Hex.
    rewrite extract_pages_size by (intros; apply lookup_empty).
    rewrite map_size_empty. reflexivity.
  - intros k. replace dims with (snd (extract_pages 0 doc [] ∅)) by now rewrite Hex.
    rewrite extract_pages_dimensions. simpl.
    repeat case_decide; try lia; [|apply lookup_empty].
    do 2 f_equal. lia.
Qed.

(** X2.  The extracted blocks are exactly these, in this order: page after
    page, one block for each raw block of the page that has type 0 and a
    text that is not blank, in the order of the raw blocks, with the
    stripped text, the page number counted from 1 and the bounding box of
    that raw block.  So no raw text block is lost or repeated.  Every
    extracted block has a text that is not empty and neither starts nor
    ends with white space and a page number between 1 and the number of
    pages, and blocks come out in page order. *)
Theorem extract_text_blocks_blocks (doc : list RawPage) :
  exists blocks dims,
    extract_text_blocks (Returned doc) = Returned (blocks, dims) /\
    blocks = expected_blocks doc /\
    (forall b, In b blocks ->
       text b <> EmptyString /\
       (forall c r, text b = String c r -> is_space c = false) /\
       (forall r c, text b = (r ++ String c EmptyString)%string -> is_space c = false) /\
       1 <= page b <= Z.of_nat (List.length doc) /\
       exists rawpage raw,
         doc !! Z.to_nat (page b - 1) = Some rawpage /\
         In raw (default [] (raw_blocks rawpage)) /\
         raw_type raw = Some 0 /\
         text b = strip (block_text raw) /\
         bbox b = default (0%Q, 0%Q, 0%Q, 0%Q) (raw_bbox raw)) /\
    List.length blocks
      = List.length (List.filter is_text_block
                       (concat (map (fun rawpage => default [] (raw_blocks rawpage)) doc))) /\
    StronglySorted Z.le (map page blocks).
Proof.
  unfold extract_text_blocks.
  destruct (extract_pages 0 doc [] ∅) as [blocks dims] eqn:Hex.
  exists blocks, dims. split; [reflexivity|].
  assert (Hblocks : blocks
            = concat (imap (fun j rawpage => extract_page (0 + j) rawpage) doc)).
  { replace blocks with (fst (extract_pages 0 doc [] ∅)) by now rewrite Hex.
    now rewrite extract_pages_blocks. }
  split; [|split; [|split]].
  - rewrite Hblocks. unfold expected_blocks. f_equal.
    apply imap_ext. intros j rawpage _. apply extract_page_expected.
  - intros b Hb. rewrite Hblocks in Hb.
    apply In_page_blocks in Hb as (j & rawpage & Hj & Hb). simpl in Hb.
    apply In_extract_page in Hb as (raw & Hraw & Hb).
    apply extract_block_Some in Hb as (Htype & Hne & ->). simpl.
    destruct (strip_trimmed (block_text raw)) as (_ & Hhead & Hlast).
    split; [exact Hne|]. split; [exact Hhead|]. split; [exact Hlast|].
    pose proof (lookup_lt_Some _ _ _ Hj) as Hlt.
    split; [lia|]. exists rawpage, raw.
    replace (Z.to_nat (Z.of_nat j + 1 - 1)) with j by lia. auto.
  - rewrite Hblocks. apply page_blocks_length.
  - rewrite Hblocks. apply page_blocks_sorted.
Qed.
End ExtractorTheorems.


(** ** Chunker: number of chunks and reassembly *)

Section ChunkerCounts.
Import Ingest ChunkSpec.

Variables (max_chars overlap_chars : Z).
Hypothesis overlap_range : 0 <= overlap_chars < max_chars.

Lemma windows_length (n : Z) (fuel : nat) (start : Z) :
  start < n -> (Z.to_nat (n - start) < fuel)%nat ->
  Z.of_nat (List.length (windows fuel n max_chars overlap_chars start))
    = Z.max 1 (chunk_count (n - start) max_chars overlap_chars).
Proof.
  unfold chunk_count. set (step := max_chars - overlap_chars).
  assert (Hstep : 0 < step) by (subst step; lia).
  revert start. induction fuel as [|fuel IH]; intros start Hs Hfuel; [lia|].
  rewrite windows_step by assumption. cbn [List.length].
  unfold next_start, window_end.
  destruct (Z.ltb_spec (Z.min (start + max_chars) n) n) as [He|He].
  - replace (Z.min (start + max_chars) n - overlap_chars) with (start + step)
      by (subst step; lia).
    rewrite Nat2Z.inj_succ, IH by (subst step; lia).
    replace (n - start - overlap_chars + step - 1)
      with ((n - (start + step) - overlap_chars + step - 1) + 1 * step) by lia.
    rewrite Z.div_add by lia.
    assert (1 <= (n - (start + step) - overlap_chars + step - 1) / step).
    { apply Z.div_le_lower_bound; subst step; lia. }
    lia.
  - rewrite windows_done by lia. simpl.
    assert ((n - start - overlap_chars + step - 1) / step < 2).
    { apply Z.div_lt_upper_bound; subst step; lia. }
    lia.
Qed.

Lemma append_empty_r (s : string) : (s ++ EmptyString)%string = s.
Proof.
  induction s as [|c s IH]; [reflexivity|].
  change (String c (s ++ EmptyString)%string = String c s). now rewrite IH.
Qed.

Lemma substring_app (s : string) (n m1 m2 : nat) :
  (n + m1 <= String.length s)%nat ->
  (substring n m1 s ++ substring (n + m1) m2 s)%string = substring n (m1 + m2) s.
Proof.
  intros Hlen. apply get_correct. intros p.
  assert (Hl1 : String.length (substring n m1 s) = m1)
    by (rewrite substring_length; lia).
  destruct (Nat.lt_ge_cases p m1) as [Hp|Hp].
  - rewrite <- append_correct1 by lia.
    rewrite !substring_correct1 by lia. reflexivity.
  - replace p with ((p - m1) + String.length (substring n m1 s))%nat at 1 by lia.
    rewrite <- append_correct2.
    destruct (Nat.lt_ge_cases p (m1 + m2)) as [Hp2|Hp2].
    + rewrite !substring_correct1 by lia. f_equal. lia.
    + rewrite !substring_correct2 by lia. reflexivity.
Qed.

Lemma py_slice_app (s : string) (a b c : Z) :
  0 <= a <= b -> b <= c <= slen s ->
  (py_slice s a b ++ py_slice s b c)%string = py_slice s a c.
Proof.
  intros Ha Hb. rewrite !py_slice_inside by lia.
  replace (Z.to_nat b) with (Z.to_nat a + Z.to_nat (b - a))%nat by lia.
  rewrite substring_app by (unfold slen in *; lia). f_equal. lia.
Qed.

(** Gluing the windows of the loop, each later one from [overlap_chars]
    after its start, gives the text from the first start to the end. *)
Lemma windows_reassemble (t : string) (fuel : nat) (start a : Z) :
  0 <= start <= a -> start < slen t -> a <= window_end (slen t) max_chars start ->
  (Z.to_nat (slen t - start) < fuel)%nat ->
  match windows fuel (slen t) max_chars overlap_chars start with
  | [] => False
  | w :: rest =>
      (py_slice t a (snd w) ++
       fold_right (fun w' acc => py_slice t (fst w' + overlap_chars) (snd w') ++ acc)
         EmptyString rest)%string = py_slice t a (slen t)
  end.
Proof.
  revert start a. induction fuel as [|fuel IH]; intros start a Ha Hs Hae Hfuel; [lia|].
  rewrite windows_step by assumption. cbn [snd].
  pose proof (next_start_advances max_chars overlap_chars ltac:(lia) _ _ Hs) as Hadv.
  set (e := window_end (slen t) max_chars start) in *.
  set (nxt := next_start (slen t) overlap_chars e) in *.
  assert (He : e <= slen t) by (subst e; unfold window_end; lia).
  destruct (Z.lt_ge_cases nxt (slen t)) as [Hn|Hn].
  - assert (Hnxt : nxt = e - overlap_chars /\ e < slen t).
    { subst nxt. unfold next_start in *. destruct (Z.ltb_spec e (slen t)); lia. }
    destruct Hnxt as [Hnxt Helt].
    specialize (IH nxt e ltac:(lia) Hn
                  ltac:(unfold window_end; subst e; unfold window_end in *; lia)
                  ltac:(lia)).
    destruct (windows fuel (slen t) max_chars overlap_chars nxt) as [|w rest] eqn:Hw;
      [contradiction|].
    assert (Hfst : fst w = nxt).
    { destruct fuel; [discriminate|]. rewrite windows_step in Hw by assumption.
      now inversion Hw. }
    cbn [fold_right]. rewrite Hfst, Hnxt.
    replace (e - overlap_chars + overlap_chars) with e by lia.
    rewrite IH. apply py_slice_app; lia.
  - rewrite windows_done by assumption. cbn [fold_right].
    assert (e = slen t).
    { subst nxt. unfold next_start in *. destruct (Z.ltb_spec e (slen t)); lia. }
    subst e. rewrite H. apply append_empty_r.
Qed.
End ChunkerCounts.

Section ChunkerRoundTrip.
Import Ingest ChunkSpec.

Lemma windows_tail_wide (max_chars overlap_chars n : Z) (fuel : nat) (start : Z)
    (w : Z * Z) :
  0 <= overlap_chars < max_chars -> 0 <= start ->
  In w (tail (windows fuel n max_chars overlap_chars start)) ->
  0 <= fst w /\ fst w + overlap_chars <= snd w <= n.
Proof.
  intros Hov. revert start. induction fuel as [|fuel IH]; intros start H0 Hin;
    [destruct Hin|].
  simpl in Hin. destruct (Z.ltb_spec start n) as [Hs|Hs]; [|destruct Hin].
  cbn [tail] in Hin.
  pose proof (next_start_advances max_chars overlap_chars ltac:(lia) _ _ Hs) as Hadv.
  set (nxt := next_start n overlap_chars (window_end n max_chars start)) in *.
  destruct fuel as [|fuel']; [destruct Hin|].
  destruct (Z.lt_ge_cases nxt n) as [Hn|Hn].
  - rewrite windows_step in Hin by (assumption || lia).
    destruct Hin as [<-|Hin].
    + simpl. subst nxt. unfold next_start, window_end in *.
      destruct (Z.ltb_spec (Z.min (start + max_chars) n) n); lia.
    + apply (IH nxt); [lia|]. rewrite windows_step by (assumption || lia). exact Hin.
  - rewrite windows_done in Hin by assumption. destruct Hin.
Qed.

Lemma fold_drop_overlap (block : DataBlock) (overlap_chars : Z) (ws : list (Z * Z)) :
  0 <= overlap_chars ->
  (forall w, In w ws -> 0 <= fst w /\ fst w + overlap_chars <= snd w <= slen (text block)) ->
  fold_right (fun c acc => drop_overlap overlap_chars c ++ acc)%string EmptyString
    (map (chunk_of block) ws)
  = fold_right (fun w acc => py_slice (text block) (fst w + overlap_chars) (snd w) ++ acc)%string
      EmptyString ws.
Proof.
  intros Hov Hall. induction ws as [|w ws IH]; [reflexivity|].
  cbn [map fold_right]. rewrite IH by (intros; apply Hall; now right).
  f_equal. destruct (Hall w ltac:(now left)) as (H0 & H1 & H2).
  unfold drop_overlap, chunk_of. cbn [text].
  rewrite slen_py_slice by lia.
  rewrite py_slice_py_slice by lia. f_equal. lia.
Qed.

(** The round trip for one block, chunked alone. *)
Lemma reassemble_of_block (block : DataBlock)
    (max_chars overlap_chars : Z) (fuel : nat) :
  0 <= overlap_chars < max_chars ->
  (fuel_for [block] <= fuel)%nat ->
  exists chunks,
    chunk_text_blocks fuel [block] max_chars overlap_chars = Some chunks /\
    reassemble overlap_chars chunks = text block.
Proof.
  intros Hov Hfuel.
  rewrite (chunk_text_blocks_groups max_chars overlap_chars ltac:(lia) [block] fuel Hfuel).
  cbn [List.map concat]. rewrite app_nil_r. eexists. split; [reflexivity|].
  unfold block_windows.
  destruct (Z.leb_spec (slen (text block)) max_chars) as [Hsmall|Hlarge].
  - cbn [List.map reassemble fold_right]. rewrite chunk_of_whole. apply append_empty_r.
  - pose proof (slen_nonneg (text block)) as Hn.
    assert (Hf : (Z.to_nat (slen (text block) - 0) < fuel)%nat).
    { unfold fuel_for in Hfuel. simpl in Hfuel. unfold slen. lia. }
    pose proof (windows_reassemble max_chars overlap_chars Hov (text block) fuel 0 0
                  ltac:(lia) ltac:(lia) ltac:(unfold window_end; lia) Hf) as Hre.
    pose proof (windows_tail_wide max_chars overlap_chars (slen (text block)) fuel 0)
      as Hwide.
    destruct (windows fuel (slen (text block)) max_chars overlap_chars 0)
      as [|w rest] eqn:Hw; [contradiction|].
    assert (Hfst : fst w = 0).
    { destruct fuel; [discriminate|]. rewrite windows_step in Hw by lia.
      now inversion Hw. }
    cbn [List.map reassemble]. rewrite fold_drop_overlap.
    + unfold chunk_of at 1. cbn [text]. rewrite Hfst, Hre. apply py_slice_all.
    + lia.
    + intros w' Hw'. apply Hwide; [assumption | lia | exact Hw'].
Qed.

(** X3.  Round trip.  With [0 <= overlap_chars < max_chars], the chunks of
    any block of the input, whatever blocks come before and after it, give
    the block's text back: the first chunk, followed by every later chunk
    without its first [overlap_chars] characters.  The chunks of the block
    are what the output holds between the output for the blocks before it
    and the output for the blocks after it. *)
Theorem chunk_text_blocks_reassemble (before after : list DataBlock)
    (block : DataBlock) (max_chars overlap_chars : Z) (fuel : nat) :
  0 <= overlap_chars < max_chars ->
  (fuel_for (before ++ block :: after) <= fuel)%nat ->
  exists out_before chunks out_after,
    chunk_text_blocks fuel (before ++ block :: after) max_chars overlap_chars
      = Some (out_before ++ chunks ++ out_after) /\
    chunk_text_blocks fuel before max_chars overlap_chars = Some out_before /\
    chunk_text_blocks fuel after max_chars overlap_chars = Some out_after /\
    reassemble overlap_chars chunks = text block.
Proof.
  intros Hov Hfuel.
  destruct (chunk_text_blocks_context max_chars overlap_chars ltac:(lia)
              before after block fuel Hfuel)
    as (Hone & out_before & chunks & out_after & Hall & Hbefore & Hblock & Hafter).
  destruct (reassemble_of_block block max_chars overlap_chars fuel Hov Hone)
    as (chunks' & Hchunks & Htext).
  rewrite Hblock in Hchunks. inversion Hchunks; subst chunks'.
  exists out_before, chunks, out_after. auto.
Qed.

Lemma chunk_text_blocks_reassemble_witness :
  exists out_before chunks out_after,
    chunk_text_blocks 11 ([Samples.two_letters] ++ Samples.ten_letters
                            :: [Samples.three_letters]) 5 2
      = Some (out_before ++ chunks ++ out_after) /\
    chunk_text_blocks 11 [Samples.two_letters] 5 2 = Some out_before /\
    chunk_text_blocks 11 [Samples.three_letters] 5 2 = Some out_after /\
    reassemble 2 chunks = text Samples.ten_letters.
Proof.
  apply (chunk_text_blocks_reassemble [Samples.two_letters] [Samples.three_letters]
           Samples.ten_letters 5 2 11).
  - lia.
  - vm_compute. lia.
Defined.

(** The number of chunks of one oversized block, chunked alone. *)
Lemma count_of_block (block : DataBlock)
    (max_chars overlap_chars : Z) (fuel : nat) :
  0 <= overlap_chars < max_chars ->
  max_chars < slen (text block) ->
  (fuel_for [block] <= fuel)%nat ->
  exists chunks,
    chunk_text_blocks fuel [block] max_chars overlap_chars = Some chunks /\
    Z.of_nat (List.length chunks)
      = chunk_count (slen (text block)) max_chars overlap_chars /\
    2 <= chunk_count (slen (text block)) max_chars overlap_chars.
Proof.
  intros Hov Hlong Hfuel.
  rewrite (chunk_text_blocks_groups max_chars overlap_chars ltac:(lia) [block] fuel Hfuel).
  cbn [List.map concat]. rewrite app_nil_r. eexists. split; [reflexivity|].
  unfold block_windows. destruct (Z.leb_spec (slen (text block)) max_chars); [lia|].
  assert (Hf : (Z.to_nat (slen (text block) - 0) < fuel)%nat).
  { unfold fuel_for in Hfuel. simpl in Hfuel. unfold slen. lia. }
  rewrite length_map, (windows_length max_chars overlap_chars Hov) by lia.
  rewrite Z.sub_0_r.
  assert (2 <= chunk_count (slen (text block)) max_chars overlap_chars).
  { unfold chunk_count. apply Z.div_le_lower_bound; lia. }
  lia.
Qed.

(** X4.  With [0 <= overlap_chars < max_chars], a block of the input whose
    text length [L] exceeds [max_chars] is cut, whatever blocks come before
    and after it, into exactly
    [ceil((L - overlap_chars) / (max_chars - overlap_chars))] chunks, and
    these are at least two. *)
Theorem chunk_text_blocks_count (before after : list DataBlock) (block : DataBlock)
    (max_chars overlap_chars : Z) (fuel : nat) :
  0 <= overlap_chars < max_chars ->
  max_chars < slen (text block) ->
  (fuel_for (before ++ block :: after) <= fuel)%nat ->
  exists out_before chunks out_after,
    chunk_text_blocks fuel (before ++ block :: after) max_chars overlap_chars
      = Some (out_before ++ chunks ++ out_after) /\
    chunk_text_blocks fuel before max_chars overlap_chars = Some out_before /\
    chunk_text_blocks fuel after max_chars overlap_chars = Some out_after /\
    Z.of_nat (List.length chunks)
      = chunk_count (slen (text block)) max_chars overlap_chars /\
    2 <= chunk_count (slen (text block)) max_chars overlap_chars.
Proof.
  intros Hov Hlong Hfuel.
  destruct (chunk_text_blocks_context max_chars overlap_chars ltac:(lia)
              before after block fuel Hfuel)
    as (Hone & out_before & chunks & out_after & Hall & Hbefore & Hblock & Hafter).
  destruct (count_of_block block max_chars overlap_chars fuel Hov Hlong Hone)
    as (chunks' & Hchunks & Hcount & Htwo).
  rewrite Hblock in Hchunks. inversion Hchunks; subst chunks'.
  exists out_before, chunks, out_after. auto 6.
Qed.

Lemma chunk_text_blocks_count_witness :
  exists out_before chunks out_after,
    chunk_text_blocks 11 ([Samples.two_letters] ++ Samples.ten_letters
                            :: [Samples.three_letters]) 5 2
      = Some (out_before ++ chunks ++ out_after) /\
    chunk_text_blocks 11 [Samples.two_letters] 5 2 = Some out_before /\
    chunk_text_blocks 11 [Samples.three_letters] 5 2 = Some out_after /\
    Z.of_nat (List.length chunks)
      = chunk_count (slen (text Samples.ten_letters)) 5 2 /\
    2 <= chunk_count (slen (text Samples.ten_letters)) 5 2.
Proof.
  apply (chunk_text_blocks_count [Samples.two_letters] [Samples.three_letters]
           Samples.ten_letters 5 2 11).
  - lia.
  - vm_compute. reflexivity.
  - vm_compute. lia.
Defined.
End ChunkerRoundTrip.

(** ** Vector index: isolation, reset, result shape *)

Section IndexIsolation.
Import Ingest VectorStore.

Lemma append_inj_r (p a b : string) : (p ++ a)%string = (p ++ b)%string -> a = b.
Proof.
  induction p as [|c p IH]; [auto|].
  change (String c (p ++ a)%string = String c (p ++ b)%string -> a = b).
  intros H. inversion H. auto.
Qed.

Lemma collection_name_inj (a b : string) :
  collection_name a = collection_name b -> a = b.
Proof. apply append_inj_r. Qed.

Lemma get_collection_create_other (sid sid' : string) (st : Store) :
  sid <> sid' ->
  get_collection sid' (fst (create_collection sid st)) = get_collection sid' st.
Proof.
  intros Hne.
  assert (Hn : collection_name sid <> collection_name sid')
    by (intros H; now apply collection_name_inj in H).
  rewrite create_collection_spec. unfold get_collection.
  destruct (valid_collection_name (collection_name sid)); cbn [fst].
  - now rewrite lookup_insert_ne, lookup_delete_ne.
  - now rewrite lookup_delete_ne.
Qed.

Lemma get_collection_delete_other (sid sid' : string) (st : Store) :
  sid <> sid' ->
  get_collection sid' (fst (delete_collection sid st)) = get_collection sid' st.
Proof.
  intros Hne.
  assert (Hn : collection_name sid <> collection_name sid')
    by (intros H; now apply collection_name_inj in H).
  unfold get_collection, delete_collection, client_delete_collection.
  destruct (st !! collection_name sid); simpl; [now rewrite lookup_delete_ne | reflexivity].
Qed.

Lemma get_collection_add_other (policy : DupPolicy) (sid sid' : string)
    (blocks : list DataBlock) (embeddings : list Embedding) (st : Store) :
  sid <> sid' ->
  get_collection sid' (fst (add_documents policy sid blocks embeddings st))
    = get_collection sid' st.
Proof.
  intros Hne.
  assert (Hn : collection_name sid <> collection_name sid')
    by (intros H; now apply collection_name_inj in H).
  assert (Hbody : forall st1,
    get_collection sid' st1 = get_collection sid' st ->
    get_collection sid'
      (fst (let collection := default [] (st1 !! collection_name sid) in
            if negb (Nat.eqb (List.length blocks) (List.length embeddings)) then
              (st1, Raised (ValueError "batch lists differ in length"))
            else
              match collection_add policy collection (records_from 0 blocks embeddings) with
              | Returned c' => (<[collection_name sid := c']> st1, Returned tt)
              | Raised e => (st1, Raised e)
              end)) = get_collection sid' st).
  { intros st1 H1. cbv zeta. destruct (negb _); [exact H1|].
    destruct (collection_add _ _ _); cbn [fst]; [|exact H1].
    unfold get_collection in *. now rewrite lookup_insert_ne. }
  unfold add_documents. destruct (get_collection sid st).
  - now apply Hbody.
  - pose proof (get_collection_create_other sid sid' st Hne) as Hcreate.
    destruct (create_collection sid st) as [st1 [[]|e]]; cbn [fst] in Hcreate.
    + now apply Hbody.
    + exact Hcreate.
Qed.

(** X5.  Isolation.  Creating, filling or deleting the collection of one session
    leaves the collection of every other session as it is, and with it the
    answer of [query] on that other session. *)
Theorem vector_store_isolation (distance : Embedding -> Embedding -> Q)
    (policy : DupPolicy) (sid sid' : string) (blocks : list DataBlock)
    (embeddings : list Embedding) (q : Embedding) (top_k : Z) (st : Store) :
  sid <> sid' ->
  let after_create := fst (create_collection sid st) in
  let after_add := fst (add_documents policy sid blocks embeddings st) in
  let after_delete := fst (delete_collection sid st) in
  get_collection sid' after_create = get_collection sid' st /\
  get_collection sid' after_add = get_collection sid' st /\
  get_collection sid' after_delete = get_collection sid' st /\
  query distance sid' q top_k after_create = query distance sid' q top_k st /\
  query distance sid' q top_k after_add = query distance sid' q top_k st /\
  query distance sid' q top_k after_delete = query distance sid' q top_k st.
Proof.
  intros Hne. cbv zeta.
  pose proof (get_collection_create_other sid sid' st Hne) as H1.
  pose proof (get_collection_add_other policy sid sid' blocks embeddings st Hne) as H2.
  pose proof (get_collection_delete_other sid sid' st Hne) as H3.
  unfold query. rewrite H1, H2, H3. repeat split; reflexivity.
Qed.

Lemma vector_store_isolation_witness :
  let st := fst (add_documents IgnoreExisting "s2" [Samples.two_letters]
                   [Samples.unit_embedding] ∅) in
  let after_create := fst (create_collection "s1" st) in
  let after_add := fst (add_documents IgnoreExisting "s1" [Samples.ten_letters]
                          [Samples.unit_embedding] st) in
  let after_delete := fst (delete_collection "s1" st) in
  get_collection "s2" after_create = get_collection "s2" st /\
  get_collection "s2" after_add = get_collection "s2" st /\
  get_collection "s2" after_delete = get_collection "s2" st /\
  query Samples.zero_distance "s2" Samples.unit_embedding 3 after_create
    = query Samples.zero_distance "s2" Samples.unit_embedding 3 st /\
  query Samples.zero_distance "s2" Samples.unit_embedding 3 after_add
    = query Samples.zero_distance "s2" Samples.unit_embedding 3 st /\
  query Samples.zero_distance "s2" Samples.unit_embedding 3 after_delete
    = query Samples.zero_distance "s2" Samples.unit_embedding 3 st.
Proof.
  apply (vector_store_isolation Samples.zero_distance IgnoreExisting "s1" "s2"
           [Samples.ten_letters] [Samples.unit_embedding] Samples.unit_embedding 3).
  discriminate.
Defined.

(** X6.  Reset.  [create_collection] returns when the client accepts the
    collection's name.  However the call ends, the session holds no record
    afterwards, whatever it held before; when the call returns the session
    has an empty collection; and a query on the session with a positive
    [top_k] and a vector that is not empty finds nothing. *)
Theorem create_collection_resets (distance : Embedding -> Embedding -> Q)
    (sid : string) (q : Embedding) (top_k : Z) (st : Store) :
  (valid_collection_name (collection_name sid) = true ->
   exists st', create_collection sid st = (st', Returned tt)) /\
  (forall st' o, create_collection sid st = (st', o) ->
     records_of_session sid st' = [] /\
     (o = Returned tt -> get_collection sid st' = Some []) /\
     (0 < top_k -> q <> [] -> query distance sid q top_k st' = Returned [])).
Proof.
  split.
  - intros Hname. destruct (create_collection_fresh sid st Hname) as (st' & Hc & _). eauto.
  - intros st' o Hc. destruct o as [[]|e].
    + apply create_collection_returned in Hc as [_ Hcoll].
      unfold records_of_session, query. rewrite Hcoll.
      split; [reflexivity|]. split; [reflexivity|]. intros Hk Hq.
      unfold collection_query. destruct (Z.leb_spec top_k 0); [lia|].
      rewrite (check_embeddings_None [] [q] (List.length q)).
      * now rewrite firstn_nil.
      * discriminate.
      * split; [destruct q; [congruence | simpl; lia] | repeat constructor].
      * now left.
    + apply create_collection_raised in Hc.
      unfold records_of_session, query. rewrite Hc.
      split; [reflexivity|]. split; [discriminate | reflexivity].
Qed.

(** X7.  [list_collections] names each collection once, and a session's
    collection is listed exactly when [get_collection] finds it.  After
    [create_collection] the session's collection is listed exactly when the
    call returned, after [delete_collection] it is not listed, and in both
    cases every other name is listed as before. *)
Theorem list_collections_exact (sid : string) (st : Store) :
  List.NoDup (list_collections st) /\
  (forall sid', In (collection_name sid') (list_collections st)
                <-> is_Some (get_collection sid' st)) /\
  (forall st' o, create_collection sid st = (st', o) ->
     (In (collection_name sid) (list_collections st') <-> o = Returned tt) /\
     forall name, name <> collection_name sid ->
       (In name (list_collections st') <-> In name (list_collections st))) /\
  (let st' := fst (delete_collection sid st) in
   ~ In (collection_name sid) (list_collections st') /\
   forall name, name <> collection_name sid ->
     (In name (list_collections st') <-> In name (list_collections st))).
Proof.
  assert (Hin : forall (m : Store) name,
            In name (list_collections m) <-> is_Some (m !! name)).
  { intros m name. unfold list_collections. rewrite in_map_iff. split.
    - intros ([k c] & <- & Hkc). apply list_elem_of_In, elem_of_map_to_list in Hkc. eauto.
    - intros [c Hc]. exists (name, c). split; [reflexivity|].
      now apply list_elem_of_In, elem_of_map_to_list. }
  split; [unfold list_collections; apply NoDup_ListNoDup, NoDup_fst_map_to_list|].
  split; [intros sid'; apply Hin|]. split.
  - intros st' o Hc. rewrite create_collection_spec in Hc.
    destruct (valid_collection_name (collection_name sid)); inversion Hc; subst; split.
    + rewrite Hin, lookup_insert_eq. split; [reflexivity | eauto].
    + intros name Hne. now rewrite !Hin, lookup_insert_ne, lookup_delete_ne.
    + rewrite Hin, lookup_delete_eq. split; [intros [x Hx]; discriminate | discriminate].
    + intros name Hne. now rewrite !Hin, lookup_delete_ne.
  - cbv zeta. split.
    + rewrite Hin. pose proof (get_collection_deleted sid st) as Hgone.
      unfold get_collection in Hgone. rewrite Hgone. intros [x Hx]. discriminate.
    + intros name Hne. rewrite !Hin. unfold delete_collection, client_delete_collection.
      destruct (st !! collection_name sid); cbn [fst]; [|reflexivity].
      now rewrite lookup_delete_ne.
Qed.
End IndexIsolation.

Section QueryShape.
Import Ingest VectorStore.

Variable distance : Embedding -> Embedding -> Q.



Lemma query_shape (sid : string) (q : Embedding) (top_k : Z)
    (st : Store) (results : list QueryResult) :
  query distance sid q top_k st = Returned results ->
  List.length results
    = Nat.min (Z.to_nat top_k) (List.length (records_of_session sid st)) /\
  forall i r, results !! i = Some r ->
    res_id r = Z.of_nat i + 1 /\
    exists rec, In rec (records_of_session sid st) /\
      res_text r = rec_document rec /\
      res_page r = md_page (rec_metadata rec) /\
      res_bbox r = [md_bbox_x0 (rec_metadata rec); md_bbox_y0 (rec_metadata rec);
                    md_bbox_x1 (rec_metadata rec); md_bbox_y1 (rec_metadata rec)].
Proof.
  unfold query, records_of_session.
  destruct (get_collection sid st) as [c|]; cbn [default].
  - unfold collection_query. destruct (top_k <=? 0); [discriminate|].
    destruct (check_embeddings c [q]); [discriminate|].
    intros H. inversion H; subst. clear H. split.
    + rewrite length_imap, length_take, length_rank. reflexivity.
    + intros i r Hi. rewrite list_lookup_imap in Hi.
      destruct (take (Z.to_nat top_k) (rank distance q c) !! i) as [rec|] eqn:Hrec;
        [|discriminate].
      simpl in Hi. inversion Hi; subst. split; [reflexivity|].
      exists rec. split; [|auto].
      apply (In_rank distance q c rec).
      apply list_elem_of_lookup_2, elem_of_take in Hrec as (j & Hj & _).
      eapply lookup_In, Hj.
  - intros H. inversion H; subst. split; [simpl; lia|]. intros i r Hi. discriminate.
Qed.

(** X8.  Shape of the answer.  When [query] returns, it returns as many results
    as the smaller of [top_k] and the number of records of the session;
    the result at rank [i] (from 0) has id [i + 1] and carries the
    document, page and bbox of one stored record. *)
Theorem query_result_shape (sid : string) (q : Embedding) (top_k : Z)
    (st : Store) (results : list QueryResult) :
  query distance sid q top_k st = Returned results ->
  List.length results
    = Nat.min (Z.to_nat top_k) (List.length (records_of_session sid st)) /\
  forall i r, results !! i = Some r ->
    res_id r = Z.of_nat i + 1 /\
    exists rec, In rec (records_of_session sid st) /\
      res_text r = rec_document rec /\
      res_page r = md_page (rec_metadata rec) /\
      res_bbox r = [md_bbox_x0 (rec_metadata rec); md_bbox_y0 (rec_metadata rec);
                    md_bbox_x1 (rec_metadata rec); md_bbox_y1 (rec_metadata rec)].
Proof. apply query_shape. Qed.

End QueryShape.

Section QueryShapeExamples.
Import Ingest VectorStore.

Lemma query_result_shape_witness :
  List.length [format_result Samples.zero_distance Samples.unit_embedding 0
                 (record_of 0 Samples.long_block Samples.unit_embedding)]
    = Nat.min (Z.to_nat 3)
        (List.length (records_of_session "s1"
           (fst (add_documents IgnoreExisting "s1" [Samples.long_block]
                   [Samples.unit_embedding] ∅)))) /\
  forall i r,
    [format_result Samples.zero_distance Samples.unit_embedding 0
       (record_of 0 Samples.long_block Samples.unit_embedding)] !! i = Some r ->
    res_id r = Z.of_nat i + 1 /\
    exists rec,
      In rec (records_of_session "s1"
                (fst (add_documents IgnoreExisting "s1" [Samples.long_block]
                        [Samples.unit_embedding] ∅))) /\
      res_text r = rec_document rec /\
      res_page r = md_page (rec_metadata rec) /\
      res_bbox r = [md_bbox_x0 (rec_metadata rec); md_bbox_y0 (rec_metadata rec);
                    md_bbox_x1 (rec_metadata rec); md_bbox_y1 (rec_metadata rec)].
Proof.
  apply (query_result_shape Samples.zero_distance "s1" Samples.unit_embedding 3
           (fst (add_documents IgnoreExisting "s1" [Samples.long_block]
                   [Samples.unit_embedding] ∅))).
  vm_compute. reflexivity.
Defined.
End QueryShapeExamples.

Section AddThenQuery.
Import Ingest VectorStore.





End AddThenQuery.

(** ** Session registry: rows *)

Section RegistryRows.
Import Cleanup.

(** X10.  [register_session] is an upsert.  Afterwards the session has one row
    with the given file name and both time stamps set to the current one
    (also when the session was registered before: [created_at] is reset);
    the number of rows grows by one for a new session and stays for a known
    one; all other rows are untouched. *)
Theorem register_session_upsert (now : Z) (sid : string) (fn : option string)
    (reg : Registry) :
  let reg' := register_session now sid fn reg in
  reg' !! sid = Some (mkSession (current_timestamp now) (current_timestamp now) fn) /\
  (forall sid', sid' <> sid -> reg' !! sid' = reg !! sid') /\
  get_session_count reg'
    = match reg !! sid with
      | Some _ => get_session_count reg
      | None => get_session_count reg + 1
      end /\
  register_session now sid fn reg' = reg'.
Proof.
  cbv zeta. unfold register_session, get_session_count. split; [apply lookup_insert_eq|].
  split; [intros sid' Hne; now apply lookup_insert_ne|]. split.
  - rewrite map_size_insert. destruct (reg !! sid); simpl; lia.
  - apply insert_insert_eq.
Qed.

Lemma alter_as_insert (f : Session -> Session) (sid : string) (row : Session)
    (reg : Registry) :
  reg !! sid = Some row -> alter f sid reg = <[sid := f row]> reg.
Proof.
  intros Hrow. apply map_eq. intros k. rewrite lookup_alter, lookup_insert.
  case_decide; [subst; now rewrite Hrow | reflexivity].
Qed.

(** X11.  [update_session_access] changes one field of one row.  For a registered
    session only [last_accessed] changes, to the current time stamp;
    [created_at] and the file name stay.  For a session that is not
    registered the table is left exactly as it is: no row is created.  The
    number of rows never changes and other rows are untouched. *)
Theorem update_session_access_touches_one_field (now : Z) (sid : string)
    (reg : Registry) :
  let reg' := update_session_access now sid reg in
  (reg !! sid = None -> reg' = reg) /\
  (forall row, reg !! sid = Some row ->
     reg' !! sid = Some (mkSession (created_at row) (current_timestamp now)
                           (pdf_filename row))) /\
  (forall sid', sid' <> sid -> reg' !! sid' = reg !! sid') /\
  get_session_count reg' = get_session_count reg.
Proof.
  cbv zeta. unfold update_session_access, get_session_count.
  split; [apply alter_id'|]. split; [|split].
  - intros row Hrow. now rewrite lookup_alter_eq, Hrow.
  - intros sid' Hne. now apply lookup_alter_ne.
  - destruct (reg !! sid) as [row|] eqn:Hrow.
    + rewrite (alter_as_insert _ sid row) by assumption.
      rewrite map_size_insert_Some by eauto. reflexivity.
    + now rewrite alter_id'.
Qed.
End RegistryRows.


(** ** Teardown: isolation and idempotence *)

Section TeardownIsolation.
Import VectorStore Cleanup.

Lemma length_append (a b : string) :
  String.length (a ++ b)%string = (String.length a + String.length b)%nat.
Proof.
  induction a as [|c a IH]; [reflexivity|].
  change (S (String.length (a ++ b)%string) = S (String.length a + String.length b)).
  now rewrite IH.
Qed.

Lemma append_inj_l (a b s : string) : (a ++ s)%string = (b ++ s)%string -> a = b.
Proof.
  revert b. induction a as [|c a IH]; intros [|d b] H.
  - reflexivity.
  - apply (f_equal String.length) in H. rewrite !length_append in H. simpl in H. lia.
  - apply (f_equal String.length) in H. rewrite !length_append in H. simpl in H. lia.
  - change (String c (a ++ s)%string = String d (b ++ s)%string) in H.
    inversion H; subst. f_equal. now apply IH.
Qed.

Lemma pdf_path_inj (a b : string) : pdf_path a = pdf_path b -> a = b.
Proof.
  unfold pdf_path. intros H. apply append_inj_r in H. apply append_inj_r in H.
  now apply append_inj_l in H.
Qed.

Variable fault : string -> option TeardownStep.

Lemma delete_session_other (sid sid' : string) (w : World) :
  sid <> sid' ->
  sessions (fst (delete_session fault sid w)) !! sid' = sessions w !! sid' /\
  get_collection sid' (store (fst (delete_session fault sid w)))
    = get_collection sid' (store w) /\
  (pdf_path sid' ∈ temp_files (fst (delete_session fault sid w))
   <-> pdf_path sid' ∈ temp_files w).
Proof.
  intros Hne.
  assert (Hp : pdf_path sid' <> pdf_path sid)
    by (intros H; apply pdf_path_inj in H; congruence).
  pose proof (get_collection_delete_other sid sid' (store w) Hne) as Hc.
  assert (Hf : pdf_path sid' ∈ temp_files w ∖ {[ pdf_path sid ]}
               <-> pdf_path sid' ∈ temp_files w).
  { rewrite elem_of_difference, elem_of_singleton. tauto. }
  unfold delete_session. destruct (fault sid) as [[]|]; simpl;
    repeat split; try tauto; try assumption.
  now apply lookup_delete_ne.
Qed.

(** X12.  Isolation.  Whatever happens during the teardown of one session, every
    other session keeps its row, its collection and its temporary file. *)
Theorem delete_session_isolated (sid sid' : string) (w : World) :
  sid <> sid' ->
  let w' := fst (delete_session fault sid w) in
  sessions w' !! sid' = sessions w !! sid' /\
  get_collection sid' (store w') = get_collection sid' (store w) /\
  (pdf_path sid' ∈ temp_files w' <-> pdf_path sid' ∈ temp_files w).
Proof. intros Hne. cbv zeta. now apply delete_session_other. Qed.

(** A teardown on a session of which nothing is left changes nothing and
    does not raise. *)
Lemma delete_session_nothing_left (sid : string) (w : World) :
  fault sid = None -> fully_reclaimed sid w ->
  delete_session fault sid w = (w, Returned tt).
Proof.
  intros Hf (Hrow & Hcoll & Hfile). unfold delete_session. rewrite Hf.
  rewrite (delete_collection_absent sid (store w) Hcoll). cbn [fst store temp_files sessions].
  rewrite delete_id by exact Hrow.
  replace (temp_files w ∖ {[ pdf_path sid ]}) with (temp_files w).
  - now destruct w.
  - symmetry. apply difference_disjoint_L, disjoint_singleton_r, Hfile.
Qed.

(** X13.  Idempotence.  A teardown that meets no failing collaborator returns,
    leaves nothing of the session in the index, the directory or the
    table, and a second teardown of the same session returns as well and
    changes nothing. *)
Theorem delete_session_idempotent (sid : string) (w : World) :
  fault sid = None ->
  exists w',
    delete_session fault sid w = (w', Returned tt) /\
    fully_reclaimed sid w' /\
    delete_session fault sid w' = (w', Returned tt).
Proof.
  intros Hf. destruct (delete_session fault sid w) as [w' o] eqn:Hdel.
  pose proof (delete_session_outcome fault sid w) as Hout.
  rewrite Hdel, Hf in Hout. simpl in Hout. subst o.
  destruct (delete_session_returned fault _ _ _ Hdel) as (_ & Hgone & _).
  exists w'. split; [reflexivity|]. split; [exact Hgone|].
  now apply delete_session_nothing_left.
Qed.

(** The loop of the sweep touches nothing of a session it was not given. *)
Lemma sweep_other (expired : list (string * option string)) (w : World)
    (count : Z) (log : list LogLine) (sid' : string) :
  ~ In sid' (map fst expired) ->
  let w' := fst (fst (sweep fault expired w count log)) in
  sessions w' !! sid' = sessions w !! sid' /\
  get_collection sid' (store w') = get_collection sid' (store w) /\
  (pdf_path sid' ∈ temp_files w' <-> pdf_path sid' ∈ temp_files w).
Proof.
  cbv zeta. revert w count log.
  induction expired as [|session rest IH]; intros w count log Hnotin; simpl.
  - repeat split; tauto.
  - simpl in Hnotin.
    destruct (delete_session_other (fst session) sid' w ltac:(tauto)) as (H1 & H2 & H3).
    destruct (delete_session fault (fst session) w) as [w1 [[]|e]]; simpl in *.
    + destruct (IH w1 (count + 1) (log ++ [LogDeleted (fst session)]) ltac:(tauto))
        as (I1 & I2 & I3).
      rewrite I1, I2, I3, H1, H2, H3. repeat split; tauto.
    + destruct (IH w1 count (log ++ [LogError (fst session) e]) ltac:(tauto))
        as (I1 & I2 & I3).
      rewrite I1, I2, I3, H1, H2, H3. repeat split; tauto.
Qed.

(** X14.  A sweep without failures.  When no collaborator fails, the sweep
    reclaims every expired session completely and reports their number, a
    second look at the table at the same instant finds no expired session,
    and every session that was not expired keeps its row, its collection
    and its temporary file. *)
Theorem cleanup_expired_sessions_without_failures (now : Z) (w : World) :
  (forall sid, fault sid = None) ->
  exists w' count log,
    cleanup_expired_sessions fault now w = (w', count, log) /\
    count = Z.of_nat (List.length (get_expired_sessions now (sessions w))) /\
    get_expired_sessions now (sessions w') = [] /\
    (forall sid, In sid (map fst (get_expired_sessions now (sessions w))) ->
       fully_reclaimed sid w') /\
    (forall sid, ~ In sid (map fst (get_expired_sessions now (sessions w))) ->
       sessions w' !! sid = sessions w !! sid /\
       get_collection sid (store w') = get_collection sid (store w) /\
       (pdf_path sid ∈ temp_files w' <-> pdf_path sid ∈ temp_files w)).
Proof.
  intros Hnone. unfold cleanup_expired_sessions.
  set (expired := get_expired_sessions now (sessions w)).
  pose proof (fun sid H => sweep_other expired w 0 [] sid H) as Hiso. cbv zeta in Hiso.
  destruct (sweep_spec fault expired w 0 []) as (w' & Hsweep & _ & Hdone & Hother).
  rewrite Hsweep in *. cbn [fst] in Hiso.
  do 3 eexists. split; [reflexivity|].
  assert (Hall : forall l : list string, List.filter (reclaimed fault) l = l).
  { induction l as [|x l IHl]; [reflexivity|]. cbn [List.filter].
    unfold reclaimed at 1. rewrite Hnone. now rewrite IHl. }
  split; [rewrite Hall, length_map; lia|]. split; [|split].
  - destruct (get_expired_sessions now (sessions w')) as [|[sid fn] l] eqn:Hl;
      [reflexivity|]. exfalso.
    assert (Hin : In sid (map fst (get_expired_sessions now (sessions w'))))
      by (rewrite Hl; now left).
    apply get_expired_sessions_In in Hin as (row & Hrow & Hexp).
    destruct (in_dec string_dec sid (map fst expired)) as [Hexpd|Hnot].
    + destruct (Hdone sid Hexpd (Hnone sid)) as (Hgone & _). congruence.
    + rewrite (Hother sid (or_introl Hnot)) in Hrow.
      apply Hnot, get_expired_sessions_In. eauto.
  - intros sid Hin. apply Hdone; [exact Hin | apply Hnone].
  - intros sid Hnot. apply Hiso, Hnot.
Qed.
End TeardownIsolation.

Section TeardownExamples.
Import VectorStore Cleanup.

Lemma delete_session_idempotent_witness :
  exists w',
    delete_session Samples.no_fault "s1" (mkWorld ∅ {[ pdf_path "s1" ]} Samples.one_session)
      = (w', Returned tt) /\
    fully_reclaimed "s1" w' /\
    delete_session Samples.no_fault "s1" w' = (w', Returned tt).
Proof.
  apply (delete_session_idempotent Samples.no_fault "s1"
           (mkWorld ∅ {[ pdf_path "s1" ]} Samples.one_session)).
  reflexivity.
Defined.

Lemma cleanup_expired_sessions_without_failures_witness :
  exists w' count log,
    cleanup_expired_sessions Samples.no_fault (Samples.noon + timedelta_minutes 31)
      (mkWorld ∅ ∅ Samples.one_session) = (w', count, log) /\
    count = Z.of_nat (List.length (get_expired_sessions
                        (Samples.noon + timedelta_minutes 31)
                        (sessions (mkWorld ∅ ∅ Samples.one_session)))) /\
    get_expired_sessions (Samples.noon + timedelta_minutes 31) (sessions w') = [] /\
    (forall sid,
       In sid (map fst (get_expired_sessions (Samples.noon + timedelta_minutes 31)
                          (sessions (mkWorld ∅ ∅ Samples.one_session)))) ->
       fully_reclaimed sid w') /\
    (forall sid,
       ~ In sid (map fst (get_expired_sessions (Samples.noon + timedelta_minutes 31)
                            (sessions (mkWorld ∅ ∅ Samples.one_session)))) ->
       sessions w' !! sid = sessions (mkWorld ∅ ∅ Samples.one_session) !! sid /\
       get_collection sid (store w')
         = get_collection sid (store (mkWorld ∅ ∅ Samples.one_session)) /\
       (pdf_path sid ∈ temp_files w'
        <-> pdf_path sid ∈ temp_files (mkWorld ∅ ∅ Samples.one_session))).
Proof.
  apply (cleanup_expired_sessions_without_failures Samples.no_fault
           (Samples.noon + timedelta_minutes 31) (mkWorld ∅ ∅ Samples.one_session)).
  intros sid. reflexivity.
Defined.

Lemma delete_session_isolated_witness :
  let w := mkWorld ∅ {[ pdf_path "s2" ]} Samples.one_session in
  let w' := fst (delete_session Samples.no_fault "s1" w) in
  sessions w' !! "s2"%string = sessions w !! "s2"%string /\
  get_collection "s2" (store w') = get_collection "s2" (store w) /\
  (pdf_path "s2" ∈ temp_files w' <-> pdf_path "s2" ∈ temp_files w).
Proof.
  apply (delete_session_isolated Samples.no_fault "s1" "s2"
           (mkWorld ∅ {[ pdf_path "s2" ]} Samples.one_session)).
  discriminate.
Defined.
End TeardownExamples.

(** ** Chunker: chunking again changes nothing *)

Section ChunkerIdempotence.
Import Ingest.

Variables (max_chars overlap_chars : Z).

(** Blocks within the limit pass through, whatever the fuel. *)
Lemma chunk_text_blocks_small (blocks : list DataBlock) (fuel : nat) :
  List.Forall (fun b => slen (text b) <= max_chars) blocks ->
  chunk_text_blocks fuel blocks max_chars overlap_chars = Some blocks.
Proof.
  induction 1 as [|b bs Hb _ IH]; [reflexivity|].
  simpl. unfold chunk_block.
  destruct (Z.leb_spec (slen (text b)) max_chars); [|lia].
  now rewrite IH.
Qed.

Lemma block_windows_nonempty (block : DataBlock) (fuel : nat) :
  0 <= max_chars -> (0 < fuel)%nat ->
  block_windows fuel block max_chars overlap_chars <> [].
Proof.
  intros Hmax Hfuel. unfold block_windows.
  destruct (Z.leb_spec (slen (text block)) max_chars); [discriminate|].
  destruct fuel as [|fuel]; [lia|].
  rewrite windows_step by lia. discriminate.
Qed.

Lemma length_concat_nonempty {A B : Type} (f : A -> list B) (l : list A) :
  (forall a, In a l -> f a <> []) ->
  (List.length l <= List.length (concat (map f l)))%nat.
Proof.
  induction l as [|a l IH]; intros Hne; [simpl; lia|].
  simpl. rewrite length_app.
  assert (Ha : f a <> []) by (apply Hne; now left).
  destruct (f a); [congruence|]. simpl.
  specialize (IH (fun x Hx => Hne x (or_intror Hx))). lia.
Qed.
End ChunkerIdempotence.

Section ChunkerAgain.
Import Ingest.

(** X15.  With [0 <= max_chars] and [overlap_chars < max_chars], the
    chunker's output is a fixed point of the chunker: handing the returned
    chunks to [chunk_text_blocks] again, with the same parameters, returns
    them unchanged.  The output never has fewer elements than the input. *)
Theorem chunk_text_blocks_idempotent (blocks : list DataBlock)
    (max_chars overlap_chars : Z) :
  0 <= max_chars -> overlap_chars < max_chars ->
  exists chunks,
    chunk_text_blocks (fuel_for blocks) blocks max_chars overlap_chars = Some chunks /\
    chunk_text_blocks (fuel_for chunks) chunks max_chars overlap_chars = Some chunks /\
    (List.length blocks <= List.length chunks)%nat.
Proof.
  intros Hmax Hov.
  rewrite (chunk_text_blocks_groups max_chars overlap_chars Hov blocks (fuel_for blocks))
    by lia.
  eexists. split; [reflexivity|]. split.
  - apply chunk_text_blocks_small. apply List.Forall_forall. intros c Hc.
    apply in_concat in Hc as (cs & Hcs & Hc).
    apply in_map_iff in Hcs as (b & <- & Hb).
    apply in_map_iff in Hc as (w & <- & Hw).
    rewrite (chunk_of_length max_chars overlap_chars Hov b _ w Hmax Hw).
    apply (block_windows_bounds max_chars overlap_chars Hov) in Hw; [lia | assumption].
  - apply length_concat_nonempty. intros b _ Hnil.
    apply map_eq_nil in Hnil. revert Hnil.
    apply block_windows_nonempty; [assumption | unfold fuel_for; lia].
Qed.

Lemma chunk_text_blocks_idempotent_witness :
  exists chunks,
    chunk_text_blocks (fuel_for [Samples.ten_letters; Samples.two_letters])
      [Samples.ten_letters; Samples.two_letters] 5 2 = Some chunks /\
    chunk_text_blocks (fuel_for chunks) chunks 5 2 = Some chunks /\
    (List.length [Samples.ten_letters; Samples.two_letters] <= List.length chunks)%nat.
Proof.
  apply (chunk_text_blocks_idempotent [Samples.ten_letters; Samples.two_letters] 5 2); lia.
Defined.
End ChunkerAgain.

(** ** Upload handler: validation, success, isolation *)

Section UploadFacts.
Import Ingest VectorStore Cleanup Main.

(** With the default parameters the chunker never returns fewer chunks than
    it was given blocks. *)
Lemma chunk_text_blocks_grows (blocks chunks : list DataBlock) :
  chunk_text_blocks (fuel_for blocks) blocks default_max_chars default_overlap_chars
    = Some chunks ->
  (List.length blocks <= List.length chunks)%nat.
Proof.
  rewrite (chunk_text_blocks_groups default_max_chars default_overlap_chars
             ltac:(unfold default_max_chars, default_overlap_chars; lia)
             blocks (fuel_for blocks)) by lia.
  intros H. inversion H; subst. apply length_concat_nonempty. intros b _ Hnil.
  apply map_eq_nil in Hnil. revert Hnil.
  apply block_windows_nonempty; [unfold default_max_chars; lia | unfold fuel_for; lia].
Qed.


End UploadFacts.

Section UploadTheorems.
Import Ingest VectorStore Cleanup Main.


Lemma upload_body_done (env : UploadEnv) (now : Z) (file : UploadFile)
    (w w' : World) (r : UploadResponse) :
  upload_body env now file w = Some (w', Done r) ->
  exists blocks pages chunks embeddings,
    extract_text_blocks env = Returned (blocks, pages) /\
    chunk_text_blocks (fuel_for blocks) blocks default_max_chars default_overlap_chars
      = Some chunks /\
    get_embeddings env (map text chunks) = Returned embeddings /\
    List.length embeddings = List.length chunks /\
    session_id r = uuid4 env /\
    page_count r = Z.of_nat (size pages) /\
    block_count r = Z.of_nat (List.length chunks) /\
    1 <= block_count r /\
    get_collection (uuid4 env) (store w') = Some (records_from 0 chunks embeddings) /\
    temp_files w' = temp_files w /\
    sessions w' = register_session now (uuid4 env) (filename file) (sessions w) /\
    exists dim, of_dimension dim embeddings.
Proof.
  unfold upload_body. intros Hbody.
  destruct (extract_text_blocks env) as [[blocks pages]|e0]; [|discriminate].
  destruct blocks as [|b bs]; [discriminate|].
  destruct (chunk_text_blocks _ _ _ _) as [chunks|] eqn:Hchunks; [|discriminate].
  destruct (get_embeddings env _) as [embeddings|e1] eqn:Hemb; [|discriminate].
  destruct (create_raises env); [discriminate|].
  destruct (create_collection (uuid4 env) (store w)) as [st1 [[]|e2]] eqn:Hc;
    [|discriminate].
  apply create_collection_returned in Hc as [_ Hst1].
  destruct (add_raises env); [discriminate|].
  destruct (add_documents _ _ _ _ st1) as [st2 [[]|e3]] eqn:Hadd; [|discriminate].
  apply add_documents_fresh_returned in Hadd as (Hcoll & Hlen & Hdim);
    [|unfold records_of_session; now rewrite Hst1].
  destruct (register_raises env); [discriminate|].
  inversion Hbody; subst. clear Hbody. cbn [store temp_files sessions session_id
    page_count block_count].
  exists (b :: bs), pages, chunks, embeddings.
  apply chunk_text_blocks_grows in Hchunks as Hgrow. simpl in Hgrow.
  repeat split; auto; lia.
Qed.

(** X17.  A successful upload leaves the three stores in step.  The
    response names the fresh session, counts the pages the parser reported
    and the chunks stored, and there is at least one chunk; the session's
    collection holds exactly one record per chunk, in order, whatever a
    collection of that name held before; the temporary file is in the
    directory; and the table has the session's row with the file name and
    both time stamps set to the time of the upload. *)
Theorem upload_pdf_success_state (env : UploadEnv) (now : Z) (file : UploadFile)
    (w w' : World) (r : UploadResponse) :
  upload_pdf env now file w = Some (w', Respond r) ->
  exists blocks pages chunks embeddings,
    extract_text_blocks env = Returned (blocks, pages) /\
    chunk_text_blocks (fuel_for blocks) blocks default_max_chars default_overlap_chars
      = Some chunks /\
    get_embeddings env (map text chunks) = Returned embeddings /\
    session_id r = uuid4 env /\
    page_count r = Z.of_nat (size pages) /\
    block_count r = Z.of_nat (List.length chunks) /\
    1 <= block_count r /\
    get_collection (session_id r) (store w') = Some (records_from 0 chunks embeddings) /\
    Z.of_nat (List.length (records_of_session (session_id r) (store w'))) = block_count r /\
    temp_files w' = temp_files w ∪ {[ pdf_path (session_id r) ]} /\
    sessions w' !! session_id r
      = Some (mkSession (current_timestamp now) (current_timestamp now) (filename file)).
Proof.
  unfold upload_pdf. destruct (validate file); [discriminate|].
  destruct (write_raises env); [discriminate|].
  destruct (upload_body _ _ _ _) as [[w1 [r1|h|x]]|] eqn:Hbody; try discriminate.
  intros H. inversion H; subst. clear H.
  apply upload_body_done in Hbody
    as (blocks & pages & chunks & embeddings & Hext & Hchunks & Hemb & Hlen & Hsid
        & Hpages & Hcount & Hone & Hcoll & Hfiles & Hrows & _).
  exists blocks, pages, chunks, embeddings. rewrite Hsid. simpl in Hfiles, Hrows.
  repeat (split; [first [assumption | reflexivity]|]).
  split; [|split; [exact Hfiles|]].
  - unfold records_of_session. rewrite Hcoll.
    change (default [] (Some ?x)) with x.
    rewrite length_records_from by lia. lia.
  - rewrite Hrows. apply lookup_insert_eq.
Qed.

Lemma upload_pdf_success_state_witness :
  let w' := mkWorld {[ "session_u1"%string :=
                         [record_of 0 Samples.ten_letters Samples.unit_embedding] ]}
              {[ "temp_pdfs/u1.pdf"%string ]}
              (register_session Samples.noon "u1" (Some "cv.pdf"%string) ∅) in
  let r := mkUploadResponse "u1" "PDF processed successfully" 1 1
             [mkPageDimensionResponse 1 612 792] in
  exists blocks pages chunks embeddings,
    extract_text_blocks Samples.healthy_env = Returned (blocks, pages) /\
    chunk_text_blocks (fuel_for blocks) blocks default_max_chars default_overlap_chars
      = Some chunks /\
    get_embeddings Samples.healthy_env (map text chunks) = Returned embeddings /\
    session_id r = uuid4 Samples.healthy_env /\
    page_count r = Z.of_nat (size pages) /\
    block_count r = Z.of_nat (List.length chunks) /\
    1 <= block_count r /\
    get_collection (session_id r) (store w') = Some (records_from 0 chunks embeddings) /\
    Z.of_nat (List.length (records_of_session (session_id r) (store w'))) = block_count r /\
    temp_files w' = temp_files Samples.empty_world ∪ {[ pdf_path (session_id r) ]} /\
    sessions w' !! session_id r
      = Some (mkSession (current_timestamp Samples.noon) (current_timestamp Samples.noon)
                (filename Samples.cv_file)).
Proof.
  intros w' r.
  apply (upload_pdf_success_state Samples.healthy_env Samples.noon Samples.cv_file
           Samples.empty_world w' r).
  vm_compute. reflexivity.
Defined.
End UploadTheorems.

(** ** Upload handler: the page dimensions of the response *)

Section PageOrder.
Import Ingest VectorStore Cleanup Main.

Lemma insert_page_Permutation (p : Z * PageDimensions) (l : list (Z * PageDimensions)) :
  insert_page p l ≡ₚ p :: l.
Proof.
  induction l as [|a l IH]; simpl; [reflexivity|].
  destruct (fst p <=? fst a); [reflexivity|].
  rewrite IH. apply Permutation_swap.
Qed.

Lemma sorted_items_Permutation (page_dims : gmap Z PageDimensions) :
  sorted_items page_dims ≡ₚ map_to_list page_dims.
Proof.
  unfold sorted_items. induction (map_to_list page_dims) as [|a l IH]; simpl; [reflexivity|].
  rewrite insert_page_Permutation. now constructor.
Qed.

Lemma insert_page_sorted (p : Z * PageDimensions) (l : list (Z * PageDimensions)) :
  StronglySorted (fun a b => fst a <= fst b) l ->
  StronglySorted (fun a b => fst a <= fst b) (insert_page p l).
Proof.
  induction 1 as [|a l Hl IH Ha]; simpl; [repeat constructor|].
  destruct (Z.leb_spec (fst p) (fst a)) as [Hle|Hgt].
  - constructor; [now constructor|]. constructor; [assumption|].
    eapply List.Forall_impl; [|exact Ha]. simpl. intros b Hb. lia.
  - constructor; [assumption|].
    apply List.Forall_forall. intros b Hb.
    apply list_elem_of_In in Hb. rewrite insert_page_Permutation in Hb.
    apply list_elem_of_In in Hb. destruct Hb as [<-|Hb]; [lia|].
    rewrite List.Forall_forall in Ha. now apply Ha.
Qed.

Lemma sorted_items_sorted (page_dims : gmap Z PageDimensions) :
  StronglySorted (fun a b => fst a <= fst b) (sorted_items page_dims).
Proof.
  unfold sorted_items. induction (map_to_list page_dims) as [|a l IH]; simpl;
    [constructor | now apply insert_page_sorted].
Qed.

(** A list in ascending order without repeated keys is in strictly
    ascending order. *)
Lemma sorted_keys_strict (l : list (Z * PageDimensions)) :
  StronglySorted (fun a b => fst a <= fst b) l ->
  List.NoDup (map fst l) ->
  StronglySorted Z.lt (map fst l).
Proof.
  induction 1 as [|a l Hl IH Ha]; simpl; intros Hnd; [constructor|].
  inversion Hnd as [|x xs Hnotin Hnd']; subst.
  constructor; [now apply IH|].
  apply List.Forall_forall. intros k Hk.
  apply in_map_iff in Hk as (b & <- & Hb).
  rewrite List.Forall_forall in Ha. specialize (Ha b Hb).
  assert (fst a <> fst b) by (intros Heq; apply Hnotin; rewrite Heq; now apply in_map).
  lia.
Qed.

Lemma sorted_items_keys (page_dims : gmap Z PageDimensions) :
  StronglySorted Z.lt (map fst (sorted_items page_dims)).
Proof.
  apply sorted_keys_strict; [apply sorted_items_sorted|].
  apply NoDup_ListNoDup.
  assert (Hperm : map fst (sorted_items page_dims) ≡ₚ (map_to_list page_dims).*1).
  { rewrite sorted_items_Permutation. reflexivity. }
  rewrite Hperm. apply NoDup_fst_map_to_list.
Qed.

Lemma sorted_items_In (page_dims : gmap Z PageDimensions) (p : Z) (d : PageDimensions) :
  In (p, d) (sorted_items page_dims) <-> page_dims !! p = Some d.
Proof.
  rewrite <- list_elem_of_In, sorted_items_Permutation. apply elem_of_map_to_list.
Qed.

Lemma upload_body_pages (env : UploadEnv) (now : Z) (file : UploadFile)
    (w w' : World) (r : UploadResponse) :
  upload_body env now file w = Some (w', Done r) ->
  exists blocks pages,
    extract_text_blocks env = Returned (blocks, pages) /\
    page_count r = Z.of_nat (size pages) /\
    page_dimensions r
      = map (fun kv => mkPageDimensionResponse (fst kv) (width (snd kv)) (height (snd kv)))
          (sorted_items pages).
Proof.
  unfold upload_body. split_body; intros H; inversion H; subst; simpl; eauto.
Qed.
End PageOrder.

Section PageOrderTheorem.
Import Ingest VectorStore Cleanup Main.

(** X18.  The page dimensions of a successful upload's response list the
    pages the parser reported, each once, in strictly ascending order of
    page number, with that page's width and height; their number is the
    response's [page_count]. *)
Theorem upload_pdf_page_dimensions (env : UploadEnv) (now : Z) (file : UploadFile)
    (w w' : World) (r : UploadResponse) :
  upload_pdf env now file w = Some (w', Respond r) ->
  exists blocks pages,
    extract_text_blocks env = Returned (blocks, pages) /\
    Z.of_nat (List.length (page_dimensions r)) = page_count r /\
    StronglySorted Z.lt (map pd_page (page_dimensions r)) /\
    forall p wd ht,
      In (mkPageDimensionResponse p wd ht) (page_dimensions r)
      <-> pages !! p = Some (mkPageDimensions wd ht).
Proof.
  unfold upload_pdf. destruct (validate file); [discriminate|].
  destruct (write_raises env); [discriminate|].
  destruct (upload_body _ _ _ _) as [[w1 [r1|h|x]]|] eqn:Hbody; try discriminate.
  intros H. inversion H; subst. clear H.
  apply upload_body_pages in Hbody as (blocks & pages & Hext & Hcount & Hdims).
  exists blocks, pages. split; [exact Hext|]. rewrite Hdims, Hcount. split; [|split].
  - rewrite length_map.
    rewrite (Permutation_length (sorted_items_Permutation pages)).
    now rewrite length_map_to_list.
  - rewrite map_map. cbn [pd_page]. apply sorted_items_keys.
  - intros p wd ht. rewrite in_map_iff. split.
    + intros ([p' [wd' ht']] & Heq & Hin). simpl in Heq. inversion Heq; subst.
      now apply sorted_items_In.
    + intros Hp. exists (p, mkPageDimensions wd ht). split; [reflexivity|].
      now apply sorted_items_In.
Qed.

Lemma upload_pdf_page_dimensions_witness :
  let w' := mkWorld {[ "session_u1"%string :=
                         [record_of 0 Samples.ten_letters Samples.unit_embedding] ]}
              {[ "temp_pdfs/u1.pdf"%string ]}
              (register_session Samples.noon "u1" (Some "cv.pdf"%string) ∅) in
  let r := mkUploadResponse "u1" "PDF processed successfully" 1 1
             [mkPageDimensionResponse 1 612 792] in
  exists blocks pages,
    extract_text_blocks Samples.healthy_env = Returned (blocks, pages) /\
    Z.of_nat (List.length (page_dimensions r)) = page_count r /\
    StronglySorted Z.lt (map pd_page (page_dimensions r)) /\
    forall p wd ht,
      In (mkPageDimensionResponse p wd ht) (page_dimensions r)
      <-> pages !! p = Some (mkPageDimensions wd ht).
Proof.
  intros w' r.
  apply (upload_pdf_page_dimensions Samples.healthy_env Samples.noon Samples.cv_file
           Samples.empty_world w' r).
  vm_compute. reflexivity.
Defined.
End PageOrderTheorem.

(** ** Upload handler: other sessions *)

Section UploadIsolation.
Import Ingest VectorStore Cleanup Main.

Lemma upload_body_other (env : UploadEnv) (now : Z) (file : UploadFile)
    (w w1 : World) (r : body_end) (sid' : string) :
  upload_body env now file w = Some (w1, r) ->
  uuid4 env <> sid' ->
  sessions w1 !! sid' = sessions w !! sid' /\
  get_collection sid' (store w1) = get_collection sid' (store w) /\
  temp_files w1 = temp_files w.
Proof.
  intros Hbody Hne. unfold upload_body in Hbody.
  destruct (extract_text_blocks env) as [[blocks pages]|e0];
    [|inversion Hbody; subst; auto].
  destruct blocks as [|b bs]; [inversion Hbody; subst; auto|].
  destruct (chunk_text_blocks _ _ _ _) as [chunks|]; [|discriminate].
  destruct (get_embeddings env _) as [embeddings|e1]; [|inversion Hbody; subst; auto].
  destruct (create_raises env); [inversion Hbody; subst; auto|].
  pose proof (get_collection_create_other (uuid4 env) sid' (store w) Hne) as Hc.
  destruct (create_collection (uuid4 env) (store w)) as [st1 o1]. simpl in Hc.
  destruct o1 as [[]|e2]; [|inversion Hbody; subst; auto].
  destruct (add_raises env); [inversion Hbody; subst; auto|].
  pose proof (get_collection_add_other (dup_policy env) (uuid4 env) sid' chunks
                embeddings st1 Hne) as Ha.
  destruct (add_documents _ _ _ _ st1) as [st2 o2]. simpl in Ha. rewrite Hc in Ha.
  destruct o2 as [[]|e3]; [|inversion Hbody; subst; auto].
  destruct (register_raises env); inversion Hbody; subst; simpl; [auto|].
  split; [|auto]. unfold register_session. now apply lookup_insert_ne.
Qed.
End UploadIsolation.

Section UploadIsolationTheorem.
Import Ingest VectorStore Cleanup Main.

(** X19.  However an upload ends, it leaves every other session alone: the
    row, the collection and the temporary file of a session other than the
    one the upload creates are as they were. *)
Theorem upload_pdf_isolated (env : UploadEnv) (now : Z) (file : UploadFile)
    (w w' : World) (res : handled UploadResponse) (sid' : string) :
  upload_pdf env now file w = Some (w', res) ->
  uuid4 env <> sid' ->
  sessions w' !! sid' = sessions w !! sid' /\
  get_collection sid' (store w') = get_collection sid' (store w) /\
  (pdf_path sid' ∈ temp_files w' <-> pdf_path sid' ∈ temp_files w).
Proof.
  intros Hup Hne. unfold upload_pdf in Hup.
  destruct (validate file); [inversion Hup; subst; tauto|].
  destruct (write_raises env); [inversion Hup; subst; tauto|].
  destruct (upload_body _ _ _ _) as [[w1 r]|] eqn:Hbody; [|discriminate].
  apply (upload_body_other _ _ _ _ _ _ sid') in Hbody as (Hrows & Hcoll & Hfiles);
    [|assumption].
  simpl in Hrows, Hcoll, Hfiles.
  assert (Hpath : pdf_path sid' <> pdf_path (uuid4 env)).
  { intros Heq. apply pdf_path_inj in Heq. congruence. }
  destruct r as [r|h|x]; inversion Hup; subst; simpl;
    (split; [assumption|]; split; [assumption|]); rewrite ?Hfiles.
  - rewrite elem_of_union, elem_of_singleton. tauto.
  - rewrite elem_of_union, elem_of_singleton. tauto.
  - rewrite elem_of_difference, elem_of_union, elem_of_singleton. tauto.
Qed.

Lemma upload_pdf_isolated_witness :
  let w := mkWorld {[ "session_s1"%string := [] ]} {[ pdf_path "s1" ]}
             Samples.one_session in
  let w' := mkWorld {[ "session_s1"%string := []; "session_u1"%string := [] ]}
              {[ pdf_path "s1" ]} Samples.one_session in
  sessions w' !! "s1"%string = sessions w !! "s1"%string /\
  get_collection "s1" (store w') = get_collection "s1" (store w) /\
  (pdf_path "s1" ∈ temp_files w' <-> pdf_path "s1" ∈ temp_files w).
Proof.
  intros w w'.
  apply (upload_pdf_isolated Samples.add_fails_env Samples.noon Samples.cv_file w w'
           (Abort (mkHTTPException 500 "Failed to process PDF: vector store")) "s1").
  - vm_compute. reflexivity.
  - discriminate.
Defined.
End UploadIsolationTheorem.

(** ** Chat and session status handlers *)

Section ChatFacts.
Import Ingest VectorStore Cleanup Main Extraction Chat.

Lemma same_but_access_time_refl (now : Z) (sid : string) (w : World) :
  same_but_access_time now sid w w.
Proof.
  unfold same_but_access_time. do 4 (split; [reflexivity|]).
  destruct (sessions w !! sid) as [[c l f]|]; [|reflexivity].
  exists l. split; [now left | reflexivity].
Qed.

Lemma same_but_access_time_touch (now : Z) (sid : string) (w : World) :
  same_but_access_time now sid w (touch now sid w).
Proof.
  unfold same_but_access_time, touch, update_session_access, get_session_count.
  cbn [store temp_files sessions].
  split; [reflexivity|]. split; [reflexivity|]. split; [|split].
  - destruct (sessions w !! sid) as [row|] eqn:Hrow.
    + rewrite (alter_as_insert _ sid row) by assumption.
      rewrite map_size_insert_Some by eauto. reflexivity.
    + now rewrite alter_id'.
  - intros sid' Hne. now apply lookup_alter_ne.
  - rewrite lookup_alter_eq. destruct (sessions w !! sid) as [row|]; [|reflexivity].
    exists (current_timestamp now). split; [now right | reflexivity].
Qed.

(** The world a call of [chat] leaves: untouched when the request is
    rejected, with the access time updated otherwise. *)
Lemma chat_world (env : ChatEnv) (now : Z) (request : ChatRequest) (w : World) :
  match snd (chat env now request w) with
  | Rejected _ => fst (chat env now request w) = w
  | _ => fst (chat env now request w) = touch now (req_session_id request) w
  end.
Proof.
  unfold chat. destruct (strip (req_query request)); [reflexivity|].
  destruct (get_collection _ _); [|reflexivity].
  destruct (get_embedding env _); [|reflexivity].
  destruct (query _ _ _ _ _) as [[|r rs]|]; reflexivity.
Qed.

Lemma chat_rejected_iff (env : ChatEnv) (now : Z) (request : ChatRequest) (w : World) :
  (exists e, snd (chat env now request w) = Rejected e) <->
  strip (req_query request) = EmptyString \/
  get_collection (req_session_id request) (store w) = None.
Proof.
  unfold chat. destruct (strip (req_query request)) as [|c q].
  - split; [now left | eauto].
  - destruct (get_collection _ _) as [coll|].
    + split.
      * intros (e & He). revert He.
        destruct (get_embedding env _); [|discriminate].
        destruct (query _ _ _ _ _) as [[|r rs]|]; discriminate.
      * intros [H|H]; discriminate.
    + split; [now right | eauto].
Qed.


Lemma answer_header_differs (rest : string) :
  (answer_header ++ rest)%string <> no_results_answer.
Proof. intros H. vm_compute in H. discriminate. Qed.
End ChatFacts.

Section ChatTheorems.
Import Ingest VectorStore Cleanup Main Extraction Chat.

(** X20.  [chat] rejects a request exactly when the query is blank (only
    white space) or the session has no collection in the index.  A blank
    query is answered with status 400 even for an unknown session, a
    missing collection with status 404; in both cases nothing is changed,
    not even the session's access time. *)
Theorem chat_rejects (env : ChatEnv) (now : Z) (request : ChatRequest) (w : World) :
  ((exists e, snd (chat env now request w) = Rejected e) <->
   List.Forall (fun c => is_space c = true) (list_ascii_of_string (req_query request)) \/
   get_collection (req_session_id request) (store w) = None) /\
  (forall e, snd (chat env now request w) = Rejected e ->
     fst (chat env now request w) = w /\
     status_code e
       = if String.eqb (strip (req_query request)) "" then 400 else 404).
Proof.
  split.
  - rewrite chat_rejected_iff, strip_empty. reflexivity.
  - intros e He. pose proof (chat_world env now request w) as Hw.
    rewrite He in Hw. split; [exact Hw|].
    revert He. unfold chat. destruct (strip (req_query request)) as [|c q].
    + intros H. inversion H. reflexivity.
    + destruct (get_collection _ _) as [coll|].
      * destruct (get_embedding env _); [|discriminate].
        destruct (query _ _ _ _ _) as [[|r rs]|]; discriminate.
      * intros H. inversion H. reflexivity.
Qed.

(** X21.  When [chat] answers, it cites the nearest records of the
    session: as many as the smaller of 3 and the number of stored records,
    numbered 1, 2, 3 in order, each with the full stored text, the page and
    the four bbox coordinates of one record of the session.  The answer is
    the "nothing found" sentence exactly when there is no citation. *)
Theorem chat_citations (env : ChatEnv) (now : Z) (request : ChatRequest)
    (w w' : World) (resp : ChatResponse) :
  chat env now request w = (w', Finished resp) ->
  let stored := records_of_session (req_session_id request) (store w) in
  List.length (citations resp) = Nat.min 3 (List.length stored) /\
  (forall i c, citations resp !! i = Some c ->
     cit_id c = Z.of_nat i + 1 /\
     exists rec, In rec stored /\
       cit_text c = rec_document rec /\
       cit_page c = md_page (rec_metadata rec) /\
       cit_bbox c = [md_bbox_x0 (rec_metadata rec); md_bbox_y0 (rec_metadata rec);
                     md_bbox_x1 (rec_metadata rec); md_bbox_y1 (rec_metadata rec)]) /\
  (citations resp = [] <-> answer resp = no_results_answer).
Proof.
  intros Hchat stored. subst stored. revert Hchat. unfold chat.
  destruct (strip (req_query request)) as [|c0 q]; [discriminate|].
  destruct (get_collection _ _) as [coll|] eqn:Hcoll; [|discriminate].
  destruct (get_embedding env _) as [v|]; [|discriminate].
  cbn [touch store].
  destruct (query _ _ _ _ _) as [results|] eqn:Hq; [|discriminate].
  apply query_shape in Hq as [Hlen Hres].
  change (Z.to_nat 3) with 3%nat in Hlen.
  destruct results as [|r rs].
  - intros H. inversion H; subst. cbn [citations answer].
    split; [exact Hlen|]. split; [intros i c Hc; discriminate|]. tauto.
  - intros H. inversion H; subst. clear H. cbn [citations answer].
    change (citation_of 0 r :: imap (citation_of ∘ S) rs)
      with (imap citation_of (r :: rs)).
    split; [now rewrite length_imap|]. split.
    + intros i c Hc. rewrite list_lookup_imap in Hc.
      destruct ((r :: rs) !! i) as [res|] eqn:Hi; [|discriminate].
      simpl in Hc. inversion Hc; subst. clear Hc. cbn [cit_id cit_text cit_page cit_bbox].
      destruct (Hres i res Hi) as (_ & rec & Hin & Ht & Hp & Hb).
      split; [reflexivity|]. exists rec. auto.
    + split; [discriminate|]. intros Heq. exfalso.
      exact (answer_header_differs
               (join (newline ++ newline) (imap answer_part (r :: rs))) Heq).
Qed.

(** X22.  [chat] and [get_session_status] change nothing but the access
    time of the session's row: the index, the directory, every other row
    and the number of rows stay, the row keeps its creation time and file
    name, and no row is created for a session that has a collection but no
    row.  Whenever [chat] gets past its two checks, also when the model or
    the index then raises, the access time is the time of the call. *)
Theorem handlers_touch_access_time_only (env : ChatEnv) (now : Z)
    (request : ChatRequest) (w : World) :
  same_but_access_time now (req_session_id request) w (fst (chat env now request w)) /\
  same_but_access_time now (req_session_id request) w
    (fst (get_session_status now (req_session_id request) w)) /\
  (forall row,
     sessions w !! req_session_id request = Some row ->
     (forall e, snd (chat env now request w) <> Rejected e) ->
     sessions (fst (chat env now request w)) !! req_session_id request
       = Some (mkSession (created_at row) (current_timestamp now) (pdf_filename row))).
Proof.
  pose proof (chat_world env now request w) as Hw. split; [|split].
  - destruct (snd (chat env now request w)); rewrite Hw;
      auto using same_but_access_time_refl, same_but_access_time_touch.
  - unfold get_session_status. destruct (get_collection _ _); cbn [fst];
      auto using same_but_access_time_refl, same_but_access_time_touch.
  - intros row Hrow Hnot.
    destruct (snd (chat env now request w)) as [a|e|e]; [| now destruct (Hnot e) |];
      rewrite Hw; unfold touch, update_session_access; cbn [sessions];
      now rewrite lookup_alter_eq, Hrow.
Qed.
End ChatTheorems.

Section ChatExamples.
Import Ingest VectorStore Cleanup Main Extraction Chat.

Lemma chat_citations_witness :
  let request := mkChatRequest "u1" "  skills? " in
  let w := Samples.uploaded_world in
  let w' := touch (Samples.noon + 1) "u1" w in
  let resp := mkChatResponse
                (answer_header ++ "[1] abcdefghij")
                [mkCitation 1 "abcdefghij" 1 [0%Q; 0%Q; 0%Q; 0%Q]] in
  let stored := records_of_session (req_session_id request) (store w) in
  List.length (citations resp) = Nat.min 3 (List.length stored) /\
  (forall i c, citations resp !! i = Some c ->
     cit_id c = Z.of_nat i + 1 /\
     exists rec, In rec stored /\
       cit_text c = rec_document rec /\
       cit_page c = md_page (rec_metadata rec) /\
       cit_bbox c = [md_bbox_x0 (rec_metadata rec); md_bbox_y0 (rec_metadata rec);
                     md_bbox_x1 (rec_metadata rec); md_bbox_y1 (rec_metadata rec)]) /\
  (citations resp = [] <-> answer resp = no_results_answer).
Proof.
  intros request w w' resp.
  apply (chat_citations Samples.chat_env (Samples.noon + 1) request w w' resp).
  vm_compute. reflexivity.
Defined.
End ChatExamples.

(** ** Handlers after a teardown and after an upload *)

Section HandlerSequences.
Import Ingest VectorStore Cleanup Main Extraction Chat.

(** X23.  Whether a session is alive is decided by the index alone.  Once
    a teardown has got past its first step, also when it then fails at the
    file or at the row, [get_session_status] answers 404 and [chat] rejects
    every request for the session, and neither changes anything: the row
    a failed teardown left behind is not touched. *)
Theorem torn_down_session_not_found (fault : string -> option TeardownStep)
    (env : ChatEnv) (now : Z) (sid q : string) (w : World) :
  fault sid <> Some IndexStep ->
  let w' := fst (delete_session fault sid w) in
  get_session_status now sid w'
    = (w', Rejected (mkHTTPException 404 "Session not found or expired")) /\
  exists e, chat env now (mkChatRequest sid q) w' = (w', Rejected e) /\
            (status_code e = 400 \/ status_code e = 404).
Proof.
  intros Hfault w'.
  assert (Hgone : get_collection sid (store w') = None).
  { subst w'. unfold delete_session.
    destruct (fault sid) as [[| |]|]; cbn [fst store]; try congruence;
      apply get_collection_deleted. }
  split.
  - unfold get_session_status. now rewrite Hgone.
  - unfold chat. cbn [req_session_id req_query]. rewrite Hgone.
    destruct (strip q); eexists; (split; [reflexivity|]); simpl; auto.
Qed.

Lemma torn_down_session_not_found_witness :
  let fault := fun _ : string => Some RegistryStep in
  let w' := fst (delete_session fault "u1" Samples.uploaded_world) in
  get_session_status Samples.noon "u1" w'
    = (w', Rejected (mkHTTPException 404 "Session not found or expired")) /\
  exists e, chat Samples.chat_env Samples.noon (mkChatRequest "u1" "skills?") w'
              = (w', Rejected e) /\
            (status_code e = 400 \/ status_code e = 404).
Proof.
  intros fault.
  apply (torn_down_session_not_found fault Samples.chat_env Samples.noon "u1" "skills?"
           Samples.uploaded_world).
  discriminate.
Defined.



(** The condition on the dimension is needed: with a query vector of
    another dimension than the stored ones the index raises, and [chat]
    ends with that exception. *)
Example chat_other_dimension_raises :
  exists e,
    snd (chat (mkChatEnv (fun _ => Returned [1%Q]) Samples.zero_distance)
           (Samples.noon + 1) (mkChatRequest "u1" "skills?") Samples.uploaded_world)
      = Uncaught e.
Proof. eexists. vm_compute. reflexivity. Qed.
End HandlerSequences.

(** ** Upload handler: what the index holds afterwards *)

Section StoredText.
Import Ingest VectorStore Cleanup Main.

(** A slice from 0 to a bound at or past the end is the whole text. *)
Lemma py_slice_prefix_all (s : string) (k : Z) :
  slen s <= k -> py_slice s 0 k = s.
Proof.
  intros Hk. pose proof (slen_nonneg s) as Hn.
  rewrite <- (py_slice_all s) at 2. unfold py_slice, py_bound.
  destruct (Z.ltb_spec k 0); [lia|].
  destruct (Z.ltb_spec (slen s) 0); [lia|].
  now rewrite (Z.min_r k (slen s)), (Z.min_id (slen s)) by lia.
Qed.

(** With the default parameters every returned chunk is within the limit. *)
Lemma chunk_text_blocks_default_bound (blocks chunks : list DataBlock)
    (chunk : DataBlock) :
  chunk_text_blocks (fuel_for blocks) blocks default_max_chars default_overlap_chars
    = Some chunks ->
  In chunk chunks -> slen (text chunk) <= default_max_chars.
Proof.
  assert (Hov : default_overlap_chars < default_max_chars)
    by (unfold default_max_chars, default_overlap_chars; lia).
  assert (Hmax : 0 <= default_max_chars) by (unfold default_max_chars; lia).
  rewrite (chunk_text_blocks_groups default_max_chars default_overlap_chars Hov
             blocks (fuel_for blocks)) by lia.
  intros H Hc. inversion H; subst. clear H.
  apply in_concat in Hc as (cs & Hcs & Hc).
  apply in_map_iff in Hcs as (b & <- & Hb).
  apply in_map_iff in Hc as (wd & <- & Hw).
  rewrite (chunk_of_length default_max_chars default_overlap_chars Hov b _ wd Hmax Hw).
  apply (block_windows_bounds default_max_chars default_overlap_chars Hov) in Hw;
    [lia | assumption].
Qed.
End StoredText.

Section StoredTextTheorem.
Import Ingest VectorStore Cleanup Main.

(** X25.  After a successful upload every record of the session's
    collection holds a text of at most 500 characters, the chunker's
    default limit, so the copy of the text kept in the record's metadata
    (the first 500 characters) is the whole text: for uploaded documents
    the metadata copy is never cut short. *)
Theorem upload_pdf_stored_text_complete (env : UploadEnv) (now : Z)
    (file : UploadFile) (w w' : World) (r : UploadResponse) (rec : VectorRecord) :
  upload_pdf env now file w = Some (w', Respond r) ->
  In rec (records_of_session (session_id r) (store w')) ->
  slen (rec_document rec) <= 500 /\
  md_text (rec_metadata rec) = rec_document rec.
Proof.
  intros Hup Hrec.
  assert (Hdone : exists w0, upload_body env now file w0 = Some (w', Done r)).
  { revert Hup. unfold upload_pdf. destruct (validate file); [discriminate|].
    destruct (write_raises env); [discriminate|].
    destruct (upload_body _ _ _ _) as [[w1 [r1|h|x]]|] eqn:Hbody; try discriminate.
    intros H. inversion H; subst. eauto. }
  destruct Hdone as (w0 & Hbody).
  apply upload_body_done in Hbody
    as (blocks & pages & chunks & embeddings & _ & Hchunks & _ & _ & Hsid
        & _ & _ & _ & Hcoll & _ & _).
  rewrite Hsid in Hrec. unfold records_of_session in Hrec. rewrite Hcoll in Hrec.
  change (default [] (Some ?x)) with x in Hrec.
  apply records_from_In in Hrec as (j & b & e & Hb & _ & ->).
  apply lookup_In in Hb.
  pose proof (chunk_text_blocks_default_bound blocks chunks b Hchunks Hb) as Hle.
  unfold default_max_chars in Hle.
  unfold record_of, metadata_of. destruct b as [t p [[[x0 y0] x1] y1]].
  cbn [text bbox page rec_document rec_metadata md_text] in *.
  split; [exact Hle | now apply py_slice_prefix_all].
Qed.

Lemma upload_pdf_stored_text_complete_witness :
  let rec := record_of 0 Samples.ten_letters Samples.unit_embedding in
  slen (rec_document rec) <= 500 /\
  md_text (rec_metadata rec) = rec_document rec.
Proof.
  intros rec.
  apply (upload_pdf_stored_text_complete Samples.healthy_env Samples.noon Samples.cv_file
           Samples.empty_world Samples.uploaded_world
           (mkUploadResponse "u1" "PDF processed successfully" 1 1
              [mkPageDimensionResponse 1 612 792]) rec).
  - vm_compute. reflexivity.
  - left. reflexivity.
Defined.
End StoredTextTheorem.
